(** * RSA key-material engine of bcrypto (src/rsa/rsa.c, OpenSSL backend)

    A shallow embedding of the C translation unit that validates,
    completes, serialises and uses RSA key material, together with the
    properties its specification states about it.

    Conventions of the embedding.
    - [uint8_t] is [Byte.byte]; a buffer [(const uint8_t *d, size_t l)] is an
      [option (list byte)]: [None] is the null pointer, [Some bs] a pointer to
      [length bs] readable bytes.
    - [size_t] is a 64-bit unsigned integer, written as a [Z] reduced by
      [size_t_wrap] after each operation that can leave the range.
    - An OpenSSL [BIGNUM] is a [Z]; the functions of [openssl/bn.h] that the
      file calls are modelled in module [BN] from their documented behaviour.
    - A pointer argument that the C code tests against [NULL] is an [option].
    - Memory allocation is assumed to succeed, and a [BIGNUM] holds a number
      of any size: where a statement promises that a conversion or a
      computation succeeds, the numbers are bounded by a validator or by a
      hypothesis on their bit lengths. *)

From Stdlib Require Import String Ascii.
From Stdlib Require Import ZArith List Lia Bool.
From Stdlib Require Import Strings.Byte.
From Stdlib Require Import ZArith.Zcong ZArith.Znumtheory.
Import ListNotations.

Local Open Scope Z_scope.

(** ** Machine integers *)

Definition SIZE_BITS : Z := 64.

(** Reduction of an integer to the range of [size_t]. *)
Definition size_t_wrap (z : Z) : Z := z mod 2 ^ SIZE_BITS.

(** The conversion [(int) x] of a [size_t]: the low 32 bits, read in two's
    complement. *)
Definition to_int (z : Z) : Z := (z + 2 ^ 31) mod 2 ^ 32 - 2 ^ 31.

(** The numeric value of a [uint8_t]. *)
Definition u8 (b : byte) : Z := Z.of_N (Byte.to_N b).

(** The [uint8_t] holding the low eight bits of [z]. *)
Definition to_u8 (z : Z) : byte :=
  match Byte.of_N (Z.to_N (z mod 256)) with
  | Some b => b
  | None => x00
  end.

(** A checked array read [in[i]]: [None] when the pointer is null or the
    index is outside the buffer. *)
Definition read (buf : option (list byte)) (i : Z) : option byte :=
  match buf with
  | None => None
  | Some bs => if i <? 0 then None else nth_error bs (Z.to_nat i)
  end.

(** The length field that accompanies a buffer pointer. *)
Definition len (buf : option (list byte)) : Z :=
  match buf with
  | None => 0
  | Some bs => Z.of_nat (length bs)
  end.

(** ** The big-integer substrate (openssl/bn.h) *)

Module BN.

(** [BN_bin2bn]: the non-negative integer a big-endian byte string denotes. *)
Definition of_bytes (bs : list byte) : Z :=
  fold_left (fun acc b => acc * 256 + u8 b) bs 0.

Definition bin2bn (buf : option (list byte)) : Z :=
  match buf with
  | None => 0
  | Some bs => of_bytes bs
  end.

(** [BN_bin2bn (s, len, NULL)] as the file calls it. The parameter [len] is
    an [int]: the number is read from the first [len] bytes at [s]; a
    negative [len] asks for more words than a [BIGNUM] can have and the call
    returns null. *)
Definition bin2bn_int (s : option (list byte)) (len : Z) : option Z :=
  if len <? 0 then None
  else
    Some (of_bytes (firstn (Z.to_nat len)
                      (match s with Some bs => bs | None => [] end))).

(** [BN_num_bits] and [BN_num_bytes]: size of the magnitude. *)
Definition num_bits (a : Z) : Z :=
  if a =? 0 then 0 else Z.log2 (Z.abs a) + 1.

Definition num_bytes (a : Z) : Z := (num_bits a + 7) / 8.

(** The [n] low-order bytes of [a], most significant first. *)
Fixpoint be_bytes (n : nat) (a : Z) : list byte :=
  match n with
  | O => []
  | S n' => be_bytes n' (a / 256) ++ [to_u8 a]
  end.

(** [BN_bn2bin]: the magnitude in exactly [BN_num_bytes] big-endian bytes. *)
Definition bn2bin (a : Z) : list byte :=
  be_bytes (Z.to_nat (num_bytes a)) (Z.abs a).

Definition is_zero (a : Z) : bool := a =? 0.

Definition value_one : Z := 1.

(** [BN_mul], [BN_sub]: exact integer arithmetic. *)
Definition mul (a b : Z) : Z := a * b.
Definition sub (a b : Z) : Z := a - b.

(** [BN_mod] is [BN_div] keeping the remainder: it fails on a zero divisor
    and the remainder takes the sign of the dividend. *)
Definition mod_ (m d : Z) : option Z :=
  if d =? 0 then None else Some (Z.rem m d).

(** [BN_mod_inverse]: the inverse of [a] modulo [n] in [[0, |n|)], or failure
    when none exists (a modulus of magnitude 0 or 1 is refused). *)
Definition mod_inverse (a n : Z) : option Z :=
  let m := Z.abs n in
  if m <=? 1 then None
  else if Z.gcd a m =? 1 then Some (Z.invmod a m)
  else None.

End BN.

(** ** Key material (rsa.h) *)

(** [bcrypto_rsa_key_t]: eight pointer-and-length pairs. *)
Record bcrypto_rsa_key_t : Type := mk_key {
  nd : option (list byte);
  ed : option (list byte);
  dd : option (list byte);
  pd : option (list byte);
  qd : option (list byte);
  dpd : option (list byte);
  dqd : option (list byte);
  qid : option (list byte)
}.

(** [bcrypto_rsa_key_init]: every pointer null, every length zero. *)
Definition bcrypto_rsa_key_init : bcrypto_rsa_key_t :=
  mk_key None None None None None None None None.

(** ** Bit length of a buffer *)

(** The scan [for (; i < in_len; i++) if (in[i] != 0) break;] started at
    index [i] on the bytes from [i] on; returns the final [i]. *)
Fixpoint skip_zero_bytes (rest : list byte) (i : Z) : Z :=
  match rest with
  | [] => i
  | b :: rest' => if u8 b =? 0 then skip_zero_bytes rest' (i + 1) else i
  end.

(** The loop [while (oct) { bits += 1; oct >>= 1; }]; a [uint32_t] is zero
    after at most 32 shifts. *)
Fixpoint count_oct (fuel : nat) (oct bits : Z) : Z :=
  match fuel with
  | O => bits
  | S fuel' =>
      if oct =? 0 then bits
      else count_oct fuel' (Z.shiftr oct 1) (bits + 1)
  end.

Definition bcrypto_count_bits (in_ : option (list byte)) : Z :=
  match in_ with
  | None => 0
  | Some bs =>
      let in_len := Z.of_nat (length bs) in
      let i := skip_zero_bytes bs 0 in
      let bits := size_t_wrap ((in_len - i) * 8) in
      if bits =? 0 then 0
      else
        let bits := bits - 8 in
        let oct := match read (Some bs) i with Some b => u8 b | None => 0 end in
        count_oct 32 oct bits
  end.

(** Leading zero bytes removed: the significant bytes of a buffer. *)
Fixpoint strip_zeros (bs : list byte) : list byte :=
  match bs with
  | [] => []
  | b :: bs' => if u8 b =? 0 then strip_zeros bs' else bs
  end.

(** A byte string is minimal when it does not start with a zero byte. *)
Definition minimal (bs : list byte) : Prop := strip_zeros bs = bs.

(** The bit length as the specification words it: 0 when no significant
    byte remains, otherwise [8 * significant_byte_count - 8 +
    floor(log2(leading_significant_byte)) + 1]. *)
Definition spec_bit_length (buf : option (list byte)) : Z :=
  match buf with
  | None => 0
  | Some bs =>
      match strip_zeros bs with
      | [] => 0
      | b :: _ =>
          8 * Z.of_nat (length (strip_zeros bs)) - 8 + Z.log2 (u8 b) + 1
      end
  end.

(** A buffer whose length in bits cannot leave the range of [size_t]; every
    object of a 64-bit address space satisfies it. *)
Definition fits (buf : option (list byte)) : Prop := len buf < 2 ^ 60.

Definition key_fits (key : bcrypto_rsa_key_t) : Prop :=
  fits (nd key) /\ fits (ed key) /\ fits (dd key) /\ fits (pd key)
  /\ fits (qd key) /\ fits (dpd key) /\ fits (dqd key) /\ fits (qid key).

(** A buffer whose length is an [int]: [BN_bin2bn] is handed the length it
    has. *)
Definition int_sized (buf : option (list byte)) : Prop := len buf < 2 ^ 31.

Definition key_int_sized (key : bcrypto_rsa_key_t) : Prop :=
  int_sized (nd key) /\ int_sized (ed key) /\ int_sized (dd key)
  /\ int_sized (pd key) /\ int_sized (qd key) /\ int_sized (dpd key)
  /\ int_sized (dqd key) /\ int_sized (qid key).

(** A key none of whose numbers has more bits than the largest modulus that
    the validators accept. *)
Definition key_bits_bounded (key : bcrypto_rsa_key_t) : Prop :=
  bcrypto_count_bits (nd key) <= 16384
  /\ bcrypto_count_bits (ed key) <= 16384
  /\ bcrypto_count_bits (dd key) <= 16384
  /\ bcrypto_count_bits (pd key) <= 16384
  /\ bcrypto_count_bits (qd key) <= 16384
  /\ bcrypto_count_bits (dpd key) <= 16384
  /\ bcrypto_count_bits (dqd key) <= 16384
  /\ bcrypto_count_bits (qid key) <= 16384.

(** ** Key Material Validator *)

(** The test [(key->ed[key->el - 1] & 1) == 0]. Both validators reach it
    only with a bit length of at least 2, where the read is inside the
    buffer; the outcome chosen for an invalid read is never used. *)
Definition ed_last_is_even (key : bcrypto_rsa_key_t) : bool :=
  match read (ed key) (len (ed key) - 1) with
  | Some b => Z.land (u8 b) 1 =? 0
  | None => true
  end.

Definition bcrypto_rsa_sane_pubkey (key : option bcrypto_rsa_key_t) : bool :=
  match key with
  | None => false
  | Some key =>
      let nb := bcrypto_count_bits (nd key) in
      if (nb <? 512) || (nb >? 16384) then false
      else
        let eb := bcrypto_count_bits (ed key) in
        if (eb <? 2) || (eb >? 33) then false
        else if ed_last_is_even key then false
        else true
  end.

Definition bcrypto_rsa_sane_privkey (key : option bcrypto_rsa_key_t) : bool :=
  if negb (bcrypto_rsa_sane_pubkey key) then false
  else
    match key with
    | None => false
    | Some key =>
        let nb := bcrypto_count_bits (nd key) in
        let db := bcrypto_count_bits (dd key) in
        if (db =? 0) || (db >? nb) then false
        else
          let pb := bcrypto_count_bits (pd key) in
          let qb := bcrypto_count_bits (qd key) in
          if negb (size_t_wrap (pb + qb) =? nb) then false
          else
            let dpb := bcrypto_count_bits (dpd key) in
            if (dpb =? 0) || (dpb >? pb) then false
            else
              let dqb := bcrypto_count_bits (dqd key) in
              if (dqb =? 0) || (dqb >? qb) then false
              else
                let qib := bcrypto_count_bits (qid key) in
                if (qib =? 0) || (qib >? pb) then false
                else true
    end.

Definition bcrypto_rsa_sane_compute (key : option bcrypto_rsa_key_t) : bool :=
  match key with
  | None => false
  | Some key =>
      let nb := bcrypto_count_bits (nd key) in
      let eb := bcrypto_count_bits (ed key) in
      let db := bcrypto_count_bits (dd key) in
      let pb := bcrypto_count_bits (pd key) in
      let qb := bcrypto_count_bits (qd key) in
      let dpb := bcrypto_count_bits (dpd key) in
      let dqb := bcrypto_count_bits (dqd key) in
      let qib := bcrypto_count_bits (qid key) in
      if (pb =? 0) || (qb =? 0) then false
      else if (eb =? 0) && (db =? 0) then false
      else if negb (nb =? 0)
                && ((nb <? 512) || (nb >? 16384)
                    || negb (size_t_wrap (pb + qb) =? nb)) then false
      else if negb (eb =? 0)
                && ((eb <? 2) || (eb >? 33) || ed_last_is_even key) then false
      else if negb (db =? 0) && (db >? size_t_wrap (pb + qb)) then false
      else if negb (dpb =? 0) && (dpb >? pb) then false
      else if negb (dqb =? 0) && (dqb >? qb) then false
      else if negb (qib =? 0) && (qib >? pb) then false
      else true
  end.

Definition bcrypto_rsa_needs_compute (key : option bcrypto_rsa_key_t) : bool :=
  match key with
  | None => false
  | Some key =>
      (bcrypto_count_bits (nd key) =? 0)
      || (bcrypto_count_bits (ed key) =? 0)
      || (bcrypto_count_bits (dd key) =? 0)
      || (bcrypto_count_bits (dpd key) =? 0)
      || (bcrypto_count_bits (dqd key) =? 0)
      || (bcrypto_count_bits (qid key) =? 0)
  end.


(** ** The OpenSSL key object (openssl/rsa.h) *)

(** An [RSA] object: eight [BIGNUM] pointers, null until set. *)
Record RSA : Type := mk_RSA {
  rsa_n : option Z;
  rsa_e : option Z;
  rsa_d : option Z;
  rsa_p : option Z;
  rsa_q : option Z;
  rsa_dmp1 : option Z;
  rsa_dmq1 : option Z;
  rsa_iqmp : option Z
}.

Definition RSA_new : RSA := mk_RSA None None None None None None None None.

(** A pointer that is null in both places. *)
Definition both_null (old new : option Z) : bool :=
  match old, new with
  | None, None => true
  | _, _ => false
  end.

(** Assignment of a non-null argument; a null argument keeps the field. *)
Definition set0 (old new : option Z) : option Z :=
  match new with
  | Some _ => new
  | None => old
  end.

(** [RSA_set0_key]: fails when [n] or [e] would stay null. *)
Definition RSA_set0_key (r : RSA) (n e d : option Z) : option RSA :=
  if both_null (rsa_n r) n || both_null (rsa_e r) e then None
  else Some (mk_RSA (set0 (rsa_n r) n) (set0 (rsa_e r) e) (set0 (rsa_d r) d)
               (rsa_p r) (rsa_q r) (rsa_dmp1 r) (rsa_dmq1 r) (rsa_iqmp r)).

(** [RSA_set0_factors]: fails when [p] or [q] would stay null. *)
Definition RSA_set0_factors (r : RSA) (p q : option Z) : option RSA :=
  if both_null (rsa_p r) p || both_null (rsa_q r) q then None
  else Some (mk_RSA (rsa_n r) (rsa_e r) (rsa_d r)
               (set0 (rsa_p r) p) (set0 (rsa_q r) q)
               (rsa_dmp1 r) (rsa_dmq1 r) (rsa_iqmp r)).

(** [RSA_set0_crt_params]: fails when a CRT parameter would stay null. *)
Definition RSA_set0_crt_params (r : RSA) (dmp1 dmq1 iqmp : option Z)
  : option RSA :=
  if both_null (rsa_dmp1 r) dmp1 || both_null (rsa_dmq1 r) dmq1
     || both_null (rsa_iqmp r) iqmp then None
  else Some (mk_RSA (rsa_n r) (rsa_e r) (rsa_d r) (rsa_p r) (rsa_q r)
               (set0 (rsa_dmp1 r) dmp1) (set0 (rsa_dmq1 r) dmq1)
               (set0 (rsa_iqmp r) iqmp)).

(** Sequencing of steps that jump to [fail] on a null or zero result. *)
Notation "'do' x <- c ; k" :=
  (match c with Some x => k | None => None end)
    (at level 10, x name, c at level 100, k at level 200,
     format "'[v' 'do'  x  <-  c ; '/' k ']'").

Notation "'do' ' p <- c ; k" :=
  (match c with Some p => k | None => None end)
    (at level 10, p pattern, c at level 100, k at level 200,
     format "'[v' 'do'  ' p  <-  c ; '/' k ']'").

(** ** Conversions between the two key representations *)

(** The lengths [nl .. qil] are [size_t] and [BN_bin2bn] takes an [int]:
    each call converts. *)
Definition bcrypto_rsa_key2priv (priv : option bcrypto_rsa_key_t) : option RSA :=
  do priv <- priv;
  let priv_r := RSA_new in
  let n := BN.bin2bn_int (nd priv) (to_int (len (nd priv))) in
  let e := BN.bin2bn_int (ed priv) (to_int (len (ed priv))) in
  let d := BN.bin2bn_int (dd priv) (to_int (len (dd priv))) in
  let p := BN.bin2bn_int (pd priv) (to_int (len (pd priv))) in
  let q := BN.bin2bn_int (qd priv) (to_int (len (qd priv))) in
  let dp := BN.bin2bn_int (dpd priv) (to_int (len (dpd priv))) in
  let dq := BN.bin2bn_int (dqd priv) (to_int (len (dqd priv))) in
  let qi := BN.bin2bn_int (qid priv) (to_int (len (qid priv))) in
  do n <- n;
  do e <- e;
  do d <- d;
  do p <- p;
  do q <- q;
  do dp <- dp;
  do dq <- dq;
  do qi <- qi;
  do priv_r <- RSA_set0_key priv_r (Some n) (Some e) (Some d);
  do priv_r <- RSA_set0_factors priv_r (Some p) (Some q);
  do priv_r <- RSA_set0_crt_params priv_r (Some dp) (Some dq) (Some qi);
  Some priv_r.

Definition bcrypto_rsa_key2pub (pub : option bcrypto_rsa_key_t) : option RSA :=
  do pub <- pub;
  let pub_r := RSA_new in
  let n := BN.bin2bn_int (nd pub) (to_int (len (nd pub))) in
  let e := BN.bin2bn_int (ed pub) (to_int (len (ed pub))) in
  do n <- n;
  do e <- e;
  do pub_r <- RSA_set0_key pub_r (Some n) (Some e) None;
  Some pub_r.

(** The arena layout gives every field a non-null pointer into the arena
    and the length [BN_num_bytes]; [BN_bn2bin] then fills the bytes. *)
Definition bcrypto_rsa_priv2key (priv_r : option RSA)
  : option bcrypto_rsa_key_t :=
  do priv_r <- priv_r;
  do n <- rsa_n priv_r;
  do e <- rsa_e priv_r;
  do d <- rsa_d priv_r;
  do p <- rsa_p priv_r;
  do q <- rsa_q priv_r;
  do dp <- rsa_dmp1 priv_r;
  do dq <- rsa_dmq1 priv_r;
  do qi <- rsa_iqmp priv_r;
  Some {| nd := Some (BN.bn2bin n); ed := Some (BN.bn2bin e);
          dd := Some (BN.bn2bin d); pd := Some (BN.bn2bin p);
          qd := Some (BN.bn2bin q); dpd := Some (BN.bn2bin dp);
          dqd := Some (BN.bn2bin dq); qid := Some (BN.bn2bin qi) |}.

Definition bcrypto_rsa_pub2key (pub_r : option RSA)
  : option bcrypto_rsa_key_t :=
  do pub_r <- pub_r;
  do n <- rsa_n pub_r;
  do e <- rsa_e pub_r;
  Some {| nd := Some (BN.bn2bin n); ed := Some (BN.bn2bin e);
          dd := None; pd := None; qd := None;
          dpd := None; dqd := None; qid := None |}.

(** ** Key Completion Engine *)

(** The arithmetic of [bcrypto_rsa_privkey_compute] on the copies
    [rsa_n .. rsa_iqmp] of the caller's numbers; [None] is a jump to [fail]. *)
Definition compute_numbers (n e d p q dp dq qi : Z) : option RSA :=
  let rsa_n := n in
  let rsa_e := e in
  let rsa_d := d in
  let rsa_p := p in
  let rsa_q := q in
  let rsa_dmp1 := dp in
  let rsa_dmq1 := dq in
  let rsa_iqmp := qi in
  let rsa_n := if BN.is_zero rsa_n then BN.mul rsa_p rsa_q else rsa_n in
  let r1 := BN.sub rsa_p BN.value_one in
  let r2 := BN.sub rsa_q BN.value_one in
  let r0 := BN.mul r1 r2 in
  do rsa_e <- (if BN.is_zero rsa_e then BN.mod_inverse rsa_d r0
               else Some rsa_e);
  do rsa_d <- (if BN.is_zero rsa_d then BN.mod_inverse rsa_e r0
               else Some rsa_d);
  do dm <- (if BN.is_zero rsa_dmp1 || BN.is_zero rsa_dmq1 then
              do x <- BN.mod_ rsa_d r1;
              do y <- BN.mod_ rsa_d r2;
              Some (x, y)
            else Some (rsa_dmp1, rsa_dmq1));
  let rsa_dmp1 := fst dm in
  let rsa_dmq1 := snd dm in
  do rsa_iqmp <- (if BN.is_zero rsa_iqmp then BN.mod_inverse rsa_q rsa_p
                  else Some rsa_iqmp);
  let out_r := RSA_new in
  do out_r <- RSA_set0_key out_r (Some rsa_n) (Some rsa_e) (Some rsa_d);
  do out_r <- RSA_set0_factors out_r (Some rsa_p) (Some rsa_q);
  do out_r <- RSA_set0_crt_params out_r
                (Some rsa_dmp1) (Some rsa_dmq1) (Some rsa_iqmp);
  Some out_r.

(** [bcrypto_rsa_privkey_compute (priv, key)]: [key0] is what [*key] holds
    before the call; the result is the returned [bool] and what [*key] holds
    after it. Every [goto fail] returns [false] and leaves [*key] alone. The
    eight numbers read back from [priv_r] are never null, which is what the
    assertion after [RSA_get0_crt_params] states. *)
Definition bcrypto_rsa_privkey_compute
    (priv : option bcrypto_rsa_key_t) (key0 : option bcrypto_rsa_key_t)
  : bool * option bcrypto_rsa_key_t :=
  if negb (bcrypto_rsa_sane_compute priv) then (false, key0)
  else if negb (bcrypto_rsa_needs_compute priv) then (true, None)
  else
    let out :=
      do priv_r <- bcrypto_rsa_key2priv priv;
      do n <- rsa_n priv_r;
      do e <- rsa_e priv_r;
      do d <- rsa_d priv_r;
      do p <- rsa_p priv_r;
      do q <- rsa_q priv_r;
      do dp <- rsa_dmp1 priv_r;
      do dq <- rsa_dmq1 priv_r;
      do qi <- rsa_iqmp priv_r;
      do out_r <- compute_numbers n e d p q dp dq qi;
      bcrypto_rsa_priv2key (Some out_r)
    in
    match out with
    | Some out => (true, Some out)
    | None => (false, key0)
    end.


(** What completion promises about a result [out] for an input [priv]:
    every number of [out] is either the caller's or derived by the RSA
    relations, the CRT exponents being derived as a pair. *)
Definition completes (priv out : bcrypto_rsa_key_t) : Prop :=
  let absent buf := bcrypto_count_bits buf =? 0 in
  let n := BN.bin2bn (nd priv) in
  let e := BN.bin2bn (ed priv) in
  let d := BN.bin2bn (dd priv) in
  let p := BN.bin2bn (pd priv) in
  let q := BN.bin2bn (qd priv) in
  let dp := BN.bin2bn (dpd priv) in
  let dq := BN.bin2bn (dqd priv) in
  let qi := BN.bin2bn (qid priv) in
  let n' := BN.bin2bn (nd out) in
  let e' := BN.bin2bn (ed out) in
  let d' := BN.bin2bn (dd out) in
  let p' := BN.bin2bn (pd out) in
  let q' := BN.bin2bn (qd out) in
  let dp' := BN.bin2bn (dpd out) in
  let dq' := BN.bin2bn (dqd out) in
  let qi' := BN.bin2bn (qid out) in
  let r1 := p - 1 in
  let r2 := q - 1 in
  let lambda := r1 * r2 in
  p' = p /\ q' = q
  /\ n' = (if absent (nd priv) then p * q else n)
  /\ (if absent (ed priv)
      then 0 <= e' < lambda /\ (d * e') mod lambda = 1
      else e' = e)
  /\ (if absent (dd priv)
      then 0 <= d' < lambda /\ (e * d') mod lambda = 1
      else d' = d)
  /\ (if absent (dpd priv) || absent (dqd priv)
      then dp' = d' mod r1 /\ dq' = d' mod r2
      else dp' = dp /\ dq' = dq)
  /\ (if absent (qid priv)
      then 0 <= qi' < p /\ (q * qi') mod p = 1
      else qi' = qi).

(** A buffer as [bcrypto_rsa_priv2key] writes it: non-null, holding the
    number in as few bytes as it needs. *)
Definition normal (buf : option (list byte)) : Prop :=
  buf = Some (BN.bn2bin (BN.bin2bn buf)).

Definition key_normal (key : bcrypto_rsa_key_t) : Prop :=
  normal (nd key) /\ normal (ed key) /\ normal (dd key) /\ normal (pd key)
  /\ normal (qd key) /\ normal (dpd key) /\ normal (dqd key)
  /\ normal (qid key).

(** The value of a buffer rewritten by [BN_bin2bn] then [BN_bn2bin]. *)
Definition normalize (buf : option (list byte)) : option (list byte) :=
  Some (BN.bn2bin (BN.bin2bn buf)).

(** ** The DER codec (openssl/rsa.h, [i2d_*] and [d2i_*])

    A model of the codec the file consumes, for the two ASN.1 structures it
    uses: RSAPrivateKey, a SEQUENCE of the INTEGERs version, n, e, d, p, q,
    dp, dq, qInv and of an optional list of further primes, and
    RSAPublicKey, a SEQUENCE of the INTEGERs n, e. Encoding is DER, of the
    two-prime objects that this file builds. Decoding is what OpenSSL 1.1.1
    does: it follows the [d2i] calling convention, consuming one structure
    from the front of the input and handing back what follows it; it takes
    the definite and the indefinite form of a SEQUENCE; the numbers of the
    key are [BIGNUM]s read by [BN_bin2bn] from the contents octets; the
    version is a 32-bit integer read with the checks of DER; the further
    primes are read and, as the file never looks at them, left out of the
    object. *)

Module ASN1.

Definition TAG_INTEGER : byte := x02.
Definition TAG_SEQUENCE : byte := x30.

(** Definite length: short form below 128, else the count of length
    bytes (at most 126) and the length in big-endian bytes. *)
Definition encode_length (n : Z) : option (list byte) :=
  if n <? 128 then Some [to_u8 n]
  else
    let k := BN.num_bytes n in
    if k <? 127 then Some (to_u8 (128 + k) :: BN.bn2bin n) else None.

Definition encode_tlv (tag : byte) (content : list byte)
  : option (list byte) :=
  do l <- encode_length (Z.of_nat (length content));
  Some (tag :: l ++ content).

(** Contents of a [BIGNUM] INTEGER: the magnitude, preceded by a zero
    byte when its top bit is set or when there is no magnitude byte. *)
Definition bn_i2c (a : Z) : list byte :=
  if BN.num_bits a mod 8 =? 0 then x00 :: BN.bn2bin a else BN.bn2bin a.

(** INTEGERs with the given contents octets, one after the other. *)
Fixpoint encode_contents (cs : list (list byte)) : option (list byte) :=
  match cs with
  | [] => Some []
  | c :: cs' =>
      do h <- encode_tlv TAG_INTEGER c;
      do t <- encode_contents cs';
      Some (h ++ t)
  end.

Definition encode_integer (a : Z) : option (list byte) :=
  encode_tlv TAG_INTEGER (bn_i2c a).

Fixpoint encode_integers (xs : list Z) : option (list byte) :=
  match xs with
  | [] => Some []
  | x :: xs' =>
      do h <- encode_integer x;
      do t <- encode_integers xs';
      Some (h ++ t)
  end.

Definition encode_sequence (xs : list Z) : option (list byte) :=
  do content <- encode_integers xs;
  encode_tlv TAG_SEQUENCE content.

(** The first [n] bytes and the rest, when there are [n] bytes. *)
Definition take (n : Z) (bs : list byte) : option (list byte * list byte) :=
  if (n <? 0) || (Z.of_nat (length bs) <? n) then None
  else Some (firstn (Z.to_nat n) bs, skipn (Z.to_nat n) bs).

(** A definite length, in the short or in the long form; the long form may
    carry leading zero bytes. The byte [0x80] of the indefinite form is not
    a definite length. *)
Definition decode_length (bs : list byte) : option (Z * list byte) :=
  match bs with
  | [] => None
  | b :: rest =>
      if u8 b <? 128 then Some (u8 b, rest)
      else
        let k := u8 b - 128 in
        if k =? 0 then None
        else
          do ' (l, rest') <- take k rest;
          Some (BN.of_bytes l, rest')
  end.

(** A value in the definite form: its contents and what follows it. *)
Definition decode_tlv (tag : byte) (bs : list byte)
  : option (list byte * list byte) :=
  match bs with
  | [] => None
  | t :: bs' =>
      if Byte.eqb t tag then
        do ' (n, rest) <- decode_length bs';
        take n rest
      else None
  end.

(** [bn_c2i]: the contents of a [BIGNUM] INTEGER go to [BN_bin2bn], which
    reads them as a magnitude whatever their first bit. *)
Definition bn_c2i (content : list byte) : Z := BN.of_bytes content.

Definition decode_integer (bs : list byte) : option (Z * list byte) :=
  do ' (content, rest) <- decode_tlv TAG_INTEGER bs;
  Some (bn_c2i content, rest).

Fixpoint decode_integers (k : nat) (bs : list byte)
  : option (list Z * list byte) :=
  match k with
  | O => Some ([], bs)
  | S k' =>
      do ' (a, rest) <- decode_integer bs;
      do ' (xs, rest') <- decode_integers k' rest;
      Some (a :: xs, rest')
  end.

(** The value of contents octets in two's complement. *)
Definition signed_value (content : list byte) : Z :=
  match content with
  | [] => 0
  | b :: _ =>
      if u8 b <? 128 then BN.of_bytes content
      else BN.of_bytes content - 256 ^ Z.of_nat (length content)
  end.

(** A first byte that the second makes redundant. *)
Definition redundant_first_byte (content : list byte) : bool :=
  match content with
  | b0 :: b1 :: _ =>
      ((u8 b0 =? 0) && (u8 b1 <? 128)) || ((u8 b0 =? 255) && (128 <=? u8 b1))
  | _ => false
  end.

(** The contents of a 32-bit INTEGER field: a redundant first byte and a
    value outside 32 bits are refused; contents of no byte are read as 0,
    which older encoders wrote. *)
Definition int32_c2i (content : list byte) : option Z :=
  match content with
  | [] => Some 0
  | _ :: _ =>
      if redundant_first_byte content then None
      else
        let v := signed_value content in
        if (v <? - 2 ^ 31) || (2 ^ 31 - 1 <? v) then None else Some v
  end.

Definition decode_int32 (bs : list byte) : option (Z * list byte) :=
  do ' (content, rest) <- decode_tlv TAG_INTEGER bs;
  do v <- int32_c2i content;
  Some (v, rest).

(** The end-of-contents octets that close the indefinite form. *)
Definition check_eoc (bs : list byte) : option (list byte) :=
  match bs with
  | b0 :: b1 :: rest =>
      if (u8 b0 =? 0) && (u8 b1 =? 0) then Some rest else None
  | _ => None
  end.

(** A SEQUENCE whose fields [fields] reads. In the definite form the fields
    use up the contents; in the indefinite form, [0x30 0x80], they are read
    from what follows and are closed by the end-of-contents octets. *)
Definition decode_sequence {A : Type}
    (fields : list byte -> option (A * list byte)) (bs : list byte)
  : option (A * list byte) :=
  match bs with
  | t :: l :: body =>
      if negb (Byte.eqb t TAG_SEQUENCE) then None
      else if u8 l =? 128 then
        do ' (a, r) <- fields body;
        do rest <- check_eoc r;
        Some (a, rest)
      else
        do ' (content, rest) <- decode_tlv TAG_SEQUENCE bs;
        do ' (a, remainder) <- fields content;
        match remainder with
        | [] => Some (a, rest)
        | _ :: _ => None
        end
  | _ => None
  end.

(** The items of a SEQUENCE OF in the definite form, read until the
    contents are used up. An item takes at least two bytes, so that [fuel],
    the number of bytes, does not run out. *)
Fixpoint decode_items {A : Type}
    (item : list byte -> option (A * list byte)) (fuel : nat)
    (bs : list byte) : option (list A) :=
  match bs with
  | [] => Some []
  | _ :: _ =>
      match fuel with
      | O => None
      | S fuel' =>
          do ' (a, rest) <- item bs;
          do xs <- decode_items item fuel' rest;
          Some (a :: xs)
      end
  end.

(** The items of a SEQUENCE OF in the indefinite form, read until the
    end-of-contents octets. *)
Fixpoint decode_items_eoc {A : Type}
    (item : list byte -> option (A * list byte)) (fuel : nat)
    (bs : list byte) : option (list A * list byte) :=
  match check_eoc bs with
  | Some rest => Some ([], rest)
  | None =>
      match fuel with
      | O => None
      | S fuel' =>
          do ' (a, r) <- item bs;
          do ' (xs, rest) <- decode_items_eoc item fuel' r;
          Some (a :: xs, rest)
      end
  end.

Definition decode_sequence_of {A : Type}
    (item : list byte -> option (A * list byte)) (bs : list byte)
  : option (list A * list byte) :=
  match bs with
  | t :: l :: body =>
      if negb (Byte.eqb t TAG_SEQUENCE) then None
      else if u8 l =? 128 then decode_items_eoc item (length body) body
      else
        do ' (content, rest) <- decode_tlv TAG_SEQUENCE bs;
        do xs <- decode_items item (length content) content;
        Some (xs, rest)
  | _ => None
  end.

(** A further prime: a SEQUENCE of the numbers r, d, t. *)
Definition decode_prime_info (bs : list byte) : option (list Z * list byte) :=
  decode_sequence (decode_integers 3) bs.

(** The optional last field of RSAPrivateKey. The field is absent when the
    fields before it have used up the input or when the end-of-contents
    octets come next; otherwise the list of the further primes must be
    there. *)
Definition decode_prime_infos (bs : list byte)
  : option (option (list (list Z)) * list byte) :=
  match bs with
  | [] => Some (None, [])
  | _ :: _ =>
      match check_eoc bs with
      | Some _ => Some (None, bs)
      | None =>
          do ' (infos, rest) <- decode_sequence_of decode_prime_info bs;
          Some (Some infos, rest)
      end
  end.

(** The fields of RSAPrivateKey: the version, eight numbers and the
    further primes. *)
Definition private_key_fields (bs : list byte)
  : option ((Z * list Z * option (list (list Z))) * list byte) :=
  do ' (version, rest) <- decode_int32 bs;
  do ' (xs, rest') <- decode_integers 8 rest;
  do ' (infos, rest'') <- decode_prime_infos rest';
  Some ((version, xs, infos), rest'').

(** The fields of RSAPublicKey: two numbers. *)
Definition public_key_fields (bs : list byte)
  : option (list Z * list byte) :=
  decode_integers 2 bs.

End ASN1.

(** The version that announces further primes. *)
Definition RSA_ASN1_VERSION_MULTI : Z := 1.

(** Whether the structure lists at least one further prime. *)
Definition has_primes (infos : option (list (list Z))) : bool :=
  match infos with
  | Some (_ :: _) => true
  | _ => false
  end.

Definition i2d_RSAPrivateKey (r : RSA) : option (list byte) :=
  do n <- rsa_n r;
  do e <- rsa_e r;
  do d <- rsa_d r;
  do p <- rsa_p r;
  do q <- rsa_q r;
  do dp <- rsa_dmp1 r;
  do dq <- rsa_dmq1 r;
  do qi <- rsa_iqmp r;
  ASN1.encode_sequence [0; n; e; d; p; q; dp; dq; qi].

Definition i2d_RSAPublicKey (r : RSA) : option (list byte) :=
  do n <- rsa_n r;
  do e <- rsa_e r;
  ASN1.encode_sequence [n; e].

(** [d2i_RSAPrivateKey (&priv_r, &p, raw_len)] on a null [priv_r]: the
    object and the bytes from the new [p] on. A key of version 1 has to list
    a further prime. *)
Definition d2i_RSAPrivateKey (bs : list byte) : option (RSA * list byte) :=
  do ' ((version, xs, infos), rest) <-
    ASN1.decode_sequence ASN1.private_key_fields bs;
  if (version =? RSA_ASN1_VERSION_MULTI) && negb (has_primes infos) then None
  else
    match xs with
    | [n; e; d; p; q; dp; dq; qi] =>
        Some (mk_RSA (Some n) (Some e) (Some d) (Some p) (Some q)
                (Some dp) (Some dq) (Some qi), rest)
    | _ => None
    end.

Definition d2i_RSAPublicKey (bs : list byte) : option (RSA * list byte) :=
  do ' (xs, rest) <- ASN1.decode_sequence ASN1.public_key_fields bs;
  match xs with
  | [n; e] =>
      Some (mk_RSA (Some n) (Some e) None None None None None None, rest)
  | _ => None
  end.

(** ** Serialization Layer *)

(** [bcrypto_rsa_privkey_export]: [None] is the return value [false],
    [Some buf] is [true] with [*out = buf] and [*out_len] its length. *)
Definition bcrypto_rsa_privkey_export (priv : option bcrypto_rsa_key_t)
  : option (list byte) :=
  if negb (bcrypto_rsa_sane_privkey priv) then None
  else
    do priv_r <- bcrypto_rsa_key2priv priv;
    do buf <- i2d_RSAPrivateKey priv_r;
    if Z.of_nat (length buf) <=? 0 then None else Some buf.

(** [bcrypto_rsa_privkey_import]: [raw] points to [raw_len] bytes; the
    position [p] that the decoder leaves behind is not looked at. *)
Definition bcrypto_rsa_privkey_import (raw : list byte)
  : option bcrypto_rsa_key_t :=
  match d2i_RSAPrivateKey raw with
  | None => None
  | Some (priv_r, p) => bcrypto_rsa_priv2key (Some priv_r)
  end.

Definition bcrypto_rsa_pubkey_verify (pub : option bcrypto_rsa_key_t) : bool :=
  bcrypto_rsa_sane_pubkey pub.

Definition bcrypto_rsa_pubkey_export (pub : option bcrypto_rsa_key_t)
  : option (list byte) :=
  if negb (bcrypto_rsa_sane_pubkey pub) then None
  else
    do pub_r <- bcrypto_rsa_key2pub pub;
    do buf <- i2d_RSAPublicKey pub_r;
    if Z.of_nat (length buf) <=? 0 then None else Some buf.

Definition bcrypto_rsa_pubkey_import (raw : list byte)
  : option bcrypto_rsa_key_t :=
  match d2i_RSAPublicKey raw with
  | None => None
  | Some (pub_r, p) => bcrypto_rsa_pub2key (Some pub_r)
  end.

(** A key with every buffer rewritten in normal form. *)
Definition normalize_key (key : bcrypto_rsa_key_t) : bcrypto_rsa_key_t :=
  {| nd := normalize (nd key); ed := normalize (ed key);
     dd := normalize (dd key); pd := normalize (pd key);
     qd := normalize (qd key); dpd := normalize (dpd key);
     dqd := normalize (dqd key); qid := normalize (qid key) |}.

(** ** Cryptographic Operations Facade *)

(** Digest identifiers of openssl/obj_mac.h. *)
Definition NID_md5 : Z := 4.
Definition NID_sha1 : Z := 64.
Definition NID_ripemd160 : Z := 117.
Definition NID_sha256 : Z := 672.
Definition NID_sha384 : Z := 673.
Definition NID_sha512 : Z := 674.
Definition NID_sha224 : Z := 675.

(** Padding modes of openssl/rsa.h. *)
Definition RSA_PKCS1_PADDING : Z := 1.
Definition RSA_PKCS1_OAEP_PADDING : Z := 4.

(** [strcmp (alg, name) == 0]. *)
Definition strcmp0 (alg name : string) : bool := String.eqb alg name.

Definition bcrypto_rsa_type (alg : option string) : Z :=
  match alg with
  | None => -1
  | Some alg =>
      if strcmp0 alg "md5" then NID_md5
      else if strcmp0 alg "ripemd160" then NID_ripemd160
      else if strcmp0 alg "sha1" then NID_sha1
      else if strcmp0 alg "sha224" then NID_sha224
      else if strcmp0 alg "sha256" then NID_sha256
      else if strcmp0 alg "sha384" then NID_sha384
      else if strcmp0 alg "sha512" then NID_sha512
      else -1
  end.

(** The names [bcrypto_rsa_type] knows. *)
Definition supported_algorithms : list string :=
  ["md5"; "ripemd160"; "sha1"; "sha224"; "sha256"; "sha384"; "sha512"]%string.

Definition is_null (buf : option (list byte)) : bool :=
  match buf with
  | None => true
  | Some _ => false
  end.

(** The bytes behind a pointer that was checked to be non-null. *)
Definition bytes (buf : option (list byte)) : list byte :=
  match buf with
  | None => []
  | Some bs => bs
  end.

(** [RSA_size]: the number of bytes of the modulus. *)
Definition RSA_size (r : RSA) : Z :=
  match rsa_n r with
  | Some n => BN.num_bytes n
  | None => 0
  end.

Section Facade.

(** The primitives of OpenSSL that do the cryptography; the facade only
    looks at whether they succeed. A failure is [false], [None] or a
    non-positive status. *)
Variable RSA_verify : Z -> list byte -> list byte -> RSA -> bool.
Variable RSA_sign : Z -> list byte -> RSA -> option (list byte).
Variable RSA_blinding_on : RSA -> bool.
Variable RSA_public_encrypt : Z -> list byte -> RSA -> Z -> option (list byte).
Variable RSA_private_decrypt : Z -> list byte -> RSA -> Z -> option (list byte).
Variable RSA_check_key : RSA -> Z.
Variable RSA_generate_key_ex : Z -> Z -> option RSA.

(** [bits] is an [int] and [exp] an [unsigned long long]; an exponent that
    passes the tests fits the word that [BN_set_word] takes. *)
Definition bcrypto_rsa_privkey_generate (bits exp : Z)
  : option bcrypto_rsa_key_t :=
  if (bits <? 512) || (bits >? 16384) then None
  else if (exp <? 3) || (exp >? 0x1ffffffff) then None
  else if Z.land exp 1 =? 0 then None
  else
    do priv_r <- RSA_generate_key_ex bits exp;
    bcrypto_rsa_priv2key (Some priv_r).

Definition bcrypto_rsa_privkey_verify (priv : option bcrypto_rsa_key_t)
  : bool :=
  if negb (bcrypto_rsa_sane_privkey priv) then false
  else
    match bcrypto_rsa_key2priv priv with
    | None => false
    | Some priv_r => if RSA_check_key priv_r <=? 0 then false else true
    end.

(** [None] is the return value [false]; [Some sig] is [true] with
    [*sig] and [*sig_len] set. *)
Definition bcrypto_rsa_sign (alg : option string) (msg : option (list byte))
    (priv : option bcrypto_rsa_key_t) : option (list byte) :=
  let type := bcrypto_rsa_type alg in
  if type =? -1 then None
  else if is_null msg || (len msg <? 1) || (len msg >? 64) then None
  else if negb (bcrypto_rsa_sane_privkey priv) then None
  else
    do priv_r <- bcrypto_rsa_key2priv priv;
    if negb (RSA_blinding_on priv_r) then None
    else RSA_sign type (bytes msg) priv_r.

Definition bcrypto_rsa_verify (alg : option string)
    (msg sig : option (list byte)) (pub : option bcrypto_rsa_key_t)
  : bool :=
  let type := bcrypto_rsa_type alg in
  if type =? -1 then false
  else if is_null msg || (len msg <? 1) || (len msg >? 64) then false
  else if is_null sig || (len sig <? 1) || (len sig >? 3072) then false
  else if negb (bcrypto_rsa_sane_pubkey pub) then false
  else
    match bcrypto_rsa_key2pub pub with
    | None => false
    | Some pub_r =>
        if negb (RSA_verify type (bytes msg) (bytes sig) pub_r) then false
        else true
    end.

Definition bcrypto_rsa_encrypt (type : Z) (msg : option (list byte))
    (pub : option bcrypto_rsa_key_t) : option (list byte) :=
  if (type <? 0) || (type >? 1) then None
  else if is_null msg || (len msg <? 1) then None
  else if negb (bcrypto_rsa_sane_pubkey pub) then None
  else
    do pub_r <- bcrypto_rsa_key2pub pub;
    let padding :=
      if type =? 0 then RSA_PKCS1_PADDING else RSA_PKCS1_OAEP_PADDING in
    let max :=
      if type =? 0 then RSA_size pub_r - 11 else RSA_size pub_r - 41 in
    if (max <? 0) || (len msg >? max) then None
    else RSA_public_encrypt (to_int (len msg)) (bytes msg) pub_r padding.

Definition bcrypto_rsa_decrypt (type : Z) (msg : option (list byte))
    (priv : option bcrypto_rsa_key_t) : option (list byte) :=
  if (type <? 0) || (type >? 1) then None
  else if is_null msg || (len msg <? 1) then None
  else if negb (bcrypto_rsa_sane_privkey priv) then None
  else
    do priv_r <- bcrypto_rsa_key2priv priv;
    let padding :=
      if type =? 0 then RSA_PKCS1_PADDING else RSA_PKCS1_OAEP_PADDING in
    if negb (RSA_blinding_on priv_r) then None
    else RSA_private_decrypt (to_int (len msg)) (bytes msg) priv_r padding.

End Facade.

(** The OpenSSL object that [bcrypto_rsa_key2pub] builds: n and e only. *)
Definition public_object (key : bcrypto_rsa_key_t) : RSA :=
  mk_RSA (Some (BN.bin2bn (nd key))) (Some (BN.bin2bn (ed key)))
    None None None None None None.

(** The OpenSSL object that [bcrypto_rsa_key2priv] builds. *)
Definition private_object (key : bcrypto_rsa_key_t) : RSA :=
  mk_RSA (Some (BN.bin2bn (nd key))) (Some (BN.bin2bn (ed key)))
    (Some (BN.bin2bn (dd key))) (Some (BN.bin2bn (pd key)))
    (Some (BN.bin2bn (qd key))) (Some (BN.bin2bn (dpd key)))
    (Some (BN.bin2bn (dqd key))) (Some (BN.bin2bn (qid key))).

(** ** The arena of [bcrypto_rsa_priv2key]

    The function allocates [size = kl + nl + el + dl + pl + ql + dpl + dql +
    qil] bytes, [kl] being [sizeof (bcrypto_rsa_key_t)], puts the key
    structure at offset 0 and walks a cursor [pos] over the rest: each field
    gets the pointer [&arena[pos]] and its length, then [pos] moves on by
    that length. The lengths are [int] results of [BN_num_bytes], so the
    sum stays far inside the range of [size_t]. *)

(** The steps [key->xd = &arena[pos]; key->xl = xl; pos += xl] for the
    fields in turn: the regions (offset, length) and the final cursor. *)
Fixpoint place (pos : Z) (fields : list (list byte))
  : list (Z * Z) * Z :=
  match fields with
  | [] => ([], pos)
  | f :: fields' =>
      let xl := Z.of_nat (length f) in
      let rest := place (pos + xl) fields' in
      ((pos, xl) :: fst rest, snd rest)
  end.

(** The bytes of an allocation from offset [off] on, [n] of them. *)
Definition slice (arena : list byte) (off n : Z) : list byte :=
  firstn (Z.to_nat n) (skipn (Z.to_nat off) arena).

(** Regions that follow one another from [start] to [stop] without gap or
    overlap. *)
Fixpoint consecutive (start : Z) (regions : list (Z * Z)) (stop : Z) : Prop :=
  match regions with
  | [] => start = stop
  | (off, n) :: regions' =>
      off = start /\ 0 <= n /\ consecutive (off + n) regions' stop
  end.

(** [bcrypto_rsa_priv2key] with its memory: [header] is the [kl] bytes of
    the key structure; the result is the allocation once [BN_bn2bin] has
    filled the eight regions, the allocated [size], and the regions in the
    order n, e, d, p, q, dp, dq, qInv. *)
Definition bcrypto_rsa_priv2key_arena (header : list byte)
    (priv_r : option RSA) : option (list byte * Z * list (Z * Z)) :=
  do priv_r <- priv_r;
  do n <- rsa_n priv_r;
  do e <- rsa_e priv_r;
  do d <- rsa_d priv_r;
  do p <- rsa_p priv_r;
  do q <- rsa_q priv_r;
  do dp <- rsa_dmp1 priv_r;
  do dq <- rsa_dmq1 priv_r;
  do qi <- rsa_iqmp priv_r;
  let nl := BN.num_bytes n in
  let el := BN.num_bytes e in
  let dl := BN.num_bytes d in
  let pl := BN.num_bytes p in
  let ql := BN.num_bytes q in
  let dpl := BN.num_bytes dp in
  let dql := BN.num_bytes dq in
  let qil := BN.num_bytes qi in
  let kl := Z.of_nat (length header) in
  let size := kl + nl + el + dl + pl + ql + dpl + dql + qil in
  let fields := map BN.bn2bin [n; e; d; p; q; dp; dq; qi] in
  Some (header ++ concat fields, size, fst (place kl fields)).

(** ** Test vectors *)

(** A buffer of [n] bytes whose first byte is [hi] and whose other bytes are
    zero. *)
Definition padded (hi : byte) (n : nat) : option (list byte) :=
  Some (hi :: repeat x00 (n - 1)).

(** A key with the shape of a 512-bit private key: 512-bit modulus, two
    256-bit factors, exponent 65537. The validators look at bit lengths and
    at the parity of the exponent only. *)
Definition key512 : bcrypto_rsa_key_t :=
  {| nd := padded x80 64; ed := Some [x01; x00; x01]; dd := Some [x01];
     pd := padded x80 32; qd := padded x80 32;
     dpd := Some [x01]; dqd := Some [x01]; qid := Some [x01] |}.

(** The same with a 511-bit and with a 16385-bit modulus. *)
Definition key511 : bcrypto_rsa_key_t :=
  {| nd := padded x40 64; ed := ed key512; dd := dd key512;
     pd := pd key512; qd := qd key512;
     dpd := dpd key512; dqd := dqd key512; qid := qid key512 |}.

Definition key16385 : bcrypto_rsa_key_t :=
  {| nd := padded x01 2049; ed := ed key512; dd := dd key512;
     pd := pd key512; qd := qd key512;
     dpd := dpd key512; dqd := dqd key512; qid := qid key512 |}.

(** The 512-bit key with the even exponent 65536. *)
Definition key_even : bcrypto_rsa_key_t :=
  {| nd := nd key512; ed := Some [x01; x00; x00]; dd := dd key512;
     pd := pd key512; qd := qd key512;
     dpd := dpd key512; dqd := dqd key512; qid := qid key512 |}.

(** A partial key over the primes 11 and 13 with e = 7 and d = 103, a CRT
    exponent [dp] = 5 that the caller supplies and no [n], [dq], [qInv]. *)
Definition key_small : bcrypto_rsa_key_t :=
  {| nd := None; ed := Some [x07]; dd := Some [x67];
     pd := Some [x0b]; qd := Some [x0d];
     dpd := Some [x05]; dqd := None; qid := None |}.

(** The primes 11 and 13 with the exponent 7 and nothing else. *)
Definition key_pqe : bcrypto_rsa_key_t :=
  {| nd := None; ed := Some [x07]; dd := None;
     pd := Some [x0b]; qd := Some [x0d];
     dpd := None; dqd := None; qid := None |}.

(** What completion returns for [key_small] and for [key_pqe]. *)
Definition key_143 : bcrypto_rsa_key_t :=
  {| nd := Some [x8f]; ed := Some [x07]; dd := Some [x67];
     pd := Some [x0b]; qd := Some [x0d];
     dpd := Some [x03]; dqd := Some [x07]; qid := Some [x06] |}.

(** The 512-bit key with its exponent written on four bytes, the first of
    them zero. *)
Definition key_padded : bcrypto_rsa_key_t :=
  {| nd := nd key512; ed := Some [x00; x01; x00; x01]; dd := dd key512;
     pd := pd key512; qd := qd key512;
     dpd := dpd key512; dqd := dqd key512; qid := qid key512 |}.

(** The DER encoding of the private key n = 15, e = 2, d = 1, p = 3, q = 5,
    dp = dq = qInv = 1, and of the public key n = 15, e = 2. *)
Definition der_tiny_priv : list byte :=
  [x30; x1b; x02; x01; x00; x02; x01; x0f; x02; x01; x02; x02; x01; x01;
   x02; x01; x03; x02; x01; x05; x02; x01; x01; x02; x01; x01; x02; x01; x01].

Definition der_tiny_pub : list byte :=
  [x30; x06; x02; x01; x0f; x02; x01; x02].

Definition key_tiny : bcrypto_rsa_key_t :=
  {| nd := Some [x0f]; ed := Some [x02]; dd := Some [x01];
     pd := Some [x03]; qd := Some [x05];
     dpd := Some [x01]; dqd := Some [x01]; qid := Some [x01] |}.

Definition key_tiny_pub : bcrypto_rsa_key_t :=
  {| nd := Some [x0f]; ed := Some [x02]; dd := None;
     pd := None; qd := None; dpd := None; dqd := None; qid := None |}.

(** [der_tiny_priv] in the indefinite form: [30 80], the nine INTEGERs and
    the two end-of-contents octets. *)
Definition der_tiny_indefinite : list byte :=
  [x30; x80; x02; x01; x00; x02; x01; x0f; x02; x01; x02; x02; x01; x01;
   x02; x01; x03; x02; x01; x05; x02; x01; x01; x02; x01; x01; x02; x01; x01;
   x00; x00].

(** [der_tiny_priv] with the version 1, and with the version 0 written on
    two bytes. *)
Definition der_tiny_version1 : list byte :=
  [x30; x1b; x02; x01; x01; x02; x01; x0f; x02; x01; x02; x02; x01; x01;
   x02; x01; x03; x02; x01; x05; x02; x01; x01; x02; x01; x01; x02; x01; x01].

Definition der_tiny_long_version : list byte :=
  [x30; x1c; x02; x02; x00; x00; x02; x01; x0f; x02; x01; x02; x02; x01; x01;
   x02; x01; x03; x02; x01; x05; x02; x01; x01; x02; x01; x01; x02; x01; x01].

(** [der_tiny_priv] with the contents [ff] for the modulus: in DER the
    INTEGER -1. The key that import makes of it has the modulus 255. *)
Definition der_negative_n : list byte :=
  [x30; x1b; x02; x01; x00; x02; x01; xff; x02; x01; x02; x02; x01; x01;
   x02; x01; x03; x02; x01; x05; x02; x01; x01; x02; x01; x01; x02; x01; x01].

Definition key_255 : bcrypto_rsa_key_t :=
  {| nd := Some [xff]; ed := Some [x02]; dd := Some [x01];
     pd := Some [x03]; qd := Some [x05];
     dpd := Some [x01]; dqd := Some [x01]; qid := Some [x01] |}.

(** * Properties *)

(** ** Bytes and big-endian integers *)

Lemma u8_range (b : byte) : 0 <= u8 b < 256.
Proof.
  unfold u8. pose proof (Byte.to_N_bounded b). lia.
Qed.

Lemma u8_to_u8 (z : Z) : u8 (to_u8 z) = z mod 256.
Proof.
  unfold to_u8, u8.
  assert (Hr : 0 <= z mod 256 < 256) by (apply Z.mod_pos_bound; lia).
  destruct (Byte.of_N (Z.to_N (z mod 256))) as [b|] eqn:E.
  - apply Byte.to_of_N in E. rewrite E. lia.
  - apply Byte.of_N_None_iff in E. lia.
Qed.

Lemma to_u8_u8 (b : byte) : to_u8 (u8 b) = b.
Proof.
  unfold to_u8, u8. pose proof (Byte.to_N_bounded b).
  rewrite Z.mod_small by lia. rewrite N2Z.id, Byte.of_to_N. reflexivity.
Qed.

Lemma u8_inj (a b : byte) : u8 a = u8 b -> a = b.
Proof.
  intros H. rewrite <- (to_u8_u8 a), <- (to_u8_u8 b), H. reflexivity.
Qed.

Lemma u8_zero_iff (b : byte) : u8 b = 0 <-> b = x00.
Proof.
  split; intros H.
  - apply u8_inj. rewrite H. reflexivity.
  - subst. reflexivity.
Qed.

Module BNFacts.
Import BN.

Lemma fold_shift (bs : list byte) (acc : Z) :
  fold_left (fun a b => a * 256 + u8 b) bs acc
  = acc * 256 ^ Z.of_nat (length bs) + of_bytes bs.
Proof.
  unfold of_bytes. revert acc.
  induction bs as [|b bs IH]; intros acc; cbn [fold_left length].
  - rewrite Z.pow_0_r. lia.
  - rewrite IH, (IH (0 * 256 + u8 b)).
    rewrite Nat2Z.inj_succ, Z.pow_succ_r by lia. ring.
Qed.

Lemma of_bytes_cons (b : byte) (bs : list byte) :
  of_bytes (b :: bs) = u8 b * 256 ^ Z.of_nat (length bs) + of_bytes bs.
Proof.
  unfold of_bytes at 1. cbn [fold_left]. rewrite fold_shift. ring.
Qed.

Lemma of_bytes_app (xs ys : list byte) :
  of_bytes (xs ++ ys)
  = of_bytes xs * 256 ^ Z.of_nat (length ys) + of_bytes ys.
Proof.
  unfold of_bytes at 1. rewrite fold_left_app. apply fold_shift.
Qed.

Lemma of_bytes_range (bs : list byte) :
  0 <= of_bytes bs < 256 ^ Z.of_nat (length bs).
Proof.
  induction bs as [|b bs IH].
  - cbn. lia.
  - rewrite of_bytes_cons. cbn [length].
    rewrite Nat2Z.inj_succ, Z.pow_succ_r by lia.
    pose proof (u8_range b). nia.
Qed.

Lemma of_bytes_strip (bs : list byte) :
  of_bytes (strip_zeros bs) = of_bytes bs.
Proof.
  induction bs as [|b bs IH]; [reflexivity|].
  cbn [strip_zeros]. destruct (u8 b =? 0) eqn:E; [|reflexivity].
  apply Z.eqb_eq in E. rewrite IH, of_bytes_cons, E. lia.
Qed.

Lemma length_be_bytes (n : nat) (a : Z) : length (be_bytes n a) = n.
Proof.
  revert a. induction n as [|n IH]; intros a; cbn [be_bytes]; [reflexivity|].
  rewrite length_app, IH. cbn. lia.
Qed.

Lemma of_bytes_be_bytes (n : nat) (a : Z) :
  of_bytes (be_bytes n a) = a mod 256 ^ Z.of_nat n.
Proof.
  revert a. induction n as [|n IH]; intros a; cbn [be_bytes].
  - cbn. rewrite Z.mod_1_r. reflexivity.
  - rewrite of_bytes_app, IH. cbn [length].
    change (of_bytes [to_u8 a]) with (0 * 256 + u8 (to_u8 a)).
    change (Z.of_nat 1) with 1. rewrite Z.pow_1_r.
    rewrite u8_to_u8, Nat2Z.inj_succ, Z.pow_succ_r by lia.
    rewrite Z.rem_mul_r by lia. lia.
Qed.

Lemma be_bytes_of_bytes (bs : list byte) :
  be_bytes (length bs) (of_bytes bs) = bs.
Proof.
  induction bs as [|b bs IH] using rev_ind; [reflexivity|].
  rewrite length_app. cbn [length]. rewrite Nat.add_1_r. cbn [be_bytes].
  rewrite of_bytes_app. cbn [length].
  change (of_bytes [b]) with (0 * 256 + u8 b).
  change (Z.of_nat 1) with 1. rewrite Z.pow_1_r.
  pose proof (u8_range b) as Hb.
  replace ((of_bytes bs * 256 + (0 * 256 + u8 b)) / 256) with (of_bytes bs)
    by (apply Z.div_unique with (r := u8 b); lia).
  rewrite IH. f_equal. f_equal.
  apply u8_inj. rewrite u8_to_u8.
  symmetry. apply Z.mod_unique with (q := of_bytes bs); lia.
Qed.

Lemma num_bits_nonneg (a : Z) : 0 <= num_bits a.
Proof.
  unfold num_bits. destruct (a =? 0); [lia|].
  pose proof (Z.log2_nonneg (Z.abs a)). lia.
Qed.

Lemma num_bits_zero_iff (a : Z) : num_bits a = 0 <-> a = 0.
Proof.
  unfold num_bits. destruct (a =? 0) eqn:E.
  - apply Z.eqb_eq in E. tauto.
  - apply Z.eqb_neq in E. pose proof (Z.log2_nonneg (Z.abs a)). lia.
Qed.

Lemma num_bits_bound (a : Z) : Z.abs a < 2 ^ num_bits a.
Proof.
  unfold num_bits. destruct (a =? 0) eqn:E.
  - apply Z.eqb_eq in E. subst. cbn. lia.
  - apply Z.eqb_neq in E.
    apply Z.log2_spec. lia.
Qed.

Lemma num_bytes_bound (a : Z) : Z.abs a < 256 ^ Z.of_nat (Z.to_nat (num_bytes a)).
Proof.
  pose proof (num_bits_nonneg a) as Hn. pose proof (num_bits_bound a) as Hb.
  unfold num_bytes.
  assert (H8 : 0 <= (num_bits a + 7) / 8) by (apply Z.div_pos; lia).
  rewrite Z2Nat.id by exact H8.
  change 256 with (2 ^ 8). rewrite <- Z.pow_mul_r by lia.
  eapply Z.lt_le_trans; [exact Hb|].
  apply Z.pow_le_mono_r; [lia|].
  pose proof (Z.mul_div_le (num_bits a + 7) 8 ltac:(lia)).
  pose proof (Z.mod_pos_bound (num_bits a + 7) 8 ltac:(lia)).
  pose proof (Z.div_mod (num_bits a + 7) 8 ltac:(lia)). lia.
Qed.

(** Reading back what [BN_bn2bin] wrote gives the magnitude. *)
Lemma of_bytes_bn2bin (a : Z) : of_bytes (bn2bin a) = Z.abs a.
Proof.
  unfold bn2bin. rewrite of_bytes_be_bytes.
  apply Z.mod_small. pose proof (num_bytes_bound a). lia.
Qed.

Lemma length_bn2bin (a : Z) : Z.of_nat (length (bn2bin a)) = num_bytes a.
Proof.
  unfold bn2bin. rewrite length_be_bytes. apply Z2Nat.id.
  unfold num_bytes. apply Z.div_pos; [|lia].
  pose proof (num_bits_nonneg a). lia.
Qed.

End BNFacts.

Section Inverse.

(** What a successful [BN_mod_inverse] returns. *)
Lemma mod_inverse_spec (a n x : Z) :
  BN.mod_inverse a n = Some x ->
  1 < Z.abs n /\ 0 <= x < Z.abs n /\ (a * x) mod Z.abs n = 1.
Proof.
  unfold BN.mod_inverse.
  destruct (Z.leb_spec (Z.abs n) 1) as [|Hn]; [discriminate|].
  destruct (Z.eqb_spec (Z.gcd a (Z.abs n)) 1) as [Hg|]; [|discriminate].
  intros H. injection H as <-.
  split; [exact Hn|]. split.
  - rewrite <- Z.mod_invmod. apply Z.mod_pos_bound. lia.
  - rewrite Z.mul_comm. apply Z.invmod_coprime; [lia|exact Hg].
Qed.

(** [BN_mod] of a non-negative number by a positive one is the usual
    remainder. *)
Lemma mod_spec (m d x : Z) :
  0 <= m -> 0 <= d -> BN.mod_ m d = Some x -> 0 < d /\ x = m mod d.
Proof.
  unfold BN.mod_. intros Hm Hd.
  destruct (Z.eqb_spec d 0); [discriminate|].
  intros H. injection H as <-.
  split; [lia|]. apply Z.rem_mod_nonneg; lia.
Qed.

End Inverse.

(** ** Bit length *)

Section CountBits.

Lemma length_strip_le (bs : list byte) :
  (length (strip_zeros bs) <= length bs)%nat.
Proof.
  induction bs as [|b bs IH]; cbn [strip_zeros]; [lia|].
  destruct (u8 b =? 0); cbn [length]; lia.
Qed.

Lemma strip_head_nonzero (bs : list byte) (b : byte) (t : list byte) :
  strip_zeros bs = b :: t -> u8 b <> 0.
Proof.
  induction bs as [|c bs IH]; cbn [strip_zeros]; [discriminate|].
  destruct (u8 c =? 0) eqn:E; [exact IH|].
  intros H. injection H as -> _. apply Z.eqb_neq. exact E.
Qed.

Lemma strip_idem (bs : list byte) : strip_zeros (strip_zeros bs) = strip_zeros bs.
Proof.
  induction bs as [|b bs IH]; cbn [strip_zeros]; [reflexivity|].
  destruct (u8 b =? 0) eqn:E; [exact IH|].
  cbn [strip_zeros]. rewrite E. reflexivity.
Qed.

(** The scan stops at the first significant byte. *)
Lemma skip_zero_bytes_spec (bs : list byte) (i : Z) :
  skip_zero_bytes bs i
  = i + (Z.of_nat (length bs) - Z.of_nat (length (strip_zeros bs))).
Proof.
  revert i. induction bs as [|b bs IH]; intros i;
    cbn [skip_zero_bytes strip_zeros length]; [lia|].
  destruct (u8 b =? 0); [rewrite IH|]; cbn [length]; lia.
Qed.

Lemma nth_error_strip (bs : list byte) :
  nth_error bs (length bs - length (strip_zeros bs))
  = hd_error (strip_zeros bs).
Proof.
  induction bs as [|b bs IH]; cbn [strip_zeros]; [reflexivity|].
  destruct (u8 b =? 0).
  - pose proof (length_strip_le bs).
    cbn [length].
    replace (S (length bs) - length (strip_zeros bs))%nat
      with (S (length bs - length (strip_zeros bs)))%nat by lia.
    exact IH.
  - rewrite Nat.sub_diag. reflexivity.
Qed.

Lemma count_oct_spec (fuel : nat) (oct bits : Z) :
  0 <= oct < 2 ^ Z.of_nat fuel ->
  count_oct fuel oct bits = bits + BN.num_bits oct.
Proof.
  revert oct bits. induction fuel as [|fuel IH]; intros oct bits Hr.
  - cbn in Hr. assert (oct = 0) by lia. subst. cbn. lia.
  - cbn [count_oct]. unfold BN.num_bits.
    destruct (oct =? 0) eqn:E; [lia|]. apply Z.eqb_neq in E.
    rewrite Nat2Z.inj_succ, Z.pow_succ_r in Hr by lia.
    rewrite IH.
    + unfold BN.num_bits. rewrite Z.shiftr_div_pow2 by lia.
      change (2 ^ 1) with 2.
      destruct (oct / 2 =? 0) eqn:E2.
      * apply Z.eqb_eq in E2.
        assert (oct = 1).
        { pose proof (Z.div_mod oct 2 ltac:(lia)).
          pose proof (Z.mod_pos_bound oct 2 ltac:(lia)). lia. }
        subst. cbn. lia.
      * apply Z.eqb_neq in E2.
        assert (Hd : 0 < oct / 2).
        { pose proof (Z.div_pos oct 2 ltac:(lia) ltac:(lia)). lia. }
        rewrite !Z.abs_eq by lia.
        pose proof (Z.log2_double (oct / 2) Hd) as Hdbl.
        assert (Hl : Z.log2 (2 * (oct / 2)) = Z.log2 oct).
        { pose proof (Z.div_mod oct 2 ltac:(lia)) as Hdm.
          pose proof (Z.mod_pos_bound oct 2 ltac:(lia)) as Hm.
          destruct (Z.eq_dec (oct mod 2) 0) as [H0|H0].
          - f_equal. lia.
          - replace oct with (2 * (oct / 2) + 1) at 2 by lia.
            rewrite Z.log2_succ_double by exact Hd.
            rewrite Z.log2_double by exact Hd. reflexivity. }
        lia.
    + rewrite Z.shiftr_div_pow2 by lia. change (2 ^ 1) with 2.
      split; [apply Z.div_pos; lia|].
      apply Z.div_lt_upper_bound; lia.
Qed.

Lemma log2_shift_add (b r k : Z) :
  0 < b -> 0 <= k -> 0 <= r < 2 ^ k ->
  Z.log2 (b * 2 ^ k + r) = Z.log2 b + k.
Proof.
  intros Hb Hk Hr.
  pose proof (Z.log2_spec b Hb) as [Hlo Hhi].
  pose proof (Z.log2_nonneg b) as Hn.
  apply Z.log2_unique; [lia|].
  rewrite Z.pow_add_r by lia.
  replace (Z.succ (Z.log2 b + k)) with (Z.succ (Z.log2 b) + k) by lia.
  rewrite (Z.pow_add_r 2 (Z.succ (Z.log2 b))) by lia.
  assert (0 < 2 ^ k) by (apply Z.pow_pos_nonneg; lia).
  nia.
Qed.

(** The specification's formula is the bit count of the integer the
    buffer denotes. *)
Lemma spec_bit_length_num_bits (buf : option (list byte)) :
  spec_bit_length buf = BN.num_bits (BN.bin2bn buf).
Proof.
  destruct buf as [bs|]; [|reflexivity].
  cbn [spec_bit_length BN.bin2bn].
  rewrite <- (BNFacts.of_bytes_strip bs).
  destruct (strip_zeros bs) as [|b t] eqn:E; [reflexivity|].
  pose proof (strip_head_nonzero _ _ _ E) as Hb.
  pose proof (u8_range b) as Hr.
  pose proof (BNFacts.of_bytes_range t) as Ht.
  rewrite BNFacts.of_bytes_cons.
  change 256 with (2 ^ 8) in *. rewrite <- Z.pow_mul_r in * by lia.
  unfold BN.num_bits.
  assert (Hp : 0 < 2 ^ (8 * Z.of_nat (length t)))
    by (apply Z.pow_pos_nonneg; lia).
  destruct (_ =? 0) eqn:E0; [apply Z.eqb_eq in E0; nia|].
  rewrite Z.abs_eq by nia.
  rewrite log2_shift_add by lia.
  cbn [length]. lia.
Qed.

(** On a buffer that fits, the C function computes the specification's
    bit length. *)
Lemma count_bits_spec (buf : option (list byte)) :
  fits buf -> bcrypto_count_bits buf = spec_bit_length buf.
Proof.
  destruct buf as [bs|]; [|reflexivity].
  unfold fits, len, bcrypto_count_bits, spec_bit_length. intros Hfit.
  rewrite skip_zero_bytes_spec.
  pose proof (length_strip_le bs) as Hle.
  set (s := Z.of_nat (length (strip_zeros bs))).
  replace ((Z.of_nat (length bs) - (0 + (Z.of_nat (length bs) - s))) * 8)
    with (s * 8) by lia.
  assert (Hs : 0 <= s * 8 < 2 ^ SIZE_BITS).
  { unfold s, SIZE_BITS. change (2 ^ 64) with (2 ^ 60 * 16). lia. }
  unfold size_t_wrap. rewrite Z.mod_small by exact Hs.
  unfold read.
  replace (0 + (Z.of_nat (length bs) - s) <? 0) with false
    by (symmetry; apply Z.ltb_ge; unfold s; lia).
  replace (Z.to_nat (0 + (Z.of_nat (length bs) - s)))
    with (length bs - length (strip_zeros bs))%nat by (unfold s; lia).
  rewrite nth_error_strip. subst s.
  destruct (strip_zeros bs) as [|b t] eqn:E; [reflexivity|].
  cbn [length hd_error].
  replace (Z.of_nat (S (length t)) * 8 =? 0) with false
    by (symmetry; apply Z.eqb_neq; lia).
  rewrite count_oct_spec by (pose proof (u8_range b); cbn; lia).
  unfold BN.num_bits.
  pose proof (strip_head_nonzero _ _ _ E) as Hb.
  pose proof (u8_range b) as Hr.
  replace (u8 b =? 0) with false by (symmetry; apply Z.eqb_neq; exact Hb).
  rewrite Z.abs_eq by lia. lia.
Qed.

Lemma count_bits_num_bits (buf : option (list byte)) :
  fits buf -> bcrypto_count_bits buf = BN.num_bits (BN.bin2bn buf).
Proof.
  intros H. rewrite count_bits_spec by exact H.
  apply spec_bit_length_num_bits.
Qed.

(** An absent or all-zero buffer has bit length 0, whatever its size. *)
Lemma count_bits_null : bcrypto_count_bits None = 0.
Proof. reflexivity. Qed.

Lemma count_bits_all_zero (bs : list byte) :
  strip_zeros bs = [] -> bcrypto_count_bits (Some bs) = 0.
Proof.
  intros H. unfold bcrypto_count_bits.
  rewrite skip_zero_bytes_spec, H. cbn [length].
  replace ((Z.of_nat (length bs) - (0 + (Z.of_nat (length bs) - Z.of_nat 0))) * 8)
    with 0 by lia.
  reflexivity.
Qed.

(** The result always is a [size_t] value. *)
Lemma count_bits_nonneg (buf : option (list byte)) : 0 <= bcrypto_count_bits buf.
Proof.
  destruct buf as [bs|]; [|cbn; lia].
  unfold bcrypto_count_bits.
  set (w := size_t_wrap _).
  assert (Hw : 0 <= w < 2 ^ SIZE_BITS) by (apply Z.mod_pos_bound; reflexivity).
  assert (Hm : w mod 8 = 0).
  { unfold w, size_t_wrap, SIZE_BITS.
    change (2 ^ 64) with (8 * 2 ^ 61).
    rewrite Z.rem_mul_r by lia.
    rewrite Z.mod_mul by lia.
    rewrite Z.add_0_l, Z.mul_comm. apply Z.mod_mul. lia. }
  destruct (w =? 0) eqn:E; [lia|]. apply Z.eqb_neq in E.
  assert (8 <= w).
  { pose proof (Z.div_mod w 8 ltac:(lia)). lia. }
  assert (Hgen : forall fuel oct bits, 0 <= bits -> 0 <= count_oct fuel oct bits).
  { induction fuel as [|fuel IH]; intros oct bits Hb; cbn [count_oct]; [lia|].
    destruct (oct =? 0); [lia|]. apply IH. lia. }
  apply Hgen. lia.
Qed.

End CountBits.

Section Normal.

Lemma bin2bn_nonneg (buf : option (list byte)) : 0 <= BN.bin2bn buf.
Proof.
  destruct buf as [bs|]; cbn; [|lia]. apply BNFacts.of_bytes_range.
Qed.

Lemma num_bytes_strip (bs : list byte) :
  BN.num_bytes (BN.of_bytes bs) = Z.of_nat (length (strip_zeros bs)).
Proof.
  unfold BN.num_bytes.
  change (BN.of_bytes bs) with (BN.bin2bn (Some bs)).
  rewrite <- spec_bit_length_num_bits. cbn [spec_bit_length].
  destruct (strip_zeros bs) as [|b t] eqn:E; [reflexivity|].
  pose proof (u8_range b) as Hr.
  pose proof (strip_head_nonzero _ _ _ E) as Hb.
  pose proof (Z.log2_nonneg (u8 b)).
  assert (Z.log2 (u8 b) < 8) by (apply Z.log2_lt_pow2; cbn; lia).
  set (k := Z.of_nat (length (b :: t))).
  symmetry. apply Z.div_unique with (r := Z.log2 (u8 b)); lia.
Qed.

(** Writing back a number that was read from a buffer strips the leading
    zero bytes of the buffer and changes nothing else. *)
Lemma bn2bin_of_bytes (bs : list byte) :
  BN.bn2bin (BN.of_bytes bs) = strip_zeros bs.
Proof.
  unfold BN.bn2bin. rewrite num_bytes_strip, Nat2Z.id.
  pose proof (BNFacts.of_bytes_range bs).
  rewrite Z.abs_eq by lia.
  rewrite <- BNFacts.of_bytes_strip. apply BNFacts.be_bytes_of_bytes.
Qed.

Lemma bn2bin_minimal (a : Z) : minimal (BN.bn2bin a).
Proof.
  unfold minimal. rewrite <- bn2bin_of_bytes, BNFacts.of_bytes_bn2bin.
  unfold BN.bn2bin, BN.num_bytes, BN.num_bits.
  rewrite Z.abs_idemp.
  destruct a; reflexivity.
Qed.

Lemma normalize_some (bs : list byte) :
  normalize (Some bs) = Some (strip_zeros bs).
Proof. unfold normalize. cbn. rewrite bn2bin_of_bytes. reflexivity. Qed.

Lemma normal_bn2bin (a : Z) : normal (Some (BN.bn2bin a)).
Proof.
  unfold normal. cbn [BN.bin2bn]. rewrite bn2bin_of_bytes.
  rewrite bn2bin_minimal. reflexivity.
Qed.

Lemma bin2bn_bn2bin (a : Z) : BN.bin2bn (Some (BN.bn2bin a)) = Z.abs a.
Proof. apply BNFacts.of_bytes_bn2bin. Qed.

(** A buffer that fits is absent exactly when its number is zero. *)
Lemma count_bits_zero_iff (buf : option (list byte)) :
  fits buf -> (bcrypto_count_bits buf = 0 <-> BN.bin2bn buf = 0).
Proof.
  intros H. rewrite count_bits_num_bits by exact H.
  apply BNFacts.num_bits_zero_iff.
Qed.

Lemma absent_is_zero (buf : option (list byte)) :
  fits buf -> (bcrypto_count_bits buf =? 0) = BN.is_zero (BN.bin2bn buf).
Proof.
  intros H. unfold BN.is_zero.
  pose proof (count_bits_zero_iff buf H).
  destruct (Z.eqb_spec (bcrypto_count_bits buf) 0),
    (Z.eqb_spec (BN.bin2bn buf) 0); tauto.
Qed.

End Normal.

(** ** Key Material Validator *)

(** Case analysis on every integer comparison of the goal. *)
Ltac zcases :=
  repeat match goal with
    | |- context [?a <? ?b] => destruct (Z.ltb_spec a b)
    | |- context [?a >? ?b] => rewrite (Z.gtb_ltb a b)
    | |- context [?a <=? ?b] => destruct (Z.leb_spec a b)
    | |- context [?a =? ?b] => destruct (Z.eqb_spec a b)
    end;
  cbn [orb andb negb].

(** Closes [b = true <-> P] once [b] is a constant and the comparisons that
    decide [P] are in the context. *)
Ltac decided :=
  split;
  [ let H := fresh in
    intros H; try discriminate H; repeat split; try lia; try reflexivity; try assumption
  | let H := fresh in
    intros H; try reflexivity; exfalso; decompose [and] H; clear H;
    try lia; try discriminate ].

Section Validator.

Lemma count_bits_le (buf : option (list byte)) :
  fits buf -> 0 <= bcrypto_count_bits buf <= 8 * len buf.
Proof.
  intros Hfit. split; [apply count_bits_nonneg|].
  rewrite count_bits_spec by exact Hfit.
  destruct buf as [bs|]; cbn [spec_bit_length len]; [|lia].
  pose proof (length_strip_le bs) as Hle.
  destruct (strip_zeros bs) as [|b t] eqn:E; [lia|].
  pose proof (u8_range b) as Hr.
  pose proof (strip_head_nonzero _ _ _ E) as Hb.
  assert (Z.log2 (u8 b) < 8) by (apply Z.log2_lt_pow2; cbn; lia).
  lia.
Qed.

Lemma count_bits_pos_nonempty (buf : option (list byte)) :
  0 < bcrypto_count_bits buf ->
  exists bs b, buf = Some (bs ++ [b]).
Proof.
  destruct buf as [bs|]; [|cbn; lia].
  destruct bs as [|c bs] using rev_ind; [cbn; lia|].
  intros _. eauto.
Qed.

(** The exponent read [key->ed[key->el - 1]] stays inside the buffer
    whenever the validator reaches it. *)
Lemma ed_read_in_bounds (key : bcrypto_rsa_key_t) :
  0 < bcrypto_count_bits (ed key) ->
  exists b, read (ed key) (len (ed key) - 1) = Some b.
Proof.
  intros H. destruct (count_bits_pos_nonempty _ H) as (bs & b & E).
  rewrite E. exists b. unfold read, len.
  rewrite length_app. cbn [length].
  replace (_ <? 0) with false by (symmetry; apply Z.ltb_ge; lia).
  replace (Z.to_nat _) with (length bs) by lia.
  rewrite nth_error_app2, Nat.sub_diag by lia. reflexivity.
Qed.

(** The last byte of a buffer carries the low bit of the integer. *)
Lemma ed_last_is_even_spec (key : bcrypto_rsa_key_t) :
  0 < bcrypto_count_bits (ed key) ->
  ed_last_is_even key = negb (Z.testbit (BN.bin2bn (ed key)) 0).
Proof.
  intros H. destruct (count_bits_pos_nonempty _ H) as (bs & b & E).
  unfold ed_last_is_even. rewrite E. unfold read, len, BN.bin2bn.
  rewrite length_app. cbn [length].
  replace (_ <? 0) with false by (symmetry; apply Z.ltb_ge; lia).
  replace (Z.to_nat _) with (length bs) by lia.
  rewrite nth_error_app2, Nat.sub_diag by lia. cbn [nth_error].
  rewrite BNFacts.of_bytes_app. cbn [length].
  change (BN.of_bytes [b]) with (0 * 256 + u8 b).
  change (Z.of_nat 1) with 1. rewrite Z.pow_1_r.
  change (Z.land (u8 b) 1) with (Z.land (u8 b) (Z.ones 1)).
  rewrite Z.land_ones by lia. change (2 ^ 1) with 2.
  rewrite Z.bit0_odd.
  replace (BN.of_bytes bs * 256 + (0 * 256 + u8 b))
    with (u8 b + 2 * (128 * BN.of_bytes bs)) by ring.
  rewrite Z.odd_add_mul_2.
  rewrite Zmod_odd. destruct (Z.odd (u8 b)); reflexivity.
Qed.

Lemma all_zero_strip (bs : list byte) :
  Forall (fun b => b = x00) bs -> strip_zeros bs = [].
Proof.
  induction 1 as [|b bs Hb _ IH]; [reflexivity|].
  subst b. cbn. exact IH.
Qed.

End Validator.

(** The public validator in terms of bit lengths and of the low bit of the
    exponent. *)
Lemma sane_pubkey_spec (key : bcrypto_rsa_key_t) :
  bcrypto_rsa_sane_pubkey (Some key) = true <->
    512 <= bcrypto_count_bits (nd key) <= 16384
    /\ 2 <= bcrypto_count_bits (ed key) <= 33
    /\ Z.testbit (BN.bin2bn (ed key)) 0 = true.
Proof.
  unfold bcrypto_rsa_sane_pubkey.
  destruct (Z.le_gt_cases 2 (bcrypto_count_bits (ed key))) as [He|He].
  - rewrite ed_last_is_even_spec by lia.
    destruct (Z.testbit (BN.bin2bn (ed key)) 0); zcases; decided.
  - zcases; decided.
Qed.

(** C4. [is_valid_public] (bcrypto_rsa_sane_pubkey) accepts a key exactly
    when the modulus has 512 to 16384 bits, the exponent has 2 to 33 bits and
    the low bit of the exponent is set; so a 511-bit or 16385-bit modulus and
    an even exponent are refused. The bit length is 0 for a null or all-zero
    buffer and otherwise is the specification's count over the bytes that
    remain once leading zero bytes are stripped. *)
Theorem sane_pubkey_iff (key : bcrypto_rsa_key_t) :
  (bcrypto_rsa_sane_pubkey (Some key) = true <->
     512 <= bcrypto_count_bits (nd key) <= 16384
     /\ 2 <= bcrypto_count_bits (ed key) <= 33
     /\ Z.testbit (BN.bin2bn (ed key)) 0 = true)
  /\ (bcrypto_count_bits (nd key) = 511 ->
      bcrypto_rsa_sane_pubkey (Some key) = false)
  /\ (bcrypto_count_bits (nd key) = 16385 ->
      bcrypto_rsa_sane_pubkey (Some key) = false)
  /\ (Z.even (BN.bin2bn (ed key)) = true ->
      bcrypto_rsa_sane_pubkey (Some key) = false)
  /\ bcrypto_count_bits None = 0
  /\ (forall bs, Forall (fun b => b = x00) bs ->
                 bcrypto_count_bits (Some bs) = 0)
  /\ (forall buf, fits buf -> bcrypto_count_bits buf = spec_bit_length buf).
Proof.
  pose proof (sane_pubkey_spec key) as Hiff.
  split; [exact Hiff|].
  repeat split.
  - intros H. apply not_true_is_false. rewrite Hiff. lia.
  - intros H. apply not_true_is_false. rewrite Hiff. lia.
  - intros H. apply not_true_is_false. rewrite Hiff.
    rewrite Z.bit0_odd, <- Z.negb_even, H. cbn.
    intros (_ & _ & Hodd). discriminate Hodd.
  - intros bs H. apply count_bits_all_zero, all_zero_strip, H.
  - intros buf H. apply count_bits_spec, H.
Qed.

Lemma sane_pubkey_iff_witness :
  bcrypto_rsa_sane_pubkey (Some key512) = true
  /\ bcrypto_rsa_sane_pubkey (Some key511) = false
  /\ bcrypto_rsa_sane_pubkey (Some key16385) = false
  /\ bcrypto_rsa_sane_pubkey (Some key_even) = false
  /\ bcrypto_count_bits (padded x40 64) = spec_bit_length (padded x40 64).
Proof.
  split; [|split; [|split; [|split]]].
  - apply (proj1 (sane_pubkey_iff key512)). vm_compute.
    repeat split; discriminate.
  - apply (proj1 (proj2 (sane_pubkey_iff key511))). vm_compute. reflexivity.
  - apply (proj1 (proj2 (proj2 (sane_pubkey_iff key16385)))).
    vm_compute. reflexivity.
  - apply (proj1 (proj2 (proj2 (proj2 (sane_pubkey_iff key_even))))).
    vm_compute. reflexivity.
  - apply (proj2 (proj2 (proj2 (proj2 (proj2 (proj2 (sane_pubkey_iff key512))))))).
    vm_compute. reflexivity.
Defined.

Section PrivateValidator.

Variable key : bcrypto_rsa_key_t.

Let nb := bcrypto_count_bits (nd key).
Let db := bcrypto_count_bits (dd key).
Let pb := bcrypto_count_bits (pd key).
Let qb := bcrypto_count_bits (qd key).
Let dpb := bcrypto_count_bits (dpd key).
Let dqb := bcrypto_count_bits (dqd key).
Let qib := bcrypto_count_bits (qid key).

(** The validator as the code computes it, with the [size_t] sum. *)
Lemma sane_privkey_unfold :
  bcrypto_rsa_sane_privkey (Some key) = true <->
    bcrypto_rsa_sane_pubkey (Some key) = true
    /\ 0 < db <= nb
    /\ size_t_wrap (pb + qb) = nb
    /\ 0 < dpb <= pb
    /\ 0 < dqb <= qb
    /\ 0 < qib <= pb.
Proof.
  pose proof (count_bits_nonneg (dd key)).
  pose proof (count_bits_nonneg (dpd key)).
  pose proof (count_bits_nonneg (dqd key)).
  pose proof (count_bits_nonneg (qid key)).
  unfold bcrypto_rsa_sane_privkey.
  destruct (bcrypto_rsa_sane_pubkey (Some key)); cbn [negb];
    [|split; [discriminate|intros (Hpub & _); discriminate Hpub]].
  fold nb db pb qb dpb dqb qib.
  zcases; decided.
Qed.

(** The sum of two bit lengths does not wrap for factors that fit. *)
Lemma factor_sum_exact :
  fits (pd key) -> fits (qd key) -> size_t_wrap (pb + qb) = pb + qb.
Proof.
  intros Hp Hq.
  pose proof (count_bits_le _ Hp). pose proof (count_bits_le _ Hq).
  unfold fits in Hp, Hq. unfold size_t_wrap, SIZE_BITS.
  apply Z.mod_small. change (2 ^ 64) with (2 ^ 60 * 16). subst pb qb. lia.
Qed.

(** The private validator with the exact sum, for factors that fit. *)
Lemma sane_privkey_spec :
  fits (pd key) -> fits (qd key) ->
  (bcrypto_rsa_sane_privkey (Some key) = true <->
     bcrypto_rsa_sane_pubkey (Some key) = true
     /\ 0 < db <= nb
     /\ pb + qb = nb
     /\ 0 < dpb <= pb
     /\ 0 < dqb <= qb
     /\ 0 < qib <= pb).
Proof.
  intros Hp Hq.
  rewrite sane_privkey_unfold, factor_sum_exact by assumption. tauto.
Qed.

(** The private validator over the bit lengths as the specification
    defines them, for buffers that fit. *)
Lemma sane_privkey_bit_lengths :
  key_fits key ->
  (bcrypto_rsa_sane_privkey (Some key) = true <->
     (512 <= spec_bit_length (nd key) <= 16384
      /\ 2 <= spec_bit_length (ed key) <= 33
      /\ Z.testbit (BN.bin2bn (ed key)) 0 = true)
     /\ 0 < spec_bit_length (dd key) <= spec_bit_length (nd key)
     /\ spec_bit_length (pd key) + spec_bit_length (qd key)
        = spec_bit_length (nd key)
     /\ 0 < spec_bit_length (dpd key) <= spec_bit_length (pd key)
     /\ 0 < spec_bit_length (dqd key) <= spec_bit_length (qd key)
     /\ 0 < spec_bit_length (qid key) <= spec_bit_length (pd key)).
Proof.
  intros (Fn & Fe & Fd & Fp & Fq & Fdp & Fdq & Fqi).
  rewrite (sane_privkey_spec Fp Fq), sane_pubkey_spec.
  subst nb db pb qb dpb dqb qib.
  rewrite (count_bits_spec _ Fn), (count_bits_spec _ Fe),
    (count_bits_spec _ Fd), (count_bits_spec _ Fp), (count_bits_spec _ Fq),
    (count_bits_spec _ Fdp), (count_bits_spec _ Fdq),
    (count_bits_spec _ Fqi).
  reflexivity.
Qed.

(** C3. [is_valid_private] (bcrypto_rsa_sane_privkey) accepts a key exactly
    when [is_valid_public] accepts it and bitlen(d) is in (0, bitlen(n)],
    bitlen(p) + bitlen(q) = bitlen(n), bitlen(dp) is in (0, bitlen(p)],
    bitlen(dq) is in (0, bitlen(q)] and bitlen(qInv) is in (0, bitlen(p)].
    It is a total function of the key, and the one array read it performs
    outside the bit counting is inside the exponent buffer. The bit length
    the code counts is the specification's: for buffers that fit, the
    validator accepts exactly when these clauses hold of the count over the
    bytes that remain once leading zero bytes are stripped. *)
Theorem sane_privkey_iff :
  fits (pd key) -> fits (qd key) ->
  (bcrypto_rsa_sane_privkey (Some key) = true <->
     bcrypto_rsa_sane_pubkey (Some key) = true
     /\ 0 < db <= nb
     /\ pb + qb = nb
     /\ 0 < dpb <= pb
     /\ 0 < dqb <= qb
     /\ 0 < qib <= pb)
  /\ (2 <= bcrypto_count_bits (ed key) ->
      exists b, read (ed key) (len (ed key) - 1) = Some b)
  /\ (key_fits key ->
      (bcrypto_rsa_sane_privkey (Some key) = true <->
         (512 <= spec_bit_length (nd key) <= 16384
          /\ 2 <= spec_bit_length (ed key) <= 33
          /\ Z.testbit (BN.bin2bn (ed key)) 0 = true)
         /\ 0 < spec_bit_length (dd key) <= spec_bit_length (nd key)
         /\ spec_bit_length (pd key) + spec_bit_length (qd key)
            = spec_bit_length (nd key)
         /\ 0 < spec_bit_length (dpd key) <= spec_bit_length (pd key)
         /\ 0 < spec_bit_length (dqd key) <= spec_bit_length (qd key)
         /\ 0 < spec_bit_length (qid key) <= spec_bit_length (pd key)))
  /\ (forall buf, fits buf -> bcrypto_count_bits buf = spec_bit_length buf).
Proof.
  intros Hp Hq. split; [|split; [|split]].
  - apply sane_privkey_spec; assumption.
  - intros H. apply ed_read_in_bounds. lia.
  - apply sane_privkey_bit_lengths.
  - intros buf H. apply count_bits_spec, H.
Qed.

End PrivateValidator.

Lemma sane_privkey_iff_witness :
  bcrypto_rsa_sane_privkey (Some key512) = true
  /\ bcrypto_rsa_sane_privkey (Some key511) = false
  /\ bcrypto_rsa_sane_privkey (Some key_padded) = true.
Proof.
  split; [|split].
  - apply (proj2 (proj1 (sane_privkey_iff key512
                           ltac:(vm_compute; reflexivity)
                           ltac:(vm_compute; reflexivity)))).
    vm_compute. repeat split; (reflexivity || discriminate).
  - destruct (bcrypto_rsa_sane_privkey (Some key511)) eqn:E; [|reflexivity].
    apply (proj1 (proj1 (sane_privkey_iff key511
                           ltac:(vm_compute; reflexivity)
                           ltac:(vm_compute; reflexivity)))) in E.
    vm_compute in E. destruct E as (Hpub & _). discriminate Hpub.
  - apply (proj2 (proj1 (proj2 (proj2 (sane_privkey_iff key_padded
                                         ltac:(vm_compute; reflexivity)
                                         ltac:(vm_compute; reflexivity))))
                   ltac:(vm_compute; repeat split; reflexivity))).
    vm_compute. repeat split; (reflexivity || discriminate).
Defined.

(** ** Key Completion Engine *)

Example compute_key_small :
  bcrypto_rsa_privkey_compute (Some key_small) None
  = (true, Some key_143).
Proof. vm_compute. reflexivity. Qed.

Example compute_key_pqe :
  bcrypto_rsa_privkey_compute (Some key_pqe) None
  = (true, Some key_143).
Proof. vm_compute. reflexivity. Qed.

Example compute_key512 :
  bcrypto_rsa_sane_compute (Some key512) = true
  /\ bcrypto_rsa_privkey_compute (Some key512) (Some key_small) = (true, None).
Proof. vm_compute. split; reflexivity. Qed.

(** *** The length that [BN_bin2bn] is handed *)

Lemma to_int_small (z : Z) : 0 <= z < 2 ^ 31 -> to_int z = z.
Proof.
  intros H. unfold to_int. rewrite Z.mod_small by lia. lia.
Qed.

(** A length between 2^31 and 2^32 is a negative [int]. *)
Lemma to_int_negative (z : Z) : 2 ^ 31 <= z < 2 ^ 32 -> to_int z = z - 2 ^ 32.
Proof.
  intros H. unfold to_int.
  replace (z + 2 ^ 31) with (z - 2 ^ 31 + 1 * 2 ^ 32) by lia.
  rewrite Z.mod_add by lia. rewrite Z.mod_small by lia. lia.
Qed.

(** A length from 2^32 on loses its high bits. *)
Lemma to_int_wraps (z k : Z) : 0 <= k < 2 ^ 31 -> to_int (k + z * 2 ^ 32) = k.
Proof.
  intros H. unfold to_int.
  replace (k + z * 2 ^ 32 + 2 ^ 31) with (k + 2 ^ 31 + z * 2 ^ 32) by lia.
  rewrite Z.mod_add by lia. rewrite Z.mod_small by lia. lia.
Qed.

Lemma len_nonneg (buf : option (list byte)) : 0 <= len buf.
Proof. destruct buf; cbn [len]; lia. Qed.

(** With an [int] length the whole buffer is read. *)
Lemma bin2bn_int_sized (buf : option (list byte)) :
  int_sized buf ->
  BN.bin2bn_int buf (to_int (len buf)) = Some (BN.bin2bn buf).
Proof.
  intros H. unfold int_sized in H. pose proof (len_nonneg buf) as Hn.
  rewrite to_int_small by lia. unfold BN.bin2bn_int.
  destruct (Z.ltb_spec (len buf) 0); [lia|].
  destruct buf as [bs|]; cbn [len BN.bin2bn].
  - rewrite Nat2Z.id, firstn_all. reflexivity.
  - reflexivity.
Qed.

(** A buffer of 2^31 to 2^32 - 1 bytes makes [BN_bin2bn] fail. *)
Lemma bin2bn_int_negative (buf : option (list byte)) :
  2 ^ 31 <= len buf < 2 ^ 32 ->
  BN.bin2bn_int buf (to_int (len buf)) = None.
Proof.
  intros H. rewrite to_int_negative by exact H. unfold BN.bin2bn_int.
  destruct (Z.ltb_spec (len buf - 2 ^ 32) 0); [reflexivity|lia].
Qed.

(** Of a buffer of 2^32 bytes and more, only a prefix is read. *)
Lemma bin2bn_int_prefix (bs : list byte) (k z : Z) :
  0 <= k < 2 ^ 31 -> Z.of_nat (length bs) = k + z * 2 ^ 32 ->
  BN.bin2bn_int (Some bs) (to_int (len (Some bs)))
  = Some (BN.of_bytes (firstn (Z.to_nat k) bs)).
Proof.
  intros Hk Hl. cbn [len]. rewrite Hl, to_int_wraps by exact Hk.
  unfold BN.bin2bn_int. destruct (Z.ltb_spec k 0); [lia|reflexivity].
Qed.

Lemma int_sized_fits (buf : option (list byte)) : int_sized buf -> fits buf.
Proof. unfold int_sized, fits. lia. Qed.

Lemma key_int_sized_fits (key : bcrypto_rsa_key_t) :
  key_int_sized key -> key_fits key.
Proof.
  unfold key_int_sized, key_fits.
  intros (Hn & He & Hd & Hp & Hq & Hdp & Hdq & Hqi).
  repeat split; apply int_sized_fits; assumption.
Qed.

(** The object [bcrypto_rsa_key2pub] builds from buffers of [int] size. *)
Lemma key2pub_some (key : bcrypto_rsa_key_t) :
  int_sized (nd key) -> int_sized (ed key) ->
  bcrypto_rsa_key2pub (Some key)
  = Some (mk_RSA (Some (BN.bin2bn (nd key))) (Some (BN.bin2bn (ed key)))
            None None None None None None).
Proof.
  intros Hn He. unfold bcrypto_rsa_key2pub.
  rewrite (bin2bn_int_sized _ Hn), (bin2bn_int_sized _ He). reflexivity.
Qed.

(** When [bcrypto_rsa_key2priv] returns an object, all of its eight
    numbers are set: the assertion after [RSA_get0_crt_params] holds. *)
Lemma key2priv_full (priv : option bcrypto_rsa_key_t) (priv_r : RSA) :
  bcrypto_rsa_key2priv priv = Some priv_r ->
  exists n e d p q dp dq qi,
    priv_r = mk_RSA (Some n) (Some e) (Some d) (Some p) (Some q)
               (Some dp) (Some dq) (Some qi).
Proof.
  destruct priv as [key|]; [|discriminate].
  unfold bcrypto_rsa_key2priv.
  destruct (BN.bin2bn_int (nd key) _) as [n|]; [|discriminate].
  destruct (BN.bin2bn_int (ed key) _) as [e|]; [|discriminate].
  destruct (BN.bin2bn_int (dd key) _) as [d|]; [|discriminate].
  destruct (BN.bin2bn_int (pd key) _) as [p|]; [|discriminate].
  destruct (BN.bin2bn_int (qd key) _) as [q|]; [|discriminate].
  destruct (BN.bin2bn_int (dpd key) _) as [dp|]; [|discriminate].
  destruct (BN.bin2bn_int (dqd key) _) as [dq|]; [|discriminate].
  destruct (BN.bin2bn_int (qid key) _) as [qi|]; [|discriminate].
  cbn. intros H. injection H as <-.
  exists n, e, d, p, q, dp, dq, qi. reflexivity.
Qed.

(** The numbers [compute_numbers] leaves in the output object. *)
Lemma compute_numbers_spec (n e d p q dp dq qi : Z) (out_r : RSA) :
  compute_numbers n e d p q dp dq qi = Some out_r ->
  exists n' e' d' dp' dq' qi',
    out_r = mk_RSA (Some n') (Some e') (Some d') (Some p) (Some q)
              (Some dp') (Some dq') (Some qi')
    /\ n' = (if BN.is_zero n then p * q else n)
    /\ (if BN.is_zero e
        then BN.mod_inverse d ((p - 1) * (q - 1)) = Some e' else e' = e)
    /\ (if BN.is_zero d
        then BN.mod_inverse e' ((p - 1) * (q - 1)) = Some d' else d' = d)
    /\ (if BN.is_zero dp || BN.is_zero dq
        then BN.mod_ d' (p - 1) = Some dp' /\ BN.mod_ d' (q - 1) = Some dq'
        else dp' = dp /\ dq' = dq)
    /\ (if BN.is_zero qi then BN.mod_inverse q p = Some qi' else qi' = qi).
Proof.
  unfold compute_numbers, BN.mul, BN.sub, BN.value_one.
  destruct (if BN.is_zero e then _ else _) as [e'|] eqn:He; [|discriminate].
  destruct (if BN.is_zero d then _ else _) as [d'|] eqn:Hd; [|discriminate].
  destruct (if BN.is_zero dp || BN.is_zero dq then _ else _)
    as [[dp' dq']|] eqn:Hdm; [|discriminate].
  destruct (if BN.is_zero qi then _ else _) as [qi'|] eqn:Hqi;
    [|discriminate].
  cbn. intros H. injection H as <-.
  exists (if BN.is_zero n then p * q else n), e', d', dp', dq', qi'.
  split; [reflexivity|]. split; [reflexivity|].
  split; [|split; [|split]].
  - destruct (BN.is_zero e); [exact He|congruence].
  - destruct (BN.is_zero d); [exact Hd|congruence].
  - destruct (BN.is_zero dp || BN.is_zero dq).
    + destruct (BN.mod_ d' (p - 1)) as [x|]; [|discriminate].
      destruct (BN.mod_ d' (q - 1)) as [y|]; [|discriminate].
      injection Hdm as -> ->. split; reflexivity.
    + injection Hdm as <- <-. split; reflexivity.
  - destruct (BN.is_zero qi); [exact Hqi|congruence].
Qed.

Section Completion.

Variable priv : bcrypto_rsa_key_t.

(** Every length of the key is an [int]. *)
Hypothesis Hint : key_int_sized priv.

Let n := BN.bin2bn (nd priv).
Let e := BN.bin2bn (ed priv).
Let d := BN.bin2bn (dd priv).
Let p := BN.bin2bn (pd priv).
Let q := BN.bin2bn (qd priv).
Let dp := BN.bin2bn (dpd priv).
Let dq := BN.bin2bn (dqd priv).
Let qi := BN.bin2bn (qid priv).

(** The transient OpenSSL key holds the eight numbers of the buffers. *)
Lemma key2priv_some :
  bcrypto_rsa_key2priv (Some priv)
  = Some (mk_RSA (Some n) (Some e) (Some d) (Some p) (Some q)
            (Some dp) (Some dq) (Some qi)).
Proof.
  destruct Hint as (Hn & He & Hd & Hp & Hq & Hdp & Hdq & Hqi).
  unfold bcrypto_rsa_key2priv.
  rewrite (bin2bn_int_sized _ Hn), (bin2bn_int_sized _ He),
    (bin2bn_int_sized _ Hd), (bin2bn_int_sized _ Hp),
    (bin2bn_int_sized _ Hq), (bin2bn_int_sized _ Hdp),
    (bin2bn_int_sized _ Hdq), (bin2bn_int_sized _ Hqi).
  reflexivity.
Qed.

(** The function once the validity and the need are settled. *)
Lemma privkey_compute_run (key0 : option bcrypto_rsa_key_t) :
  bcrypto_rsa_sane_compute (Some priv) = true ->
  bcrypto_rsa_needs_compute (Some priv) = true ->
  bcrypto_rsa_privkey_compute (Some priv) key0
  = match compute_numbers n e d p q dp dq qi with
    | Some out_r =>
        match bcrypto_rsa_priv2key (Some out_r) with
        | Some out => (true, Some out)
        | None => (false, key0)
        end
    | None => (false, key0)
    end.
Proof.
  intros Hs Hn. unfold bcrypto_rsa_privkey_compute.
  rewrite Hs, Hn, key2priv_some. cbn [negb rsa_n rsa_e rsa_d rsa_p rsa_q
                                        rsa_dmp1 rsa_dmq1 rsa_iqmp].
  destruct (compute_numbers n e d p q dp dq qi); reflexivity.
Qed.

Hypothesis Hfits : key_fits priv.
Hypothesis Hsane : bcrypto_rsa_sane_compute (Some priv) = true.
Hypothesis Hneeds : bcrypto_rsa_needs_compute (Some priv) = true.

(** Both factors are present, hence at least 1. *)
Lemma sane_compute_factors : 1 <= p /\ 1 <= q.
Proof.
  destruct Hfits as (_ & _ & _ & Hp & Hq & _).
  pose proof (count_bits_zero_iff _ Hp) as Zp.
  pose proof (count_bits_zero_iff _ Hq) as Zq.
  pose proof (bin2bn_nonneg (pd priv)) as Np.
  pose proof (bin2bn_nonneg (qd priv)) as Nq.
  assert (Hpq : bcrypto_count_bits (pd priv) <> 0
                /\ bcrypto_count_bits (qd priv) <> 0).
  { pose proof Hsane as Hs. unfold bcrypto_rsa_sane_compute in Hs.
    destruct (Z.eqb_spec (bcrypto_count_bits (pd priv)) 0) as [|Hp0];
      [cbn [orb] in Hs; discriminate Hs|].
    destruct (Z.eqb_spec (bcrypto_count_bits (qd priv)) 0) as [|Hq0];
      [cbn [orb] in Hs; discriminate Hs|].
    split; assumption. }
  destruct Hpq as [Hp0 Hq0]. fold p q in Zp, Zq, Np, Nq.
  assert (Ep : p <> 0) by (intros E; apply Hp0, Zp, E).
  assert (Eq : q <> 0) by (intros E; apply Hq0, Zq, E).
  clear - Np Nq Ep Eq. lia.
Qed.

(** One of the two exponents is present. *)
Lemma sane_compute_exponent : e <> 0 \/ d <> 0.
Proof.
  destruct Hfits as (_ & He & Hd & _).
  pose proof (count_bits_zero_iff _ He) as Ze.
  pose proof (count_bits_zero_iff _ Hd) as Zd.
  fold e in Ze. fold d in Zd.
  pose proof Hsane as Hs. unfold bcrypto_rsa_sane_compute in Hs.
  destruct (_ || _); [discriminate Hs|].
  destruct (Z.eqb_spec (bcrypto_count_bits (ed priv)) 0) as [E0|E0].
  - destruct (Z.eqb_spec (bcrypto_count_bits (dd priv)) 0) as [D0|D0].
    + cbn [andb] in Hs. discriminate Hs.
    + right. intros H. apply D0, Zd, H.
  - left. intros H. apply E0, Ze, H.
Qed.

Variable key0 : option bcrypto_rsa_key_t.
Variable res : option bcrypto_rsa_key_t.
Hypothesis Hrun : bcrypto_rsa_privkey_compute (Some priv) key0 = (true, res).

(** A successful completion returns a key in normal form whose numbers
    obey the completion relation. *)
Lemma privkey_compute_ok :
  exists out, res = Some out /\ key_normal out /\ completes priv out.
Proof.
  pose proof sane_compute_factors as [Hp1 Hq1].
  pose proof sane_compute_exponent as Hed.
  rewrite (privkey_compute_run key0 Hsane Hneeds) in Hrun.
  destruct (compute_numbers n e d p q dp dq qi) as [out_r|] eqn:Hc;
    [|discriminate].
  destruct (compute_numbers_spec _ _ _ _ _ _ _ _ _ Hc)
    as (n' & e' & d' & dp' & dq' & qi' & -> & Hn' & He' & Hd' & Hcrt & Hqi').
  cbn in Hrun. injection Hrun as <-.
  eexists. split; [reflexivity|]. split.
  { unfold key_normal. cbn [nd ed dd pd qd dpd dqd qid].
    repeat split; apply normal_bn2bin. }
  destruct Hfits as (Fn & Fe & Fd & Fp & Fq & Fdp & Fdq & Fqi).
  unfold completes. cbn [nd ed dd pd qd dpd dqd qid].
  rewrite !bin2bn_bn2bin.
  rewrite !absent_is_zero by assumption.
  fold n e d p q dp dq qi.
  pose proof (bin2bn_nonneg (nd priv)) as Nn.
  pose proof (bin2bn_nonneg (ed priv)) as Ne.
  pose proof (bin2bn_nonneg (dd priv)) as Nd.
  pose proof (bin2bn_nonneg (dpd priv)) as Ndp.
  pose proof (bin2bn_nonneg (dqd priv)) as Ndq.
  pose proof (bin2bn_nonneg (qid priv)) as Nqi.
  fold n e d dp dq qi in Nn, Ne, Nd, Ndp, Ndq, Nqi.
  assert (Hlam : 0 <= (p - 1) * (q - 1)) by nia.
  (* the numbers that were not supplied are non-negative *)
  assert (En : 0 <= n').
  { subst n'. destruct (BN.is_zero n); nia. }
  assert (Ee : 0 <= e' /\ (BN.is_zero e = true ->
               e' < (p - 1) * (q - 1) /\ (d * e') mod ((p - 1) * (q - 1)) = 1)).
  { destruct (BN.is_zero e).
    - apply mod_inverse_spec in He'. rewrite Z.abs_eq in He' by exact Hlam.
      split; [lia|]. intros _. tauto.
    - subst e'. split; [lia|discriminate]. }
  assert (Ed : 0 <= d' /\ (BN.is_zero d = true ->
               d' < (p - 1) * (q - 1) /\ (e' * d') mod ((p - 1) * (q - 1)) = 1)).
  { destruct (BN.is_zero d).
    - apply mod_inverse_spec in Hd'. rewrite Z.abs_eq in Hd' by exact Hlam.
      split; [lia|]. intros _. tauto.
    - subst d'. split; [lia|discriminate]. }
  assert (Ecrt : 0 <= dp' /\ 0 <= dq' /\
                 (BN.is_zero dp || BN.is_zero dq = true ->
                  dp' = d' mod (p - 1) /\ dq' = d' mod (q - 1))).
  { destruct (BN.is_zero dp || BN.is_zero dq).
    - destruct Hcrt as [Hx Hy].
      apply mod_spec in Hx; [|lia|lia]. apply mod_spec in Hy; [|lia|lia].
      destruct Hx as [Hx1 Hx2], Hy as [Hy1 Hy2].
      pose proof (Z.mod_pos_bound d' (p - 1) Hx1).
      pose proof (Z.mod_pos_bound d' (q - 1) Hy1).
      repeat split; try lia.
    - destruct Hcrt as [-> ->]. repeat split; try lia; intros Hf; discriminate Hf. }
  assert (Eqi : 0 <= qi' /\ (BN.is_zero qi = true ->
                 qi' < p /\ (q * qi') mod p = 1)).
  { destruct (BN.is_zero qi).
    - apply mod_inverse_spec in Hqi'. rewrite Z.abs_eq in Hqi' by lia.
      split; [lia|]. intros _. tauto.
    - subst qi'. split; [lia|discriminate]. }
  destruct Ee as [Ee0 Ee1], Ed as [Ed0 Ed1], Ecrt as (Ec0 & Ec1 & Ec2),
    Eqi as [Eq0 Eq1].
  rewrite !Z.abs_eq by lia.
  split; [reflexivity|]. split; [reflexivity|]. split; [exact Hn'|].
  split; [|split; [|split]].
  - destruct (BN.is_zero e); [|exact He'].
    specialize (Ee1 eq_refl). split; [lia|tauto].
  - destruct (BN.is_zero d) eqn:Zd; [|exact Hd'].
    specialize (Ed1 eq_refl).
    (* d is absent, so e is the caller's *)
    assert (e' = e).
    { destruct (BN.is_zero e) eqn:Ze; [|exact He'].
      apply Z.eqb_eq in Zd, Ze. tauto. }
    subst e'. split; [lia|tauto].
  - destruct (BN.is_zero dp || BN.is_zero dq); [|exact Hcrt].
    apply Ec2. reflexivity.
  - destruct (BN.is_zero qi); [|exact Hqi'].
    specialize (Eq1 eq_refl). split; [lia|tauto].
Qed.

End Completion.

(** C1, as the code has it. For every key whose buffers are shorter than
    2^31 bytes (each length then is the [int] that [BN_bin2bn] takes), that
    is accepted by [is_valid_for_completion] and needs completion, a
    successful [complete] returns a key whose numbers obey the RSA relations:
    p and q are the caller's; n = p * q when n is absent; with r1 = p - 1,
    r2 = q - 1 and lambda = r1 * r2, e = d^-1 mod lambda when e is absent and
    d = e^-1 mod lambda when d is absent; dp = d mod r1 and dq = d mod r2,
    both, when either is absent; qInv = q^-1 mod p when qInv is absent; and
    every other number is the caller's. The returned buffers hold the numbers
    without leading zero bytes. *)
Theorem complete_derives
    (priv : bcrypto_rsa_key_t) (key0 res : option bcrypto_rsa_key_t) :
  key_int_sized priv ->
  bcrypto_rsa_sane_compute (Some priv) = true ->
  bcrypto_rsa_needs_compute (Some priv) = true ->
  bcrypto_rsa_privkey_compute (Some priv) key0 = (true, res) ->
  exists out, res = Some out /\ completes priv out /\ key_normal out.
Proof.
  intros Hi Hs Hn Hr.
  destruct (privkey_compute_ok priv Hi (key_int_sized_fits _ Hi) Hs Hn
              key0 res Hr) as (out & E & N & C).
  exists out. tauto.
Qed.

Lemma complete_derives_witness :
  exists out, Some key_143 = Some out /\ completes key_pqe out /\ key_normal out.
Proof.
  apply (complete_derives key_pqe None (Some key_143)).
  - vm_compute. repeat split; reflexivity.
  - vm_compute. reflexivity.
  - vm_compute. reflexivity.
  - vm_compute. reflexivity.
Defined.

(** C1 as stated fails: a caller-supplied [dp] (here 5) does not survive
    when [dq] is absent, it is recomputed as d mod (p - 1) = 103 mod 10. *)
Lemma complete_overwrites_present_dp :
  bcrypto_rsa_sane_compute (Some key_small) = true
  /\ bcrypto_rsa_needs_compute (Some key_small) = true
  /\ bcrypto_count_bits (dpd key_small) = 3
  /\ BN.bin2bn (dpd key_small) = 5
  /\ exists out,
       bcrypto_rsa_privkey_compute (Some key_small) None = (true, Some out)
       /\ BN.bin2bn (dpd out) = 3.
Proof.
  repeat split; try (vm_compute; reflexivity).
  exists key_143. split; vm_compute; reflexivity.
Qed.

Section WholeKey.

Lemma normal_same_number (a b : option (list byte)) :
  normal a -> BN.bin2bn a = BN.bin2bn b -> a = normalize b.
Proof. unfold normal, normalize. intros Ha <-. exact Ha. Qed.

Lemma normal_not_null (a : option (list byte)) : normal a -> a <> None.
Proof. unfold normal. intros -> H. discriminate. Qed.

End WholeKey.

(** C2, as the code has it. When [complete] succeeds on a key that needed
    completion and whose buffers are shorter than 2^31 bytes, it returns
    (true, completed_key) where completed_key is the whole key, not a delta:
    its eight buffers all are non-null, p and q are the caller's numbers,
    and so is each of n, e, d, qInv that the caller supplied, and dp and dq
    when the caller supplied both. *)
Theorem complete_returns_whole_key
    (priv : bcrypto_rsa_key_t) (key0 res : option bcrypto_rsa_key_t) :
  key_int_sized priv ->
  bcrypto_rsa_sane_compute (Some priv) = true ->
  bcrypto_rsa_needs_compute (Some priv) = true ->
  bcrypto_rsa_privkey_compute (Some priv) key0 = (true, res) ->
  exists out,
    res = Some out
    /\ (nd out <> None /\ ed out <> None /\ dd out <> None /\ pd out <> None
        /\ qd out <> None /\ dpd out <> None /\ dqd out <> None
        /\ qid out <> None)
    /\ pd out = normalize (pd priv)
    /\ qd out = normalize (qd priv)
    /\ (bcrypto_count_bits (nd priv) <> 0 -> nd out = normalize (nd priv))
    /\ (bcrypto_count_bits (ed priv) <> 0 -> ed out = normalize (ed priv))
    /\ (bcrypto_count_bits (dd priv) <> 0 -> dd out = normalize (dd priv))
    /\ (bcrypto_count_bits (qid priv) <> 0 -> qid out = normalize (qid priv))
    /\ (bcrypto_count_bits (dpd priv) <> 0 ->
        bcrypto_count_bits (dqd priv) <> 0 ->
        dpd out = normalize (dpd priv) /\ dqd out = normalize (dqd priv)).
Proof.
  intros Hi Hs Hn Hr.
  destruct (privkey_compute_ok priv Hi (key_int_sized_fits _ Hi) Hs Hn
              key0 res Hr) as (out & E & N & C).
  exists out. split; [exact E|].
  destruct N as (Nn & Ne & Nd & Np & Nq & Ndp & Ndq & Nqi).
  split; [repeat split; apply normal_not_null; assumption|].
  unfold completes in C. cbv zeta in C.
  destruct C as (Cp & Cq & Cn & Ce & Cd & Ccrt & Cqi).
  split; [apply normal_same_number; assumption|].
  split; [apply normal_same_number; assumption|].
  split; [|split; [|split; [|split]]].
  - intros H. apply Z.eqb_neq in H. rewrite H in Cn.
    apply normal_same_number; assumption.
  - intros H. apply Z.eqb_neq in H. rewrite H in Ce.
    apply normal_same_number; assumption.
  - intros H. apply Z.eqb_neq in H. rewrite H in Cd.
    apply normal_same_number; assumption.
  - intros H. apply Z.eqb_neq in H. rewrite H in Cqi.
    apply normal_same_number; assumption.
  - intros Hdp Hdq. apply Z.eqb_neq in Hdp, Hdq.
    rewrite Hdp, Hdq in Ccrt. cbn [orb] in Ccrt. destruct Ccrt as [Cdp Cdq].
    split; apply normal_same_number; assumption.
Qed.

Lemma complete_returns_whole_key_witness :
  exists out,
    Some key_143 = Some out
    /\ (nd out <> None /\ ed out <> None /\ dd out <> None /\ pd out <> None
        /\ qd out <> None /\ dpd out <> None /\ dqd out <> None
        /\ qid out <> None)
    /\ pd out = normalize (pd key_pqe)
    /\ qd out = normalize (qd key_pqe)
    /\ (bcrypto_count_bits (nd key_pqe) <> 0 -> nd out = normalize (nd key_pqe))
    /\ (bcrypto_count_bits (ed key_pqe) <> 0 -> ed out = normalize (ed key_pqe))
    /\ (bcrypto_count_bits (dd key_pqe) <> 0 -> dd out = normalize (dd key_pqe))
    /\ (bcrypto_count_bits (qid key_pqe) <> 0 ->
        qid out = normalize (qid key_pqe))
    /\ (bcrypto_count_bits (dpd key_pqe) <> 0 ->
        bcrypto_count_bits (dqd key_pqe) <> 0 ->
        dpd out = normalize (dpd key_pqe) /\ dqd out = normalize (dqd key_pqe)).
Proof.
  apply (complete_returns_whole_key key_pqe None (Some key_143)).
  - vm_compute. repeat split; reflexivity.
  - vm_compute. reflexivity.
  - vm_compute. reflexivity.
  - vm_compute. reflexivity.
Defined.

(** C2 as stated fails: the key returned for p = 11, q = 13, e = 7 holds
    the three caller-supplied buffers, byte for byte. *)
Lemma complete_returns_supplied_fields :
  exists out,
    bcrypto_rsa_privkey_compute (Some key_pqe) None = (true, Some out)
    /\ bcrypto_rsa_needs_compute (Some key_pqe) = true
    /\ 0 < bcrypto_count_bits (pd key_pqe) /\ pd out = pd key_pqe
    /\ 0 < bcrypto_count_bits (qd key_pqe) /\ qd out = qd key_pqe
    /\ 0 < bcrypto_count_bits (ed key_pqe) /\ ed out = ed key_pqe.
Proof.
  exists key_143. repeat split; vm_compute; reflexivity.
Qed.


(** ** Serialization Layer *)

Example import_tiny_priv :
  bcrypto_rsa_privkey_import der_tiny_priv = Some key_tiny.
Proof. vm_compute. reflexivity. Qed.

Example import_tiny_pub :
  bcrypto_rsa_pubkey_import der_tiny_pub = Some key_tiny_pub.
Proof. vm_compute. reflexivity. Qed.

Example export_import_key512 :
  option_map (@length byte) (bcrypto_rsa_privkey_export (Some key512))
  = Some 160%nat
  /\ (do buf <- bcrypto_rsa_privkey_export (Some key512);
      bcrypto_rsa_privkey_import buf) = Some key512.
Proof. split; vm_compute; reflexivity. Qed.

(** The indefinite form is taken, with or without bytes behind it. *)
Example import_indefinite :
  bcrypto_rsa_privkey_import der_tiny_indefinite = Some key_tiny
  /\ bcrypto_rsa_privkey_import (der_tiny_indefinite ++ [xff]) = Some key_tiny.
Proof. split; vm_compute; reflexivity. Qed.

(** The version is looked at: 1 is refused, and so is a 0 on two bytes. *)
Example import_version :
  bcrypto_rsa_privkey_import der_tiny_version1 = None
  /\ bcrypto_rsa_privkey_import der_tiny_long_version = None.
Proof. split; vm_compute; reflexivity. Qed.

(** The contents [ff] of the modulus are the number 255. *)
Example import_negative_n :
  bcrypto_rsa_privkey_import der_negative_n = Some key_255.
Proof. vm_compute. reflexivity. Qed.

Module ASN1Facts.
Import ASN1.

Lemma take_app (xs rest : list byte) :
  take (Z.of_nat (length xs)) (xs ++ rest) = Some (xs, rest).
Proof.
  unfold take. rewrite length_app, Nat2Z.id.
  replace (_ || _) with false
    by (symmetry; apply orb_false_iff; split;
        [apply Z.ltb_ge|apply Z.ltb_ge]; lia).
  rewrite firstn_app, skipn_app, Nat.sub_diag, firstn_all, skipn_all.
  cbn. rewrite app_nil_r. reflexivity.
Qed.

(** Bytes that follow the input do not change what is taken from its
    front. *)
Lemma take_more (n : Z) (bs a b extra : list byte) :
  take n bs = Some (a, b) -> take n (bs ++ extra) = Some (a, b ++ extra).
Proof.
  unfold take.
  destruct (Z.ltb_spec n 0) as [|Hn]; [discriminate|].
  destruct (Z.ltb_spec (Z.of_nat (length bs)) n) as [|Hl]; [discriminate|].
  cbn [orb]. intros H. injection H as <- <-.
  rewrite length_app.
  replace (Z.of_nat (length bs + length extra) <? n) with false
    by (symmetry; apply Z.ltb_ge; lia).
  rewrite firstn_app, skipn_app.
  replace (Z.to_nat n - length bs)%nat with 0%nat by lia.
  cbn [firstn skipn]. rewrite app_nil_r. reflexivity.
Qed.

Lemma take_length (n : Z) (bs a b : list byte) :
  take n bs = Some (a, b) -> bs = a ++ b /\ Z.of_nat (length a) = n.
Proof.
  unfold take.
  destruct (Z.ltb_spec n 0) as [|Hn]; [discriminate|].
  destruct (Z.ltb_spec (Z.of_nat (length bs)) n) as [|Hl]; [discriminate|].
  cbn [orb]. intros H. injection H as <- <-.
  rewrite firstn_skipn, length_firstn. split; [reflexivity|lia].
Qed.

(** *** Lengths *)

Lemma num_bytes_small (n : Z) : 0 <= n < 2 ^ 16 -> BN.num_bytes n <= 2.
Proof.
  intros Hn. unfold BN.num_bytes, BN.num_bits.
  destruct (Z.eqb_spec n 0) as [|Hz]; [cbn; lia|].
  rewrite Z.abs_eq by lia.
  assert (Z.log2 n < 16) by (apply Z.log2_lt_pow2; lia).
  assert ((Z.log2 n + 1 + 7) / 8 < 3)
    by (apply Z.div_lt_upper_bound; lia).
  lia.
Qed.

Lemma num_bytes_pos (n : Z) : 128 <= n -> 1 <= BN.num_bytes n.
Proof.
  intros Hn. unfold BN.num_bytes, BN.num_bits.
  destruct (Z.eqb_spec n 0) as [|Hz]; [lia|].
  rewrite Z.abs_eq by lia.
  assert (7 <= Z.log2 n) by (apply Z.log2_le_pow2; cbn; lia).
  apply Z.div_le_lower_bound; lia.
Qed.

Lemma encode_length_some (n : Z) :
  0 <= n < 2 ^ 16 ->
  exists l, encode_length n = Some l /\ Z.of_nat (length l) <= 3.
Proof.
  intros Hn. unfold encode_length.
  destruct (Z.ltb_spec n 128).
  - eexists. split; [reflexivity|]. cbn. lia.
  - pose proof (num_bytes_small n Hn).
    destruct (Z.ltb_spec (BN.num_bytes n) 127); [|lia].
    eexists. split; [reflexivity|]. cbn [length].
    rewrite Nat2Z.inj_succ, BNFacts.length_bn2bin. lia.
Qed.

Lemma decode_length_long (k : Z) (l rest : list byte) :
  1 <= k < 127 -> Z.of_nat (length l) = k ->
  decode_length (to_u8 (128 + k) :: l ++ rest) = Some (BN.of_bytes l, rest).
Proof.
  intros Hk Hl. unfold decode_length.
  rewrite u8_to_u8, (Z.mod_small (128 + k) 256) by lia.
  destruct (Z.ltb_spec (128 + k) 128); [lia|].
  replace (128 + k - 128) with k by lia.
  destruct (Z.eqb_spec k 0); [lia|].
  rewrite <- Hl, take_app. reflexivity.
Qed.

Lemma decode_encode_length (n : Z) (l rest : list byte) :
  0 <= n -> encode_length n = Some l ->
  decode_length (l ++ rest) = Some (n, rest).
Proof.
  intros Hn. unfold encode_length.
  destruct (Z.ltb_spec n 128) as [Hs|Hs].
  - intros H. injection H as <-. cbn [app decode_length].
    rewrite u8_to_u8, Z.mod_small by lia.
    destruct (Z.ltb_spec n 128); [reflexivity|lia].
  - pose proof (num_bytes_pos n Hs) as Hk.
    destruct (Z.ltb_spec (BN.num_bytes n) 127) as [Hk'|]; [|discriminate].
    intros H.
    assert (E : l = to_u8 (128 + BN.num_bytes n) :: BN.bn2bin n)
      by (injection H as <-; reflexivity).
    rewrite E, <- app_comm_cons.
    rewrite decode_length_long
      by first [lia | apply BNFacts.length_bn2bin].
    rewrite BNFacts.of_bytes_bn2bin, Z.abs_eq by lia. reflexivity.
Qed.

Lemma decode_length_more (bs rest extra : list byte) (n : Z) :
  decode_length bs = Some (n, rest) ->
  decode_length (bs ++ extra) = Some (n, rest ++ extra).
Proof.
  destruct bs as [|b bs]; [discriminate|]. cbn [app decode_length].
  destruct (u8 b <? 128).
  - intros H. injection H as <- <-. reflexivity.
  - destruct (_ =? 0); [discriminate|].
    destruct (take (u8 b - 128) bs) as [[l r]|] eqn:E; [|discriminate].
    intros H. injection H as <- <-.
    rewrite (take_more _ _ _ _ extra E). reflexivity.
Qed.

Lemma decode_length_nonneg (bs rest : list byte) (n : Z) :
  decode_length bs = Some (n, rest) -> 0 <= n.
Proof.
  destruct bs as [|b bs]; [discriminate|]. cbn [decode_length].
  pose proof (u8_range b) as Hb.
  destruct (u8 b <? 128).
  - intros H. injection H as <- _. lia.
  - destruct (_ =? 0); [discriminate|].
    destruct (take (u8 b - 128) bs) as [[l r]|]; [|discriminate].
    intros H. injection H as <- _. apply BNFacts.of_bytes_range.
Qed.

(** *** Tag, length, contents *)

Lemma decode_encode_tlv (tag : byte) (content enc rest : list byte) :
  encode_tlv tag content = Some enc ->
  decode_tlv tag (enc ++ rest) = Some (content, rest).
Proof.
  unfold encode_tlv.
  destruct (encode_length _) as [l|] eqn:El; [|discriminate].
  intros H. injection H as <-. cbn [app decode_tlv].
  rewrite Byte.byte_dec_lb by reflexivity.
  rewrite <- app_assoc.
  rewrite (decode_encode_length _ _ _ (Nat2Z.is_nonneg _) El).
  apply take_app.
Qed.

Lemma decode_tlv_more (tag : byte) (bs content rest extra : list byte) :
  decode_tlv tag bs = Some (content, rest) ->
  decode_tlv tag (bs ++ extra) = Some (content, rest ++ extra).
Proof.
  destruct bs as [|t bs]; [discriminate|]. cbn [app decode_tlv].
  destruct (Byte.eqb t tag); [|discriminate].
  destruct (decode_length bs) as [[n r]|] eqn:E; [|discriminate].
  rewrite (decode_length_more _ _ extra _ E).
  apply take_more.
Qed.

Lemma encode_tlv_nonempty (tag : byte) (content enc : list byte) :
  encode_tlv tag content = Some enc -> enc <> [].
Proof.
  unfold encode_tlv. destruct (encode_length _); [|discriminate].
  intros H. injection H as <-. discriminate.
Qed.

Lemma encode_tlv_some (tag : byte) (content : list byte) :
  Z.of_nat (length content) < 2 ^ 16 ->
  exists enc, encode_tlv tag content = Some enc
              /\ Z.of_nat (length enc) <= Z.of_nat (length content) + 4.
Proof.
  intros H. unfold encode_tlv.
  destruct (encode_length_some (Z.of_nat (length content)) ltac:(lia))
    as (l & -> & Hl).
  eexists. split; [reflexivity|].
  cbn [length]. rewrite length_app. lia.
Qed.

(** *** INTEGER *)

Lemma bn_i2c_abs (a : Z) : bn_i2c (Z.abs a) = bn_i2c a.
Proof.
  unfold bn_i2c, BN.bn2bin, BN.num_bytes, BN.num_bits.
  rewrite Z.abs_idemp. destruct a; reflexivity.
Qed.

Lemma of_bytes_bn_i2c (a : Z) : BN.of_bytes (bn_i2c a) = Z.abs a.
Proof.
  unfold bn_i2c. destruct (_ =? 0).
  - rewrite BNFacts.of_bytes_cons, BNFacts.of_bytes_bn2bin.
    change (u8 x00) with 0. lia.
  - apply BNFacts.of_bytes_bn2bin.
Qed.

Lemma length_bn_i2c (a : Z) :
  Z.of_nat (length (bn_i2c a)) <= BN.num_bytes a + 1.
Proof.
  unfold bn_i2c. destruct (_ =? 0); cbn [length];
    rewrite ?Nat2Z.inj_succ, BNFacts.length_bn2bin; lia.
Qed.

(** The contents the encoder writes are read back. *)
Lemma bn_c2i_i2c (a : Z) : bn_c2i (bn_i2c a) = Z.abs a.
Proof. apply of_bytes_bn_i2c. Qed.

Lemma encode_integers_contents (xs : list Z) :
  encode_integers xs = encode_contents (map bn_i2c xs).
Proof.
  induction xs as [|x xs IH]; [reflexivity|].
  cbn [encode_integers encode_contents map]. rewrite IH. reflexivity.
Qed.

(** INTEGERs are read back as the magnitudes of their contents. *)
Lemma decode_contents (cs : list (list byte)) (enc rest : list byte) :
  encode_contents cs = Some enc ->
  decode_integers (length cs) (enc ++ rest) = Some (map bn_c2i cs, rest).
Proof.
  revert enc. induction cs as [|c cs IH]; intros enc.
  - intros H. injection H as <-. reflexivity.
  - cbn [encode_contents].
    destruct (encode_tlv TAG_INTEGER c) as [h|] eqn:Eh; [|discriminate].
    destruct (encode_contents cs) as [t|] eqn:Et; [|discriminate].
    intros H. injection H as <-.
    cbn [length decode_integers map]. rewrite <- app_assoc.
    unfold decode_integer at 1.
    rewrite (decode_encode_tlv _ _ _ (t ++ rest) Eh), (IH t eq_refl).
    reflexivity.
Qed.

Lemma decode_encode_integer (a : Z) (enc rest : list byte) :
  encode_integer a = Some enc ->
  decode_integer (enc ++ rest) = Some (Z.abs a, rest).
Proof.
  intros H. unfold decode_integer.
  rewrite (decode_encode_tlv _ _ _ rest H), bn_c2i_i2c. reflexivity.
Qed.

Lemma decode_encode_integers (xs : list Z) (enc rest : list byte) :
  encode_integers xs = Some enc ->
  decode_integers (length xs) (enc ++ rest) = Some (map Z.abs xs, rest).
Proof.
  rewrite encode_integers_contents. intros H.
  rewrite <- (length_map bn_i2c xs), (decode_contents _ _ rest H), map_map.
  f_equal. f_equal. apply map_ext. intros a. apply bn_c2i_i2c.
Qed.

Lemma encode_tlv_head (tag : byte) (content enc : list byte) :
  encode_tlv tag content = Some enc -> exists t, enc = tag :: t.
Proof.
  unfold encode_tlv. destruct (encode_length _); [|discriminate].
  intros H. injection H as <-. eauto.
Qed.

(** Asking for more INTEGERs than were written fails. *)
Lemma decode_contents_short (cs : list (list byte)) (k : nat)
    (enc : list byte) :
  encode_contents cs = Some enc -> (length cs < k)%nat ->
  decode_integers k enc = None.
Proof.
  revert k enc. induction cs as [|c cs IH]; intros k enc.
  - intros H Hk. injection H as <-.
    destruct k as [|k]; [lia|]. reflexivity.
  - cbn [encode_contents].
    destruct (encode_tlv TAG_INTEGER c) as [h|] eqn:Eh; [|discriminate].
    destruct (encode_contents cs) as [t|] eqn:Et; [|discriminate].
    intros H Hk. injection H as <-. cbn [length] in Hk.
    destruct k as [|k]; [lia|]. cbn [decode_integers].
    unfold decode_integer. rewrite (decode_encode_tlv _ _ _ t Eh).
    rewrite (IH k t eq_refl) by lia. reflexivity.
Qed.

(** Asking for fewer leaves an INTEGER behind. *)
Lemma decode_contents_long (cs : list (list byte)) (k : nat)
    (enc : list byte) :
  encode_contents cs = Some enc -> (k < length cs)%nat ->
  exists ys remainder,
    decode_integers k enc = Some (ys, TAG_INTEGER :: remainder).
Proof.
  revert k enc. induction cs as [|c cs IH]; intros k enc.
  - cbn [length]. lia.
  - cbn [encode_contents].
    destruct (encode_tlv TAG_INTEGER c) as [h|] eqn:Eh; [|discriminate].
    destruct (encode_contents cs) as [t|] eqn:Et; [|discriminate].
    intros H Hk. injection H as <-. cbn [length] in Hk.
    destruct k as [|k].
    + cbn [decode_integers].
      destruct (encode_tlv_head _ _ _ Eh) as (h' & ->).
      exists [], (h' ++ t). reflexivity.
    + cbn [decode_integers].
      unfold decode_integer at 1. rewrite (decode_encode_tlv _ _ _ t Eh).
      destruct (IH k t eq_refl ltac:(lia)) as (ys & r & ->).
      eauto.
Qed.

(** Another count of INTEGERs than the [k] asked for: the read fails or
    leaves an INTEGER behind. *)
Lemma decode_contents_count (cs : list (list byte)) (k : nat)
    (enc : list byte) :
  encode_contents cs = Some enc -> length cs <> k ->
  decode_integers k enc = None
  \/ exists ys remainder,
       decode_integers k enc = Some (ys, TAG_INTEGER :: remainder).
Proof.
  intros He Hk.
  destruct (Nat.lt_ge_cases (length cs) k) as [Hlt|Hge].
  - left. apply (decode_contents_short _ _ _ He Hlt).
  - right. apply (decode_contents_long _ _ _ He). lia.
Qed.

Lemma decode_integers_count (xs : list Z) (k : nat) (enc : list byte) :
  encode_integers xs = Some enc -> length xs <> k ->
  decode_integers k enc = None
  \/ exists ys remainder,
       decode_integers k enc = Some (ys, TAG_INTEGER :: remainder).
Proof.
  rewrite encode_integers_contents. intros He Hk.
  apply (decode_contents_count _ _ _ He). rewrite length_map. exact Hk.
Qed.

(** *** Bytes behind a value are not looked at *)

Lemma decode_integer_more (bs rest extra : list byte) (a : Z) :
  decode_integer bs = Some (a, rest) ->
  decode_integer (bs ++ extra) = Some (a, rest ++ extra).
Proof.
  unfold decode_integer.
  destruct (decode_tlv TAG_INTEGER bs) as [[content r]|] eqn:E;
    [|discriminate].
  rewrite (decode_tlv_more _ _ _ _ extra E).
  intros H. injection H as <- <-. reflexivity.
Qed.

Lemma decode_integers_more (k : nat) (bs rest extra : list byte)
    (xs : list Z) :
  decode_integers k bs = Some (xs, rest) ->
  decode_integers k (bs ++ extra) = Some (xs, rest ++ extra).
Proof.
  revert bs xs rest. induction k as [|k IH]; intros bs xs rest.
  - cbn [decode_integers]. intros H. injection H as <- <-. reflexivity.
  - cbn [decode_integers].
    destruct (decode_integer bs) as [[a r]|] eqn:E; [|discriminate].
    rewrite (decode_integer_more _ _ extra _ E).
    destruct (decode_integers k r) as [[ys r']|] eqn:E'; [|discriminate].
    rewrite (IH _ _ _ E').
    intros H. injection H as <- <-. reflexivity.
Qed.

Lemma decode_int32_more (bs rest extra : list byte) (v : Z) :
  decode_int32 bs = Some (v, rest) ->
  decode_int32 (bs ++ extra) = Some (v, rest ++ extra).
Proof.
  unfold decode_int32.
  destruct (decode_tlv TAG_INTEGER bs) as [[content r]|] eqn:E;
    [|discriminate].
  rewrite (decode_tlv_more _ _ _ _ extra E).
  destruct (int32_c2i content); [|discriminate].
  intros H. injection H as <- <-. reflexivity.
Qed.

Lemma check_eoc_more (bs rest extra : list byte) :
  check_eoc bs = Some rest -> check_eoc (bs ++ extra) = Some (rest ++ extra).
Proof.
  destruct bs as [|b0 [|b1 bs]]; try discriminate.
  cbn [app check_eoc]. destruct (_ && _); [|discriminate].
  intros H. injection H as <-. reflexivity.
Qed.

Lemma check_eoc_le (bs rest : list byte) :
  check_eoc bs = Some rest -> (length rest <= length bs)%nat.
Proof.
  destruct bs as [|b0 [|b1 bs]]; try discriminate.
  cbn [check_eoc]. destruct (_ && _); [|discriminate].
  intros H. injection H as <-. cbn [length]. lia.
Qed.

Lemma decode_length_shrinks (bs rest : list byte) (n : Z) :
  decode_length bs = Some (n, rest) -> (length rest < length bs)%nat.
Proof.
  destruct bs as [|b bs]; [discriminate|]. cbn [decode_length length].
  destruct (u8 b <? 128).
  - intros H. injection H as _ <-. lia.
  - destruct (_ =? 0); [discriminate|].
    destruct (take (u8 b - 128) bs) as [[l r]|] eqn:E; [|discriminate].
    intros H. injection H as _ <-.
    destruct (take_length _ _ _ _ E) as [-> _].
    rewrite length_app. lia.
Qed.

Lemma decode_tlv_shrinks (tag : byte) (bs content rest : list byte) :
  decode_tlv tag bs = Some (content, rest) -> (length rest < length bs)%nat.
Proof.
  destruct bs as [|t bs]; [discriminate|]. cbn [decode_tlv length].
  destruct (Byte.eqb t tag); [|discriminate].
  destruct (decode_length bs) as [[n r]|] eqn:E; [|discriminate].
  intros H. pose proof (decode_length_shrinks _ _ _ E).
  destruct (take_length _ _ _ _ H) as [-> _].
  rewrite length_app in *. lia.
Qed.


(** *** SEQUENCE *)

(** The first length byte of the encoder is not the mark of the
    indefinite form. *)
Lemma encode_length_head (n : Z) (l : list byte) :
  0 <= n -> encode_length n = Some l ->
  exists b t, l = b :: t /\ u8 b <> 128.
Proof.
  intros Hn. unfold encode_length.
  destruct (Z.ltb_spec n 128) as [Hs|Hs].
  - intros H. injection H as <-. eexists _, _. split; [reflexivity|].
    rewrite u8_to_u8, Z.mod_small by lia. lia.
  - pose proof (num_bytes_pos n Hs) as Hk.
    destruct (Z.ltb_spec (BN.num_bytes n) 127) as [Hk'|]; [|discriminate].
    intros H.
    assert (E : l = to_u8 (128 + BN.num_bytes n) :: BN.bn2bin n)
      by (injection H as <-; reflexivity).
    exists (to_u8 (128 + BN.num_bytes n)), (BN.bn2bin n).
    split; [exact E|].
    rewrite u8_to_u8, Z.mod_small by lia. lia.
Qed.

Section Sequence.

Context {A : Type}.
Variable fields : list byte -> option (A * list byte).

(** A SEQUENCE in the definite form: the fields are read from the
    contents and have to use them up. *)
Lemma decode_sequence_definite (content enc rest : list byte) :
  encode_tlv TAG_SEQUENCE content = Some enc ->
  decode_sequence fields (enc ++ rest)
  = match fields content with
    | Some (a, []) => Some (a, rest)
    | _ => None
    end.
Proof.
  intros H. pose proof (decode_encode_tlv _ _ _ rest H) as Hd.
  unfold encode_tlv in H.
  destruct (encode_length _) as [l|] eqn:El; [|discriminate].
  destruct (encode_length_head _ _ (Nat2Z.is_nonneg _) El)
    as (b & t & -> & Hb).
  injection H as <-.
  cbn [app] in Hd. unfold decode_sequence. cbn [app].
  rewrite Byte.byte_dec_lb by reflexivity. cbn [negb].
  destruct (Z.eqb_spec (u8 b) 128); [contradiction|].
  rewrite Hd.
  destruct (fields content) as [[a [|x r]]|]; reflexivity.
Qed.

(** The fields do not look beyond the end-of-contents octets. *)
Hypothesis fields_more :
  forall bs rest rest' extra a,
    fields bs = Some (a, rest) -> check_eoc rest = Some rest' ->
    fields (bs ++ extra) = Some (a, rest ++ extra).

(** The decoder reads one structure and does not look beyond it. *)
Lemma decode_sequence_more (bs rest extra : list byte) (a : A) :
  decode_sequence fields bs = Some (a, rest) ->
  decode_sequence fields (bs ++ extra) = Some (a, rest ++ extra).
Proof.
  destruct bs as [|t [|l body]]; try discriminate.
  change ((t :: l :: body) ++ extra) with (t :: l :: (body ++ extra)).
  unfold decode_sequence.
  destruct (negb (Byte.eqb t TAG_SEQUENCE)); [discriminate|].
  destruct (u8 l =? 128).
  - destruct (fields body) as [[a' r]|] eqn:E; [|discriminate].
    destruct (check_eoc r) as [rest'|] eqn:Ee; [|discriminate].
    rewrite (fields_more _ _ _ extra _ E Ee).
    rewrite (check_eoc_more _ _ extra Ee).
    intros H. injection H as <- <-. reflexivity.
  - destruct (decode_tlv TAG_SEQUENCE (t :: l :: body))
      as [[content r]|] eqn:E; [|discriminate].
    change (t :: l :: (body ++ extra)) with ((t :: l :: body) ++ extra).
    rewrite (decode_tlv_more _ _ _ _ extra E).
    destruct (fields content) as [[a' [|x r']]|]; try discriminate.
    intros H. injection H as <- <-. reflexivity.
Qed.

Lemma decode_sequence_head (bs rest : list byte) (a : A) :
  decode_sequence fields bs = Some (a, rest) ->
  exists tl, bs = TAG_SEQUENCE :: tl.
Proof.
  destruct bs as [|t [|l body]]; try discriminate.
  unfold decode_sequence.
  destruct (Byte.eqb t TAG_SEQUENCE) eqn:Et; [|discriminate].
  intros _. apply Byte.byte_dec_bl in Et. subst t. eauto.
Qed.

(** Fields that give back no more than they got. *)
Hypothesis fields_le :
  forall bs rest a,
    fields bs = Some (a, rest) -> (length rest <= length bs)%nat.

(** A SEQUENCE takes at least two bytes. *)
Lemma decode_sequence_shrinks (bs rest : list byte) (a : A) :
  decode_sequence fields bs = Some (a, rest) ->
  (length rest < length bs)%nat.
Proof.
  destruct bs as [|t [|l body]]; try discriminate.
  unfold decode_sequence.
  destruct (negb (Byte.eqb t TAG_SEQUENCE)); [discriminate|].
  destruct (u8 l =? 128).
  - destruct (fields body) as [[a' r]|] eqn:E; [|discriminate].
    destruct (check_eoc r) as [rest'|] eqn:Ee; [|discriminate].
    intros H. injection H as <- <-.
    pose proof (fields_le _ _ _ E). pose proof (check_eoc_le _ _ Ee).
    cbn [length]. lia.
  - destruct (decode_tlv TAG_SEQUENCE (t :: l :: body))
      as [[content r]|] eqn:E; [|discriminate].
    destruct (fields content) as [[a' [|x r']]|]; try discriminate.
    intros H. injection H as <- <-.
    apply (decode_tlv_shrinks _ _ _ _ E).
Qed.

End Sequence.

Section Items.

Context {A : Type}.
Variable item : list byte -> option (A * list byte).

Hypothesis item_more :
  forall bs rest extra a,
    item bs = Some (a, rest) -> item (bs ++ extra) = Some (a, rest ++ extra).

Hypothesis item_shrinks :
  forall bs rest a,
    item bs = Some (a, rest) -> (length rest < length bs)%nat.

Hypothesis item_head :
  forall bs rest a,
    item bs = Some (a, rest) -> exists tl, bs = TAG_SEQUENCE :: tl.

Lemma item_nil : item [] = None.
Proof.
  destruct (item []) as [[a r]|] eqn:E; [|reflexivity].
  pose proof (item_shrinks _ _ _ E) as H. cbn [length] in H. lia.
Qed.

(** [fuel] beyond the number of bytes changes nothing: the loops stop
    because the input is used up or refused, not because the fuel is. *)
Lemma decode_items_fuels (f1 f2 : nat) (bs : list byte) :
  (length bs <= f1)%nat -> (length bs <= f2)%nat ->
  decode_items item f1 bs = decode_items item f2 bs.
Proof.
  revert f2 bs. induction f1 as [|f1 IH]; intros f2 bs H1 H2.
  - destruct bs; [|cbn [length] in H1; lia]. destruct f2; reflexivity.
  - destruct bs as [|b bs]; [destruct f2; reflexivity|].
    destruct f2 as [|f2]; [cbn [length] in H2; lia|].
    cbn [decode_items].
    destruct (item (b :: bs)) as [[a rest]|] eqn:E; [|reflexivity].
    pose proof (item_shrinks _ _ _ E) as Hs.
    rewrite (IH f2 rest) by lia. reflexivity.
Qed.

Lemma decode_items_fuel (fuel : nat) (bs : list byte) :
  (length bs <= fuel)%nat ->
  decode_items item fuel bs = decode_items item (length bs) bs.
Proof. intros H. apply decode_items_fuels; [exact H|lia]. Qed.

Lemma decode_items_eoc_fuels (f1 f2 : nat) (bs : list byte) :
  (length bs <= f1)%nat -> (length bs <= f2)%nat ->
  decode_items_eoc item f1 bs = decode_items_eoc item f2 bs.
Proof.
  revert f2 bs. induction f1 as [|f1 IH]; intros f2 bs H1 H2.
  - destruct bs; [|cbn [length] in H1; lia].
    destruct f2; cbn [decode_items_eoc check_eoc]; [reflexivity|].
    rewrite item_nil. reflexivity.
  - destruct f2 as [|f2].
    + destruct bs; [|cbn [length] in H2; lia].
      cbn [decode_items_eoc check_eoc]. rewrite item_nil. reflexivity.
    + cbn [decode_items_eoc].
      destruct (check_eoc bs); [reflexivity|].
      destruct (item bs) as [[a rest]|] eqn:E; [|reflexivity].
      pose proof (item_shrinks _ _ _ E) as Hs.
      rewrite (IH f2 rest) by lia. reflexivity.
Qed.

Lemma decode_items_eoc_fuel (fuel : nat) (bs : list byte) :
  (length bs <= fuel)%nat ->
  decode_items_eoc item fuel bs = decode_items_eoc item (length bs) bs.
Proof. intros H. apply decode_items_eoc_fuels; [exact H|lia]. Qed.

Lemma decode_items_eoc_more (fuel fuel' : nat) (bs rest extra : list byte)
    (xs : list A) :
  decode_items_eoc item fuel bs = Some (xs, rest) -> (fuel <= fuel')%nat ->
  decode_items_eoc item fuel' (bs ++ extra) = Some (xs, rest ++ extra).
Proof.
  revert fuel' bs xs. induction fuel as [|fuel IH]; intros fuel' bs xs.
  - cbn [decode_items_eoc]. destruct (check_eoc bs) eqn:E; [|discriminate].
    intros H _. injection H as <- <-.
    destruct fuel'; cbn [decode_items_eoc];
      rewrite (check_eoc_more _ _ extra E); reflexivity.
  - cbn [decode_items_eoc]. destruct (check_eoc bs) eqn:E.
    + intros H _. injection H as <- <-.
      destruct fuel'; cbn [decode_items_eoc];
        rewrite (check_eoc_more _ _ extra E); reflexivity.
    + destruct (item bs) as [[a r]|] eqn:Ei; [|discriminate].
      destruct (decode_items_eoc item fuel r) as [[ys r']|] eqn:Er;
        [|discriminate].
      intros H Hf. injection H as <- <-.
      destruct fuel' as [|fuel']; [lia|].
      cbn [decode_items_eoc].
      rewrite (item_more _ _ extra _ Ei).
      rewrite (IH fuel' _ _ Er) by lia.
      destruct (item_head _ _ _ Ei) as (tl & ->). cbn [app].
      destruct (tl ++ extra); reflexivity.
Qed.

Lemma decode_sequence_of_more (bs rest extra : list byte) (xs : list A) :
  decode_sequence_of item bs = Some (xs, rest) ->
  decode_sequence_of item (bs ++ extra) = Some (xs, rest ++ extra).
Proof.
  destruct bs as [|t [|l body]]; try discriminate.
  change ((t :: l :: body) ++ extra) with (t :: l :: (body ++ extra)).
  unfold decode_sequence_of.
  destruct (negb (Byte.eqb t TAG_SEQUENCE)); [discriminate|].
  destruct (u8 l =? 128).
  - intros H. apply (decode_items_eoc_more _ _ _ _ _ _ H).
    rewrite length_app. lia.
  - destruct (decode_tlv TAG_SEQUENCE (t :: l :: body))
      as [[content r]|] eqn:E; [|discriminate].
    change (t :: l :: (body ++ extra)) with ((t :: l :: body) ++ extra).
    rewrite (decode_tlv_more _ _ _ _ extra E).
    destruct (decode_items item (length content) content); [|discriminate].
    intros H. injection H as <- <-. reflexivity.
Qed.

Lemma decode_sequence_of_head (bs rest : list byte) (xs : list A) :
  decode_sequence_of item bs = Some (xs, rest) ->
  exists tl, bs = TAG_SEQUENCE :: tl.
Proof.
  destruct bs as [|t [|l body]]; try discriminate.
  unfold decode_sequence_of.
  destruct (Byte.eqb t TAG_SEQUENCE) eqn:Et; [|discriminate].
  intros _. apply Byte.byte_dec_bl in Et. subst t. eauto.
Qed.

End Items.

(** *** The fields of the two structures *)

Lemma decode_integer_shrinks (bs rest : list byte) (a : Z) :
  decode_integer bs = Some (a, rest) -> (length rest < length bs)%nat.
Proof.
  unfold decode_integer.
  destruct (decode_tlv TAG_INTEGER bs) as [[content r]|] eqn:E;
    [|discriminate].
  intros H. injection H as _ <-. apply (decode_tlv_shrinks _ _ _ _ E).
Qed.

Lemma decode_integers_le (k : nat) (bs rest : list byte) (xs : list Z) :
  decode_integers k bs = Some (xs, rest) -> (length rest <= length bs)%nat.
Proof.
  revert bs xs. induction k as [|k IH]; intros bs xs.
  - cbn [decode_integers]. intros H. injection H as _ <-. lia.
  - cbn [decode_integers].
    destruct (decode_integer bs) as [[a r]|] eqn:E; [|discriminate].
    destruct (decode_integers k r) as [[ys r']|] eqn:E'; [|discriminate].
    intros H. injection H as _ <-.
    pose proof (decode_integer_shrinks _ _ _ E). pose proof (IH _ _ E'). lia.
Qed.

Lemma decode_prime_info_more (bs rest extra : list byte) (xs : list Z) :
  decode_prime_info bs = Some (xs, rest) ->
  decode_prime_info (bs ++ extra) = Some (xs, rest ++ extra).
Proof.
  apply decode_sequence_more.
  intros c r r' ex a H _. apply (decode_integers_more _ _ _ ex _ H).
Qed.

Lemma decode_prime_info_head (bs rest : list byte) (xs : list Z) :
  decode_prime_info bs = Some (xs, rest) ->
  exists tl, bs = TAG_SEQUENCE :: tl.
Proof. apply decode_sequence_head. Qed.

Lemma decode_prime_info_shrinks (bs rest : list byte) (xs : list Z) :
  decode_prime_info bs = Some (xs, rest) -> (length rest < length bs)%nat.
Proof.
  apply decode_sequence_shrinks.
  intros c r a H. apply (decode_integers_le _ _ _ _ H).
Qed.

(** The further primes are read with all the fuel they need. *)
Lemma decode_prime_items_fuel (fuel : nat) (bs : list byte) :
  (length bs <= fuel)%nat ->
  decode_items decode_prime_info fuel bs
  = decode_items decode_prime_info (length bs) bs
  /\ decode_items_eoc decode_prime_info fuel bs
     = decode_items_eoc decode_prime_info (length bs) bs.
Proof.
  intros H. split.
  - apply (decode_items_fuel _ decode_prime_info_shrinks _ _ H).
  - apply (decode_items_eoc_fuel _ decode_prime_info_shrinks _ _ H).
Qed.

Lemma decode_prime_infos_more (bs rest rest' extra : list byte)
    (infos : option (list (list Z))) :
  decode_prime_infos bs = Some (infos, rest) ->
  check_eoc rest = Some rest' ->
  decode_prime_infos (bs ++ extra) = Some (infos, rest ++ extra).
Proof.
  destruct bs as [|b bs].
  - cbn [decode_prime_infos]. intros H. injection H as <- <-. discriminate.
  - change ((b :: bs) ++ extra) with (b :: (bs ++ extra)).
    unfold decode_prime_infos.
    change (b :: (bs ++ extra)) with ((b :: bs) ++ extra).
    destruct (check_eoc (b :: bs)) as [r|] eqn:E.
    + intros H _. injection H as <- <-.
      rewrite (check_eoc_more _ _ extra E). reflexivity.
    + destruct (decode_sequence_of decode_prime_info (b :: bs))
        as [[xs r]|] eqn:Es; [|discriminate].
      intros H _. injection H as <- <-.
      destruct (decode_sequence_of_head _ _ _ _ Es) as (tl & Etl).
      injection Etl as -> ->.
      rewrite (decode_sequence_of_more _ decode_prime_info_more
                 decode_prime_info_head _ _ extra _ Es).
      cbn [app]. destruct (tl ++ extra); reflexivity.
Qed.

Lemma private_key_fields_more (bs rest rest' extra : list byte)
    (a : Z * list Z * option (list (list Z))) :
  private_key_fields bs = Some (a, rest) ->
  check_eoc rest = Some rest' ->
  private_key_fields (bs ++ extra) = Some (a, rest ++ extra).
Proof.
  unfold private_key_fields.
  destruct (decode_int32 bs) as [[v r]|] eqn:E; [|discriminate].
  rewrite (decode_int32_more _ _ extra _ E).
  destruct (decode_integers 8 r) as [[xs r']|] eqn:E'; [|discriminate].
  rewrite (decode_integers_more _ _ _ extra _ E').
  destruct (decode_prime_infos r') as [[infos r'']|] eqn:E''; [|discriminate].
  intros H He. injection H as <- <-.
  rewrite (decode_prime_infos_more _ _ _ extra _ E'' He). reflexivity.
Qed.

Lemma public_key_fields_more (bs rest rest' extra : list byte)
    (xs : list Z) :
  public_key_fields bs = Some (xs, rest) ->
  check_eoc rest = Some rest' ->
  public_key_fields (bs ++ extra) = Some (xs, rest ++ extra).
Proof. intros H _. apply (decode_integers_more _ _ _ extra _ H). Qed.

(** An INTEGER is not the list of the further primes. *)
Lemma decode_prime_infos_integer (bs : list byte) :
  decode_prime_infos (TAG_INTEGER :: bs) = None.
Proof. destruct bs; reflexivity. Qed.

(** The version 0 as the encoder writes it. *)
Lemma decode_int32_zero (body : list byte) :
  decode_int32 (x02 :: x01 :: x00 :: body) = Some (0, body).
Proof.
  unfold decode_int32, decode_tlv.
  change (Byte.eqb x02 TAG_INTEGER) with true. cbv iota.
  change (decode_length (x01 :: x00 :: body)) with (Some (1, x00 :: body)).
  cbv iota beta.
  change (take 1 (x00 :: body))
    with (take (Z.of_nat (length [x00])) ([x00] ++ body)).
  rewrite take_app. reflexivity.
Qed.

Lemma encode_integer_zero : encode_integer 0 = Some [x02; x01; x00].
Proof. reflexivity. Qed.

End ASN1Facts.
(** ** Export and import *)

Section Serialization.

(** What the decoder returns always has its eight numbers. *)
Lemma d2i_RSAPrivateKey_full (raw rest : list byte) (r : RSA) :
  d2i_RSAPrivateKey raw = Some (r, rest) ->
  exists n e d p q dp dq qi,
    r = mk_RSA (Some n) (Some e) (Some d) (Some p) (Some q)
          (Some dp) (Some dq) (Some qi).
Proof.
  unfold d2i_RSAPrivateKey.
  destruct (ASN1.decode_sequence ASN1.private_key_fields raw)
    as [[[[version xs] infos] rest']|]; [|discriminate].
  destruct (_ && _); [discriminate|].
  do 8 (destruct xs as [|? xs]; [discriminate|]).
  destruct xs; [|discriminate].
  intros H. injection H as <- _. repeat eexists.
Qed.

Lemma d2i_RSAPublicKey_full (raw rest : list byte) (r : RSA) :
  d2i_RSAPublicKey raw = Some (r, rest) ->
  exists n e, r = mk_RSA (Some n) (Some e) None None None None None None.
Proof.
  unfold d2i_RSAPublicKey.
  destruct (ASN1.decode_sequence ASN1.public_key_fields raw)
    as [[xs rest']|]; [|discriminate].
  do 2 (destruct xs as [|? xs]; [discriminate|]).
  destruct xs; [|discriminate].
  intros H. injection H as <- _. repeat eexists.
Qed.

Lemma privkey_import_none_iff (raw : list byte) :
  bcrypto_rsa_privkey_import raw = None <-> d2i_RSAPrivateKey raw = None.
Proof.
  unfold bcrypto_rsa_privkey_import.
  destruct (d2i_RSAPrivateKey raw) as [[r rest]|] eqn:E;
    [|split; reflexivity].
  destruct (d2i_RSAPrivateKey_full _ _ _ E)
    as (n & e & d & p & q & dp & dq & qi & ->).
  split; discriminate.
Qed.

Lemma pubkey_import_none_iff (raw : list byte) :
  bcrypto_rsa_pubkey_import raw = None <-> d2i_RSAPublicKey raw = None.
Proof.
  unfold bcrypto_rsa_pubkey_import.
  destruct (d2i_RSAPublicKey raw) as [[r rest]|] eqn:E;
    [|split; reflexivity].
  destruct (d2i_RSAPublicKey_full _ _ _ E) as (n & e & ->).
  split; discriminate.
Qed.

Lemma d2i_RSAPrivateKey_more (raw rest extra : list byte) (r : RSA) :
  d2i_RSAPrivateKey raw = Some (r, rest) ->
  d2i_RSAPrivateKey (raw ++ extra) = Some (r, rest ++ extra).
Proof.
  unfold d2i_RSAPrivateKey.
  destruct (ASN1.decode_sequence ASN1.private_key_fields raw)
    as [[[[version xs] infos] rest']|] eqn:E; [|discriminate].
  rewrite (ASN1Facts.decode_sequence_more _
             ASN1Facts.private_key_fields_more _ _ extra _ E).
  destruct (_ && _); [discriminate|].
  do 8 (destruct xs as [|? xs]; [discriminate|]).
  destruct xs; [|discriminate].
  intros H. injection H as <- <-. reflexivity.
Qed.

Lemma d2i_RSAPublicKey_more (raw rest extra : list byte) (r : RSA) :
  d2i_RSAPublicKey raw = Some (r, rest) ->
  d2i_RSAPublicKey (raw ++ extra) = Some (r, rest ++ extra).
Proof.
  unfold d2i_RSAPublicKey.
  destruct (ASN1.decode_sequence ASN1.public_key_fields raw)
    as [[xs rest']|] eqn:E; [|discriminate].
  rewrite (ASN1Facts.decode_sequence_more _
             ASN1Facts.public_key_fields_more _ _ extra _ E).
  do 2 (destruct xs as [|? xs]; [discriminate|]).
  destruct xs; [|discriminate].
  intros H. injection H as <- <-. reflexivity.
Qed.

(** Import does not look at the bytes behind the structure. *)
Lemma privkey_import_more (raw extra : list byte) (k : bcrypto_rsa_key_t) :
  bcrypto_rsa_privkey_import raw = Some k ->
  bcrypto_rsa_privkey_import (raw ++ extra) = Some k.
Proof.
  unfold bcrypto_rsa_privkey_import.
  destruct (d2i_RSAPrivateKey raw) as [[r rest]|] eqn:E; [|discriminate].
  rewrite (d2i_RSAPrivateKey_more _ _ extra _ E). trivial.
Qed.

Lemma pubkey_import_more (raw extra : list byte) (k : bcrypto_rsa_key_t) :
  bcrypto_rsa_pubkey_import raw = Some k ->
  bcrypto_rsa_pubkey_import (raw ++ extra) = Some k.
Proof.
  unfold bcrypto_rsa_pubkey_import.
  destruct (d2i_RSAPublicKey raw) as [[r rest]|] eqn:E; [|discriminate].
  rewrite (d2i_RSAPublicKey_more _ _ extra _ E). trivial.
Qed.

(** The fields of a private key are not read from INTEGERs of another
    count than nine. *)
Lemma private_key_fields_contents_count (vc : list byte)
    (cs : list (list byte)) (content : list byte) :
  ASN1.encode_contents (vc :: cs) = Some content -> length cs <> 8%nat ->
  ASN1.private_key_fields content = None.
Proof.
  cbn [ASN1.encode_contents].
  destruct (ASN1.encode_tlv ASN1.TAG_INTEGER vc) as [h|] eqn:Eh;
    [|discriminate].
  destruct (ASN1.encode_contents cs) as [t|] eqn:Et; [|discriminate].
  intros H Hn. injection H as <-.
  unfold ASN1.private_key_fields, ASN1.decode_int32.
  rewrite (ASN1Facts.decode_encode_tlv _ _ _ t Eh).
  destruct (ASN1.int32_c2i vc) as [version|]; [|reflexivity].
  destruct (ASN1Facts.decode_contents_count cs 8 t Et Hn)
    as [->|(ys & r & ->)]; [reflexivity|].
  rewrite ASN1Facts.decode_prime_infos_integer. reflexivity.
Qed.

Lemma private_key_fields_count (xs : list Z) (content : list byte) :
  ASN1.encode_integers xs = Some content -> length xs <> 9%nat ->
  ASN1.private_key_fields content = None.
Proof.
  rewrite ASN1Facts.encode_integers_contents.
  destruct xs as [|v xs].
  - intros H _. injection H as <-. reflexivity.
  - cbn [map length]. intros H Hn.
    apply (private_key_fields_contents_count _ _ _ H).
    rewrite length_map. lia.
Qed.

(** A SEQUENCE of INTEGERs of the wrong count is refused. *)
Lemma privkey_import_count (xs : list Z) (enc extra : list byte) :
  ASN1.encode_sequence xs = Some enc -> length xs <> 9%nat ->
  bcrypto_rsa_privkey_import (enc ++ extra) = None.
Proof.
  unfold ASN1.encode_sequence.
  destruct (ASN1.encode_integers xs) as [content|] eqn:Ec; [|discriminate].
  intros He Hn. unfold bcrypto_rsa_privkey_import, d2i_RSAPrivateKey.
  rewrite (ASN1Facts.decode_sequence_definite _ _ _ extra He).
  rewrite (private_key_fields_count xs content Ec Hn). reflexivity.
Qed.

Lemma pubkey_import_count (xs : list Z) (enc extra : list byte) :
  ASN1.encode_sequence xs = Some enc -> length xs <> 2%nat ->
  bcrypto_rsa_pubkey_import (enc ++ extra) = None.
Proof.
  unfold ASN1.encode_sequence.
  destruct (ASN1.encode_integers xs) as [content|] eqn:Ec; [|discriminate].
  intros He Hn. unfold bcrypto_rsa_pubkey_import, d2i_RSAPublicKey.
  rewrite (ASN1Facts.decode_sequence_definite _ _ _ extra He).
  unfold ASN1.public_key_fields.
  destruct (ASN1Facts.decode_integers_count xs 2 content Ec Hn)
    as [->|(ys & r & ->)]; reflexivity.
Qed.

(** A structure of version 0 whose eight INTEGERs have any contents is
    taken, and each number is the magnitude its contents spell. *)
Lemma d2i_RSAPrivateKey_contents (cn ce cd cp cq cdp cdq cqi : list byte)
    (body enc rest : list byte) :
  ASN1.encode_contents [cn; ce; cd; cp; cq; cdp; cdq; cqi] = Some body ->
  ASN1.encode_tlv ASN1.TAG_SEQUENCE ([x02; x01; x00] ++ body) = Some enc ->
  d2i_RSAPrivateKey (enc ++ rest)
  = Some (mk_RSA (Some (BN.of_bytes cn)) (Some (BN.of_bytes ce))
            (Some (BN.of_bytes cd)) (Some (BN.of_bytes cp))
            (Some (BN.of_bytes cq)) (Some (BN.of_bytes cdp))
            (Some (BN.of_bytes cdq)) (Some (BN.of_bytes cqi)), rest).
Proof.
  intros Hb He. unfold d2i_RSAPrivateKey.
  rewrite (ASN1Facts.decode_sequence_definite _ _ _ rest He).
  unfold ASN1.private_key_fields. cbn [app].
  rewrite ASN1Facts.decode_int32_zero.
  rewrite <- (app_nil_r body).
  change 8%nat with (length [cn; ce; cd; cp; cq; cdp; cdq; cqi]).
  rewrite (ASN1Facts.decode_contents _ _ [] Hb). reflexivity.
Qed.

Lemma d2i_RSAPublicKey_contents (cn ce : list byte)
    (body enc rest : list byte) :
  ASN1.encode_contents [cn; ce] = Some body ->
  ASN1.encode_tlv ASN1.TAG_SEQUENCE body = Some enc ->
  d2i_RSAPublicKey (enc ++ rest)
  = Some (mk_RSA (Some (BN.of_bytes cn)) (Some (BN.of_bytes ce))
            None None None None None None, rest).
Proof.
  intros Hb He. unfold d2i_RSAPublicKey.
  rewrite (ASN1Facts.decode_sequence_definite _ _ _ rest He).
  unfold ASN1.public_key_fields.
  rewrite <- (app_nil_r body).
  change 2%nat with (length [cn; ce]).
  rewrite (ASN1Facts.decode_contents _ _ [] Hb). reflexivity.
Qed.

(** Decoding what [i2d_RSAPrivateKey] wrote for non-negative numbers. *)
Lemma d2i_i2d_RSAPrivateKey (n e d p q dp dq qi : Z)
    (enc rest : list byte) :
  0 <= n -> 0 <= e -> 0 <= d -> 0 <= p -> 0 <= q ->
  0 <= dp -> 0 <= dq -> 0 <= qi ->
  i2d_RSAPrivateKey
    (mk_RSA (Some n) (Some e) (Some d) (Some p) (Some q)
       (Some dp) (Some dq) (Some qi)) = Some enc ->
  d2i_RSAPrivateKey (enc ++ rest)
  = Some (mk_RSA (Some n) (Some e) (Some d) (Some p) (Some q)
            (Some dp) (Some dq) (Some qi), rest).
Proof.
  intros Hn He Hd Hp Hq Hdp Hdq Hqi. unfold i2d_RSAPrivateKey.
  cbn [rsa_n rsa_e rsa_d rsa_p rsa_q rsa_dmp1 rsa_dmq1 rsa_iqmp].
  unfold ASN1.encode_sequence.
  change (ASN1.encode_integers [0; n; e; d; p; q; dp; dq; qi])
    with (do t <- ASN1.encode_integers [n; e; d; p; q; dp; dq; qi];
          Some ([x02; x01; x00] ++ t)).
  destruct (ASN1.encode_integers [n; e; d; p; q; dp; dq; qi])
    as [t|] eqn:Et; [|discriminate].
  intros H. unfold d2i_RSAPrivateKey.
  rewrite (ASN1Facts.decode_sequence_definite _ _ _ rest H).
  unfold ASN1.private_key_fields. cbn [app].
  rewrite ASN1Facts.decode_int32_zero.
  rewrite <- (app_nil_r t).
  change 8%nat with (length [n; e; d; p; q; dp; dq; qi]).
  rewrite (ASN1Facts.decode_encode_integers _ _ [] Et).
  cbn [map]. rewrite !Z.abs_eq by assumption. reflexivity.
Qed.

Lemma d2i_i2d_RSAPublicKey (n e : Z) (enc rest : list byte) :
  0 <= n -> 0 <= e ->
  i2d_RSAPublicKey
    (mk_RSA (Some n) (Some e) None None None None None None) = Some enc ->
  d2i_RSAPublicKey (enc ++ rest)
  = Some (mk_RSA (Some n) (Some e) None None None None None None, rest).
Proof.
  intros Hn He. unfold i2d_RSAPublicKey. cbn [rsa_n rsa_e].
  unfold ASN1.encode_sequence.
  destruct (ASN1.encode_integers [n; e]) as [t|] eqn:Et; [|discriminate].
  intros H. unfold d2i_RSAPublicKey.
  rewrite (ASN1Facts.decode_sequence_definite _ _ _ rest H).
  unfold ASN1.public_key_fields.
  rewrite <- (app_nil_r t).
  change 2%nat with (length [n; e]).
  rewrite (ASN1Facts.decode_encode_integers _ _ [] Et).
  cbn [map]. rewrite !Z.abs_eq by assumption. reflexivity.
Qed.

End Serialization.

Section ExportSucceeds.

Lemma encode_integer_some (a : Z) :
  BN.num_bytes a <= 2048 ->
  exists enc, ASN1.encode_integer a = Some enc
              /\ Z.of_nat (length enc) <= 2053.
Proof.
  intros Ha. pose proof (ASN1Facts.length_bn_i2c a) as Hl.
  destruct (ASN1Facts.encode_tlv_some ASN1.TAG_INTEGER (ASN1.bn_i2c a))
    as (enc & He & Hlen); [change (2 ^ 16) with 65536; lia|].
  exists enc. split; [exact He|lia].
Qed.

Lemma encode_integers_some (xs : list Z) :
  Forall (fun a => BN.num_bytes a <= 2048) xs ->
  exists enc, ASN1.encode_integers xs = Some enc
              /\ Z.of_nat (length enc) <= 2053 * Z.of_nat (length xs).
Proof.
  induction 1 as [|a xs Ha _ IH].
  - exists []. split; [reflexivity|cbn; lia].
  - destruct (encode_integer_some a Ha) as (h & Hh & Lh).
    destruct IH as (t & Ht & Lt).
    exists (h ++ t). cbn [ASN1.encode_integers]. rewrite Hh, Ht.
    split; [reflexivity|]. rewrite length_app. cbn [length]. lia.
Qed.

Lemma encode_sequence_some (xs : list Z) :
  Forall (fun a => BN.num_bytes a <= 2048) xs ->
  (length xs <= 9)%nat ->
  exists enc, ASN1.encode_sequence xs = Some enc
              /\ 0 < Z.of_nat (length enc).
Proof.
  intros Hxs Hn. unfold ASN1.encode_sequence.
  destruct (encode_integers_some xs Hxs) as (content & -> & Lc).
  destruct (ASN1Facts.encode_tlv_some ASN1.TAG_SEQUENCE content)
    as (enc & He & _); [change (2 ^ 16) with 65536; lia|].
  exists enc. split; [exact He|].
  pose proof (ASN1Facts.encode_tlv_nonempty _ _ _ He).
  destruct enc; [contradiction|]. cbn [length]. lia.
Qed.

Lemma num_bytes_of_bits (a : Z) :
  BN.num_bits a <= 16384 -> BN.num_bytes a <= 2048.
Proof.
  intros H. unfold BN.num_bytes.
  assert ((BN.num_bits a + 7) / 8 < 2049)
    by (apply Z.div_lt_upper_bound; lia).
  lia.
Qed.

Lemma num_bytes_zero : BN.num_bytes 0 <= 2048.
Proof. cbn. lia. Qed.

Variable key : bcrypto_rsa_key_t.
Hypothesis Hfits : key_fits key.

(** The numbers of a valid private key have at most 16384 bits each. *)
Lemma sane_privkey_sizes :
  bcrypto_rsa_sane_privkey (Some key) = true ->
  Forall (fun a => BN.num_bytes a <= 2048)
    [0; BN.bin2bn (nd key); BN.bin2bn (ed key); BN.bin2bn (dd key);
     BN.bin2bn (pd key); BN.bin2bn (qd key); BN.bin2bn (dpd key);
     BN.bin2bn (dqd key); BN.bin2bn (qid key)].
Proof.
  destruct Hfits as (Fn & Fe & Fd & Fp & Fq & Fdp & Fdq & Fqi).
  intros Hs.
  apply (proj1 (sane_privkey_spec key Fp Fq)) in Hs.
  destruct Hs as (Hpub & Hd & Hpq & Hdp & Hdq & Hqi).
  apply (proj1 (sane_pubkey_spec key)) in Hpub.
  destruct Hpub as (Hn & He & _).
  rewrite (count_bits_num_bits _ Fn) in *.
  rewrite (count_bits_num_bits _ Fe) in *.
  rewrite (count_bits_num_bits _ Fd) in *.
  rewrite (count_bits_num_bits _ Fp) in *.
  rewrite (count_bits_num_bits _ Fq) in *.
  rewrite (count_bits_num_bits _ Fdp) in *.
  rewrite (count_bits_num_bits _ Fdq) in *.
  rewrite (count_bits_num_bits _ Fqi) in *.
  repeat (apply Forall_cons; [first [apply num_bytes_zero
                                    |apply num_bytes_of_bits; lia]|]).
  apply Forall_nil.
Qed.

Lemma sane_pubkey_sizes :
  bcrypto_rsa_sane_pubkey (Some key) = true ->
  Forall (fun a => BN.num_bytes a <= 2048)
    [BN.bin2bn (nd key); BN.bin2bn (ed key)].
Proof.
  destruct Hfits as (Fn & Fe & _).
  intros Hpub.
  apply (proj1 (sane_pubkey_spec key)) in Hpub.
  destruct Hpub as (Hn & He & _).
  rewrite (count_bits_num_bits _ Fn) in *.
  rewrite (count_bits_num_bits _ Fe) in *.
  repeat (apply Forall_cons; [apply num_bytes_of_bits; lia|]).
  apply Forall_nil.
Qed.

(** Every length of the key is an [int]. *)
Hypothesis Hint : key_int_sized key.

(** Export of a valid private key succeeds, and import of the bytes
    gives the key in normal form. *)
Lemma privkey_export_import :
  bcrypto_rsa_sane_privkey (Some key) = true ->
  exists buf,
    bcrypto_rsa_privkey_export (Some key) = Some buf
    /\ forall extra,
        bcrypto_rsa_privkey_import (buf ++ extra)
        = Some (normalize_key key).
Proof.
  intros Hs. pose proof (sane_privkey_sizes Hs) as Hsz.
  destruct (encode_sequence_some _ Hsz ltac:(cbn; lia)) as (enc & He & Le).
  exists enc. unfold bcrypto_rsa_privkey_export.
  rewrite Hs, (key2priv_some key Hint). cbn [negb].
  assert (Hi : i2d_RSAPrivateKey
                 (mk_RSA (Some (BN.bin2bn (nd key))) (Some (BN.bin2bn (ed key)))
                    (Some (BN.bin2bn (dd key))) (Some (BN.bin2bn (pd key)))
                    (Some (BN.bin2bn (qd key))) (Some (BN.bin2bn (dpd key)))
                    (Some (BN.bin2bn (dqd key))) (Some (BN.bin2bn (qid key))))
               = Some enc) by exact He.
  rewrite Hi.
  destruct (Z.leb_spec (Z.of_nat (length enc)) 0) as [|_]; [lia|].
  split; [reflexivity|]. intros extra.
  unfold bcrypto_rsa_privkey_import.
  rewrite (d2i_i2d_RSAPrivateKey _ _ _ _ _ _ _ _ _ extra
             (bin2bn_nonneg _) (bin2bn_nonneg _) (bin2bn_nonneg _)
             (bin2bn_nonneg _) (bin2bn_nonneg _) (bin2bn_nonneg _)
             (bin2bn_nonneg _) (bin2bn_nonneg _) Hi).
  reflexivity.
Qed.

Lemma pubkey_export_import :
  bcrypto_rsa_sane_pubkey (Some key) = true ->
  exists buf,
    bcrypto_rsa_pubkey_export (Some key) = Some buf
    /\ forall extra,
        bcrypto_rsa_pubkey_import (buf ++ extra)
        = Some {| nd := normalize (nd key); ed := normalize (ed key);
                  dd := None; pd := None; qd := None;
                  dpd := None; dqd := None; qid := None |}.
Proof.
  intros Hs. pose proof (sane_pubkey_sizes Hs) as Hsz.
  destruct (encode_sequence_some _ Hsz ltac:(cbn; lia)) as (enc & He & Le).
  exists enc. unfold bcrypto_rsa_pubkey_export.
  rewrite Hs. cbn [negb].
  destruct Hint as (Hin & Hie & _).
  rewrite (key2pub_some key Hin Hie).
  assert (Hi : i2d_RSAPublicKey
                 (mk_RSA (Some (BN.bin2bn (nd key)))
                    (Some (BN.bin2bn (ed key)))
                    None None None None None None)
               = Some enc) by exact He.
  rewrite Hi.
  destruct (Z.leb_spec (Z.of_nat (length enc)) 0) as [|_]; [lia|].
  split; [reflexivity|]. intros extra.
  unfold bcrypto_rsa_pubkey_import.
  rewrite (d2i_i2d_RSAPublicKey _ _ _ extra
             (bin2bn_nonneg _) (bin2bn_nonneg _) Hi).
  reflexivity.
Qed.

End ExportSucceeds.

Section NormalForm.

Lemma normal_iff_minimal (buf : option (list byte)) :
  normal buf <-> exists bs, buf = Some bs /\ minimal bs.
Proof.
  unfold normal, minimal. split.
  - intros H. destruct buf as [bs|]; [|discriminate H].
    exists bs. split; [reflexivity|].
    cbn [BN.bin2bn] in H. rewrite bn2bin_of_bytes in H.
    injection H as H. symmetry. exact H.
  - intros (bs & -> & H). cbn [BN.bin2bn].
    rewrite bn2bin_of_bytes, H. reflexivity.
Qed.

Lemma normalize_key_fixed (key : bcrypto_rsa_key_t) :
  normalize_key key = key <-> key_normal key.
Proof.
  destruct key as [n e d p q dp dq qi].
  unfold normalize_key, key_normal, normal, normalize.
  cbn [nd ed dd pd qd dpd dqd qid]. split.
  - intros H. injection H as Hn He Hd Hp Hq Hdp Hdq Hqi.
    repeat split; symmetry; assumption.
  - intros (Hn & He & Hd & Hp & Hq & Hdp & Hdq & Hqi).
    rewrite <- Hn, <- He, <- Hd, <- Hp, <- Hq, <- Hdp, <- Hdq, <- Hqi.
    reflexivity.
Qed.

End NormalForm.

(** C6, as the code has it. For every key whose buffers are shorter than
    2^31 bytes and that [is_valid_private] accepts, export succeeds, and
    importing the exported bytes yields the key with the leading zero bytes
    of each buffer stripped; this is the key itself exactly when no buffer
    of the key starts with a zero byte. *)
Theorem export_import_roundtrip (key : bcrypto_rsa_key_t) :
  key_int_sized key ->
  bcrypto_rsa_sane_privkey (Some key) = true ->
  exists buf,
    bcrypto_rsa_privkey_export (Some key) = Some buf
    /\ bcrypto_rsa_privkey_import buf = Some (normalize_key key)
    /\ (bcrypto_rsa_privkey_import buf = Some key <-> key_normal key).
Proof.
  intros Hi Hs.
  destruct (privkey_export_import key (key_int_sized_fits _ Hi) Hi Hs)
    as (buf & He & Him).
  exists buf. split; [exact He|].
  specialize (Him []). rewrite app_nil_r in Him.
  split; [exact Him|].
  rewrite Him, <- normalize_key_fixed. split.
  - intros H. injection H as H. exact H.
  - intros ->. reflexivity.
Qed.

Lemma export_import_roundtrip_witness :
  exists buf,
    bcrypto_rsa_privkey_export (Some key512) = Some buf
    /\ bcrypto_rsa_privkey_import buf = Some (normalize_key key512)
    /\ (bcrypto_rsa_privkey_import buf = Some key512 <-> key_normal key512).
Proof.
  apply (export_import_roundtrip key512).
  - vm_compute. repeat split; reflexivity.
  - vm_compute. reflexivity.
Defined.

(** C6 as stated fails: [key_padded] satisfies the private-key invariants,
    yet decoding its encoding gives the exponent on three bytes where the
    key has it on four. *)
Lemma export_import_strips_padding :
  bcrypto_rsa_sane_privkey (Some key_padded) = true
  /\ (do buf <- bcrypto_rsa_privkey_export (Some key_padded);
      bcrypto_rsa_privkey_import buf) = Some key512
  /\ key512 <> key_padded.
Proof.
  split; [vm_compute; reflexivity|].
  split; [vm_compute; reflexivity|].
  intros H. apply (f_equal ed) in H. discriminate H.
Qed.

(** C7, as the code has it. Private-key and public-key import return no
    key exactly when the decoder refuses the front of the input, as it does
    for a SEQUENCE of INTEGERs of the wrong count. Bytes that follow the
    ASN.1 sequence are not looked at, so an input with trailing bytes
    yields the same key as the input without them. The contents of the
    INTEGERs n, e, d, p, q, dp, dq, qInv are not checked for a sign: they are
    read as a magnitude, so that a negative INTEGER is taken as the positive
    number its contents spell (stated for structures of less than 2^16
    bytes). *)
Theorem import_fails_iff_decoder_fails :
  (forall raw,
      bcrypto_rsa_privkey_import raw = None <-> d2i_RSAPrivateKey raw = None)
  /\ (forall raw,
      bcrypto_rsa_pubkey_import raw = None <-> d2i_RSAPublicKey raw = None)
  /\ (forall xs enc extra,
      ASN1.encode_sequence xs = Some enc -> length xs <> 9%nat ->
      bcrypto_rsa_privkey_import (enc ++ extra) = None)
  /\ (forall xs enc extra,
      ASN1.encode_sequence xs = Some enc -> length xs <> 2%nat ->
      bcrypto_rsa_pubkey_import (enc ++ extra) = None)
  /\ (forall raw extra k,
      bcrypto_rsa_privkey_import raw = Some k ->
      bcrypto_rsa_privkey_import (raw ++ extra) = Some k)
  /\ (forall raw extra k,
      bcrypto_rsa_pubkey_import raw = Some k ->
      bcrypto_rsa_pubkey_import (raw ++ extra) = Some k)
  /\ (forall cn ce cd cp cq cdp cdq cqi body enc extra,
      ASN1.encode_contents [cn; ce; cd; cp; cq; cdp; cdq; cqi] = Some body ->
      Z.of_nat (length body) < 2 ^ 16 ->
      ASN1.encode_tlv ASN1.TAG_SEQUENCE ([x02; x01; x00] ++ body) = Some enc ->
      bcrypto_rsa_privkey_import (enc ++ extra)
      = Some {| nd := Some (BN.bn2bin (BN.of_bytes cn));
                ed := Some (BN.bn2bin (BN.of_bytes ce));
                dd := Some (BN.bn2bin (BN.of_bytes cd));
                pd := Some (BN.bn2bin (BN.of_bytes cp));
                qd := Some (BN.bn2bin (BN.of_bytes cq));
                dpd := Some (BN.bn2bin (BN.of_bytes cdp));
                dqd := Some (BN.bn2bin (BN.of_bytes cdq));
                qid := Some (BN.bn2bin (BN.of_bytes cqi)) |})
  /\ (forall cn ce body enc extra,
      ASN1.encode_contents [cn; ce] = Some body ->
      Z.of_nat (length body) < 2 ^ 16 ->
      ASN1.encode_tlv ASN1.TAG_SEQUENCE body = Some enc ->
      bcrypto_rsa_pubkey_import (enc ++ extra)
      = Some {| nd := Some (BN.bn2bin (BN.of_bytes cn));
                ed := Some (BN.bn2bin (BN.of_bytes ce));
                dd := None; pd := None; qd := None;
                dpd := None; dqd := None; qid := None |}).
Proof.
  split; [apply privkey_import_none_iff|].
  split; [apply pubkey_import_none_iff|].
  split; [apply privkey_import_count|].
  split; [apply pubkey_import_count|].
  split; [intros raw extra k; apply privkey_import_more|].
  split; [intros raw extra k; apply pubkey_import_more|].
  split.
  - intros cn ce cd cp cq cdp cdq cqi body enc extra Hb _ He.
    unfold bcrypto_rsa_privkey_import.
    rewrite (d2i_RSAPrivateKey_contents _ _ _ _ _ _ _ _ _ _ extra Hb He).
    reflexivity.
  - intros cn ce body enc extra Hb _ He.
    unfold bcrypto_rsa_pubkey_import.
    rewrite (d2i_RSAPublicKey_contents _ _ _ _ extra Hb He).
    reflexivity.
Qed.

Lemma import_fails_iff_decoder_fails_witness :
  bcrypto_rsa_privkey_import (der_tiny_pub ++ []) = None
  /\ bcrypto_rsa_pubkey_import (der_tiny_priv ++ []) = None
  /\ bcrypto_rsa_privkey_import (der_tiny_priv ++ [xff]) = Some key_tiny
  /\ bcrypto_rsa_privkey_import (der_negative_n ++ []) = Some key_255.
Proof.
  pose proof import_fails_iff_decoder_fails
    as (_ & _ & Hpriv & Hpub & Hmore & _ & Hmag & _).
  split; [|split; [|split]].
  - apply (Hpriv [15; 2]); [vm_compute; reflexivity|discriminate].
  - apply (Hpub [0; 15; 2; 1; 3; 5; 1; 1; 1]);
      [vm_compute; reflexivity|discriminate].
  - apply Hmore. vm_compute. reflexivity.
  - apply (Hmag [xff] [x02] [x01] [x03] [x05] [x01] [x01] [x01]
             (skipn 5 der_negative_n) der_negative_n []);
      vm_compute; reflexivity.
Defined.

(** C7 as stated fails twice. Bytes after the ASN.1 sequence are accepted;
    and the INTEGER of contents [ff], which is -1 in DER, is accepted as
    the modulus 255. *)
Lemma import_accepts_trailing_garbage :
  bcrypto_rsa_privkey_import (der_tiny_priv ++ [xde; xad; xbe; xef])
  = Some key_tiny
  /\ bcrypto_rsa_pubkey_import (der_tiny_pub ++ [x00]) = Some key_tiny_pub
  /\ (do buf <- bcrypto_rsa_privkey_export (Some key512);
      bcrypto_rsa_privkey_import (buf ++ [x00])) = Some key512
  /\ ASN1.signed_value [xff] = -1
  /\ bcrypto_rsa_privkey_import der_negative_n = Some key_255
  /\ BN.bin2bn (nd key_255) = 255.
Proof. repeat split; vm_compute; reflexivity. Qed.

(** C9. Import applies no validity check. Whenever the decoder succeeds,
    private-key and public-key import return the key made of the decoded
    numbers, and they fail only when the decoder fails; so the key of
    [der_tiny_priv], with a 4-bit modulus and an even exponent, is
    returned. Export refuses a key that the validator refuses. *)
Theorem import_does_not_validate :
  (forall raw r rest,
      d2i_RSAPrivateKey raw = Some (r, rest) ->
      exists k, bcrypto_rsa_priv2key (Some r) = Some k
                /\ bcrypto_rsa_privkey_import raw = Some k)
  /\ (forall raw r rest,
      d2i_RSAPublicKey raw = Some (r, rest) ->
      exists k, bcrypto_rsa_pub2key (Some r) = Some k
                /\ bcrypto_rsa_pubkey_import raw = Some k)
  /\ (forall raw,
      bcrypto_rsa_privkey_import raw = None ->
      d2i_RSAPrivateKey raw = None)
  /\ (forall raw,
      bcrypto_rsa_pubkey_import raw = None ->
      d2i_RSAPublicKey raw = None)
  /\ (bcrypto_rsa_privkey_import der_tiny_priv = Some key_tiny
      /\ bcrypto_rsa_sane_privkey (Some key_tiny) = false
      /\ bcrypto_count_bits (nd key_tiny) = 4
      /\ Z.even (BN.bin2bn (ed key_tiny)) = true)
  /\ (bcrypto_rsa_pubkey_import der_tiny_pub = Some key_tiny_pub
      /\ bcrypto_rsa_sane_pubkey (Some key_tiny_pub) = false)
  /\ (forall key,
      bcrypto_rsa_sane_privkey key = false ->
      bcrypto_rsa_privkey_export key = None)
  /\ (forall key,
      bcrypto_rsa_sane_pubkey key = false ->
      bcrypto_rsa_pubkey_export key = None).
Proof.
  split; [|split; [|split; [|split; [|split; [|split; [|split]]]]]].
  - intros raw r rest H.
    destruct (d2i_RSAPrivateKey_full _ _ _ H)
      as (n & e & d & p & q & dp & dq & qi & ->).
    eexists. split; [reflexivity|].
    unfold bcrypto_rsa_privkey_import. rewrite H. reflexivity.
  - intros raw r rest H.
    destruct (d2i_RSAPublicKey_full _ _ _ H) as (n & e & ->).
    eexists. split; [reflexivity|].
    unfold bcrypto_rsa_pubkey_import. rewrite H. reflexivity.
  - intros raw. apply privkey_import_none_iff.
  - intros raw. apply pubkey_import_none_iff.
  - vm_compute; repeat split; reflexivity.
  - vm_compute; repeat split; reflexivity.
  - intros key H. unfold bcrypto_rsa_privkey_export. rewrite H. reflexivity.
  - intros key H. unfold bcrypto_rsa_pubkey_export. rewrite H. reflexivity.
Qed.

Lemma import_does_not_validate_witness :
  exists k, bcrypto_rsa_priv2key
              (Some (mk_RSA (Some 15) (Some 2) (Some 1) (Some 3) (Some 5)
                       (Some 1) (Some 1) (Some 1))) = Some k
            /\ bcrypto_rsa_privkey_import der_tiny_priv = Some k.
Proof.
  apply (proj1 import_does_not_validate der_tiny_priv _ []).
  vm_compute. reflexivity.
Defined.

(** ** Cryptographic Operations Facade *)

Section Algorithms.

(** The identifiers are those of real digests, none is the error value. *)
Lemma rsa_type_supported (s : string) :
  In s supported_algorithms -> bcrypto_rsa_type (Some s) <> -1.
Proof.
  unfold supported_algorithms. cbn [In].
  intros [<-|[<-|[<-|[<-|[<-|[<-|[<-|[]]]]]]]]; vm_compute; discriminate.
Qed.

Lemma rsa_type_unsupported (s : string) :
  ~ In s supported_algorithms -> bcrypto_rsa_type (Some s) = -1.
Proof.
  unfold supported_algorithms, bcrypto_rsa_type, strcmp0. cbn [In].
  intros H.
  repeat match goal with
    | |- context [String.eqb s ?x] =>
        destruct (String.eqb_spec s x) as [->|_]; [exfalso; apply H; tauto|]
    end.
  reflexivity.
Qed.

(** A name is refused exactly when it is null or not one of the seven. *)
Lemma rsa_type_error_iff (alg : option string) :
  bcrypto_rsa_type alg = -1
  <-> (forall s, alg = Some s -> ~ In s supported_algorithms).
Proof.
  split.
  - intros H s -> Hin. exact (rsa_type_supported s Hin H).
  - destruct alg as [s|]; [|reflexivity].
    intros H. apply rsa_type_unsupported, H. reflexivity.
Qed.

End Algorithms.

(** C5. [verify] returns the boolean false when the algorithm name is not
    one of the supported names, when the public key fails
    [is_valid_public], when the signature is null or its length is outside
    [1, 3072], and when the primitive does not accept the signature for the
    message; its only results are the two booleans. *)
Theorem verify_returns_false
    (RSA_verify : Z -> list byte -> list byte -> RSA -> bool)
    (alg : option string) (msg sig : option (list byte))
    (pub : option bcrypto_rsa_key_t) :
  (forall s, alg = Some s -> ~ In s supported_algorithms)
  \/ bcrypto_rsa_sane_pubkey pub = false
  \/ ~ (1 <= len sig <= 3072)
  \/ (forall pub_r,
         bcrypto_rsa_key2pub pub = Some pub_r ->
         RSA_verify (bcrypto_rsa_type alg) (bytes msg) (bytes sig) pub_r
         = false) ->
  bcrypto_rsa_verify RSA_verify alg msg sig pub = false.
Proof.
  intros H. unfold bcrypto_rsa_verify.
  destruct (Z.eqb_spec (bcrypto_rsa_type alg) (-1)) as [|Ht]; [reflexivity|].
  destruct (is_null msg || (len msg <? 1) || (len msg >? 64));
    [reflexivity|].
  destruct (is_null sig || (len sig <? 1) || (len sig >? 3072)) eqn:Es;
    [reflexivity|].
  destruct (bcrypto_rsa_sane_pubkey pub) eqn:Ep; [|reflexivity].
  cbn [negb].
  destruct (bcrypto_rsa_key2pub pub) as [pub_r|] eqn:Ek; [|reflexivity].
  destruct H as [H|[H|[H|H]]].
  - exfalso. apply Ht, rsa_type_error_iff, H.
  - discriminate H.
  - exfalso. apply H.
    apply orb_false_iff in Es. destruct Es as [Es Hhi].
    apply orb_false_iff in Es. destruct Es as [_ Hlo].
    apply Z.ltb_ge in Hlo. rewrite Z.gtb_ltb in Hhi.
    apply Z.ltb_ge in Hhi. lia.
  - rewrite (H pub_r eq_refl). reflexivity.
Qed.

Lemma verify_returns_false_witness :
  bcrypto_rsa_verify (fun _ _ _ _ => true)
    (Some "md4"%string) (Some [x01]) (Some [x01]) (Some key512) = false
  /\ bcrypto_rsa_verify (fun _ _ _ _ => true)
       (Some "sha256"%string) (Some [x01]) (Some []) (Some key512) = false
  /\ bcrypto_rsa_verify (fun _ _ _ _ => false)
       (Some "sha256"%string) (Some [x01]) (Some [x01]) (Some key512) = false.
Proof.
  split; [|split]; apply verify_returns_false.
  - left. intros s E. injection E as <-. cbn.
    intros [H|[H|[H|[H|[H|[H|[H|[]]]]]]]]; discriminate H.
  - right. right. left. cbn. lia.
  - right. right. right. reflexivity.
Defined.

(** C10. [verify] refuses a message that is null, empty or longer than 64
    bytes, whatever the signature, the key and the primitive, and [sign]
    refuses the same messages. *)
Theorem verify_checks_message_length
    (RSA_verify : Z -> list byte -> list byte -> RSA -> bool)
    (RSA_sign : Z -> list byte -> RSA -> option (list byte))
    (RSA_blinding_on : RSA -> bool)
    (alg : option string) (msg sig : option (list byte))
    (pub priv : option bcrypto_rsa_key_t) :
  msg = None \/ len msg = 0 \/ 64 < len msg ->
  bcrypto_rsa_verify RSA_verify alg msg sig pub = false
  /\ bcrypto_rsa_sign RSA_sign RSA_blinding_on alg msg priv = None.
Proof.
  intros H.
  assert (E : is_null msg || (len msg <? 1) || (len msg >? 64) = true).
  { rewrite Z.gtb_ltb. destruct H as [->|[H|H]].
    - reflexivity.
    - rewrite H. apply orb_true_iff. left. apply orb_true_r.
    - apply orb_true_iff. right. apply Z.ltb_lt. exact H. }
  unfold bcrypto_rsa_verify, bcrypto_rsa_sign. rewrite E.
  destruct (bcrypto_rsa_type alg =? -1); split; reflexivity.
Qed.

Lemma verify_checks_message_length_witness :
  bcrypto_rsa_verify (fun _ _ _ _ => true) (Some "sha256"%string)
    (Some (repeat x01 65)) (Some [x01]) (Some key512) = false
  /\ bcrypto_rsa_sign (fun _ m _ => Some m) (fun _ => true)
       (Some "sha256"%string) (Some (repeat x01 65)) (Some key512) = None.
Proof.
  apply verify_checks_message_length. right. right. vm_compute. reflexivity.
Defined.

(** * Further properties of the code *)

(** ** Bit counting and the relaxed validator *)

Section Normalization.

Lemma strip_leading_zeros (k : nat) (bs : list byte) :
  strip_zeros (repeat x00 k ++ bs) = strip_zeros bs.
Proof. induction k as [|k IH]; [reflexivity|exact IH]. Qed.

Lemma len_normalize_le (buf : option (list byte)) :
  len (normalize buf) <= len buf.
Proof.
  destruct buf as [bs|].
  - rewrite normalize_some. cbn [len]. pose proof (length_strip_le bs). lia.
  - cbn. lia.
Qed.

Lemma fits_normalize (buf : option (list byte)) :
  fits buf -> fits (normalize buf).
Proof. unfold fits. pose proof (len_normalize_le buf). lia. Qed.

Lemma bin2bn_normalize (buf : option (list byte)) :
  BN.bin2bn (normalize buf) = BN.bin2bn buf.
Proof.
  unfold normalize. rewrite bin2bn_bn2bin.
  apply Z.abs_eq, bin2bn_nonneg.
Qed.

Lemma count_bits_normalize (buf : option (list byte)) :
  fits buf -> bcrypto_count_bits (normalize buf) = bcrypto_count_bits buf.
Proof.
  intros H. rewrite !count_bits_num_bits by auto using fits_normalize.
  rewrite bin2bn_normalize. reflexivity.
Qed.

Lemma if_false_iff (c b : bool) :
  (if c then false else b) = true <-> c = false /\ b = true.
Proof.
  destruct c, b; split;
    first [ intros [Hc Hb]; first [discriminate Hc|discriminate Hb]
          | intros _; first [reflexivity|split; reflexivity]
          | intros H; discriminate H ].
Qed.

End Normalization.

(** X1. On a buffer shorter than 2^60 bytes, [bcrypto_count_bits] is the
    bit length of the integer the bytes denote: zero bytes put in front do
    not change it, it is at most eight times the length, and it is 0
    exactly when the integer is 0. *)
Theorem count_bits_significant (k : nat) (bs : list byte) :
  fits (Some (repeat x00 k ++ bs)) ->
  bcrypto_count_bits (Some (repeat x00 k ++ bs)) = bcrypto_count_bits (Some bs)
  /\ bcrypto_count_bits (Some bs) = BN.num_bits (BN.of_bytes bs)
  /\ 0 <= bcrypto_count_bits (Some bs) <= 8 * Z.of_nat (length bs)
  /\ (bcrypto_count_bits (Some bs) = 0 <-> BN.of_bytes bs = 0).
Proof.
  intros Hk.
  assert (Hb : fits (Some bs)).
  { unfold fits, len in *. rewrite length_app in Hk. lia. }
  split; [|split; [|split]].
  - rewrite !count_bits_spec by assumption.
    cbn [spec_bit_length]. rewrite strip_leading_zeros. reflexivity.
  - apply (count_bits_num_bits (Some bs) Hb).
  - apply (count_bits_le (Some bs) Hb).
  - apply (count_bits_zero_iff (Some bs) Hb).
Qed.

Lemma count_bits_significant_witness :
  bcrypto_count_bits (Some (repeat x00 3 ++ [x01; xff]))
  = bcrypto_count_bits (Some [x01; xff])
  /\ bcrypto_count_bits (Some [x01; xff]) = BN.num_bits (BN.of_bytes [x01; xff])
  /\ 0 <= bcrypto_count_bits (Some [x01; xff])
     <= 8 * Z.of_nat (length [x01; xff])
  /\ (bcrypto_count_bits (Some [x01; xff]) = 0
      <-> BN.of_bytes [x01; xff] = 0).
Proof.
  apply (count_bits_significant 3 [x01; xff]). vm_compute. reflexivity.
Defined.

(** Closes [b = false <-> P] once the comparisons are decided. *)
Ltac settle :=
  split; intros ?Hx;
  first [ reflexivity
        | lia
        | exfalso; lia
        | match goal with H : _ = _ |- _ => discriminate H end
        | tauto ].

Section Tests.

Variables a b c : Z.

Lemma test_any_zero :
  (a =? 0) || (b =? 0) = false <-> a <> 0 /\ b <> 0.
Proof. zcases; settle. Qed.

Lemma test_both_zero :
  (a =? 0) && (b =? 0) = false <-> a <> 0 \/ b <> 0.
Proof. zcases; settle. Qed.

Lemma test_modulus :
  negb (a =? 0) && ((a <? 512) || (a >? 16384) || negb (b =? a)) = false
  <-> (a <> 0 -> 512 <= a <= 16384 /\ b = a).
Proof. zcases; settle. Qed.

Lemma test_exponent (even : bool) :
  negb (a =? 0) && ((a <? 2) || (a >? 33) || even) = false
  <-> (a <> 0 -> 2 <= a <= 33 /\ even = false).
Proof.
  destruct even; zcases; split; intros Hyp;
    first [ reflexivity
          | discriminate Hyp
          | intros _; split; [lia|reflexivity]
          | intros; exfalso; lia
          | exfalso;
            match goal with
            | E0 : a <> 0 |- _ =>
                destruct (Hyp E0) as [Hr Ht]; first [lia | discriminate Ht]
            end ].
Qed.

Lemma test_bound :
  negb (a =? 0) && (a >? b) = false <-> (a <> 0 -> a <= b).
Proof. zcases; settle. Qed.

End Tests.

(** The chain of tests of [bcrypto_rsa_sane_compute] over arbitrary bit
    lengths; [s] is the [size_t] sum of the two factor lengths and [even]
    the outcome of the parity test. *)
Lemma sane_compute_chain (nb eb db pb qb dpb dqb qib s : Z) (even : bool) :
  (if (pb =? 0) || (qb =? 0) then false
   else if (eb =? 0) && (db =? 0) then false
   else if negb (nb =? 0)
             && ((nb <? 512) || (nb >? 16384) || negb (s =? nb)) then false
   else if negb (eb =? 0) && ((eb <? 2) || (eb >? 33) || even) then false
   else if negb (db =? 0) && (db >? s) then false
   else if negb (dpb =? 0) && (dpb >? pb) then false
   else if negb (dqb =? 0) && (dqb >? qb) then false
   else if negb (qib =? 0) && (qib >? pb) then false
   else true) = true <->
    (pb <> 0 /\ qb <> 0)
    /\ (eb <> 0 \/ db <> 0)
    /\ (nb <> 0 -> 512 <= nb <= 16384 /\ s = nb)
    /\ (eb <> 0 -> 2 <= eb <= 33 /\ even = false)
    /\ (db <> 0 -> db <= s)
    /\ (dpb <> 0 -> dpb <= pb)
    /\ (dqb <> 0 -> dqb <= qb)
    /\ (qib <> 0 -> qib <= pb).
Proof.
  rewrite !if_false_iff.
  rewrite test_any_zero, test_both_zero, test_modulus, test_exponent,
    !test_bound.
  split; [intros (Ka & Kb & Kc & Kd & Ke & Kf & Kg & Kh & _)|
          intros (Ka & Kb & Kc & Kd & Ke & Kf & Kg & Kh)];
    repeat (split; [assumption|]); first [assumption|reflexivity].
Qed.

Section ComputeValidator.

Variable key : bcrypto_rsa_key_t.

Let nb := bcrypto_count_bits (nd key).
Let eb := bcrypto_count_bits (ed key).
Let db := bcrypto_count_bits (dd key).
Let pb := bcrypto_count_bits (pd key).
Let qb := bcrypto_count_bits (qd key).
Let dpb := bcrypto_count_bits (dpd key).
Let dqb := bcrypto_count_bits (dqd key).
Let qib := bcrypto_count_bits (qid key).

(** The relaxed validator as the code computes it. *)
Lemma sane_compute_unfold :
  bcrypto_rsa_sane_compute (Some key) = true <->
    (pb <> 0 /\ qb <> 0)
    /\ (eb <> 0 \/ db <> 0)
    /\ (nb <> 0 -> 512 <= nb <= 16384 /\ size_t_wrap (pb + qb) = nb)
    /\ (eb <> 0 -> 2 <= eb <= 33 /\ ed_last_is_even key = false)
    /\ (db <> 0 -> db <= size_t_wrap (pb + qb))
    /\ (dpb <> 0 -> dpb <= pb)
    /\ (dqb <> 0 -> dqb <= qb)
    /\ (qib <> 0 -> qib <= pb).
Proof.
  unfold bcrypto_rsa_sane_compute. apply sane_compute_chain.
Qed.

End ComputeValidator.

Section Parity.

Variable key : bcrypto_rsa_key_t.

Lemma ed_last_odd_iff :
  0 < bcrypto_count_bits (ed key) ->
  (ed_last_is_even key = false <-> Z.testbit (BN.bin2bn (ed key)) 0 = true).
Proof.
  intros H. rewrite ed_last_is_even_spec by exact H.
  destruct (Z.testbit (BN.bin2bn (ed key)) 0); cbn [negb]; split;
    intros E; first [reflexivity|discriminate E].
Qed.

End Parity.

(** X2. [bcrypto_rsa_sane_compute], the validator of the completion
    mode, accepts a key whose p and q buffers fit exactly when p and q are
    present, e or d is present, a present n has 512 to 16384 bits and
    bitlen(p) + bitlen(q) bits, a present e has 2 to 33 bits and is odd,
    and d, dp, dq, qInv are no longer than bitlen(p) + bitlen(q), bitlen(p),
    bitlen(q), bitlen(p); a null key is refused. *)
Theorem sane_compute_iff (key : bcrypto_rsa_key_t) :
  fits (pd key) -> fits (qd key) ->
  (bcrypto_rsa_sane_compute (Some key) = true <->
     0 < bcrypto_count_bits (pd key)
     /\ 0 < bcrypto_count_bits (qd key)
     /\ (0 < bcrypto_count_bits (ed key) \/ 0 < bcrypto_count_bits (dd key))
     /\ (bcrypto_count_bits (nd key) <> 0 ->
         512 <= bcrypto_count_bits (nd key) <= 16384
         /\ bcrypto_count_bits (pd key) + bcrypto_count_bits (qd key)
            = bcrypto_count_bits (nd key))
     /\ (bcrypto_count_bits (ed key) <> 0 ->
         2 <= bcrypto_count_bits (ed key) <= 33
         /\ Z.testbit (BN.bin2bn (ed key)) 0 = true)
     /\ bcrypto_count_bits (dd key)
        <= bcrypto_count_bits (pd key) + bcrypto_count_bits (qd key)
     /\ bcrypto_count_bits (dpd key) <= bcrypto_count_bits (pd key)
     /\ bcrypto_count_bits (dqd key) <= bcrypto_count_bits (qd key)
     /\ bcrypto_count_bits (qid key) <= bcrypto_count_bits (pd key))
  /\ bcrypto_rsa_sane_compute None = false.
Proof.
  intros Hp Hq. split; [|reflexivity].
  pose proof (factor_sum_exact key Hp Hq) as Hsum. cbv zeta in Hsum.
  pose proof (sane_compute_unfold key) as Hu. cbv zeta in Hu.
  rewrite Hsum in Hu. rewrite Hu. clear Hu Hsum.
  pose proof (ed_last_odd_iff key) as Hodd.
  pose proof (count_bits_nonneg (nd key)) as Nn.
  pose proof (count_bits_nonneg (ed key)) as Ne.
  pose proof (count_bits_nonneg (dd key)) as Nd.
  pose proof (count_bits_nonneg (pd key)) as Np.
  pose proof (count_bits_nonneg (qd key)) as Nq.
  pose proof (count_bits_nonneg (dpd key)) as Ndp.
  pose proof (count_bits_nonneg (dqd key)) as Ndq.
  pose proof (count_bits_nonneg (qid key)) as Nqi.
  revert Hodd Nn Ne Nd Np Nq Ndp Ndq Nqi.
  generalize (ed_last_is_even key) (Z.testbit (BN.bin2bn (ed key)) 0).
  generalize (bcrypto_count_bits (nd key)) (bcrypto_count_bits (ed key))
    (bcrypto_count_bits (dd key)) (bcrypto_count_bits (pd key))
    (bcrypto_count_bits (qd key)) (bcrypto_count_bits (dpd key))
    (bcrypto_count_bits (dqd key)) (bcrypto_count_bits (qid key)).
  intros nb eb db pb qb dpb dqb qib even odd Hodd Nn Ne Nd Np Nq Ndp Ndq Nqi.
  split.
  - intros ((Kp & Kq) & Ked & Kn & Ke & Kd & Kdp & Kdq & Kqi).
    split; [lia|]. split; [lia|]. split; [lia|]. split; [exact Kn|].
    split.
    { intros E. destruct (Ke E) as [Kr Kev]. split; [exact Kr|].
      apply Hodd; [lia|exact Kev]. }
    split; [|split; [|split]].
    + destruct (Z.eq_dec db 0) as [->|E]; [lia|apply Kd, E].
    + destruct (Z.eq_dec dpb 0) as [->|E]; [lia|apply Kdp, E].
    + destruct (Z.eq_dec dqb 0) as [->|E]; [lia|apply Kdq, E].
    + destruct (Z.eq_dec qib 0) as [->|E]; [lia|apply Kqi, E].
  - intros (Kp & Kq & Ked & Kn & Ke & Kd & Kdp & Kdq & Kqi).
    split; [lia|]. split; [lia|]. split; [exact Kn|].
    split.
    { intros E. destruct (Ke E) as [Kr Kev]. split; [exact Kr|].
      apply Hodd; [lia|exact Kev]. }
    split; [|split; [|split]]; intros _; assumption.
Qed.

(** Replaces the bit lengths of closed buffers by their values. *)
Ltac eval_bits :=
  repeat match goal with
    | |- context [bcrypto_count_bits ?b] =>
        let v := eval vm_compute in (bcrypto_count_bits b) in
        change (bcrypto_count_bits b) with v
    | |- context [Z.testbit ?a ?i] =>
        let v := eval vm_compute in (Z.testbit a i) in
        change (Z.testbit a i) with v
    end.

Lemma sane_compute_iff_witness :
  bcrypto_rsa_sane_compute (Some key_pqe) = true
  /\ bcrypto_rsa_sane_compute (Some key_tiny_pub) = false.
Proof.
  split.
  - apply (proj2 (proj1 (sane_compute_iff key_pqe
                             ltac:(vm_compute; reflexivity)
                             ltac:(vm_compute; reflexivity)))).
    eval_bits.
    split; [lia|]. split; [lia|]. split; [lia|]. split; [lia|].
    split; [intros _; split; [lia|reflexivity]|]. lia.
  - destruct (bcrypto_rsa_sane_compute (Some key_tiny_pub)) eqn:E;
      [|reflexivity].
    apply (proj1 (proj1 (sane_compute_iff key_tiny_pub
                           ltac:(vm_compute; reflexivity)
                           ltac:(vm_compute; reflexivity)))) in E.
    destruct E as (Hp & _). vm_compute in Hp. discriminate Hp.
Defined.

(** X3. A key that [bcrypto_rsa_sane_privkey] accepts is accepted by
    [bcrypto_rsa_sane_compute] and needs no completion, so
    [bcrypto_rsa_privkey_compute] returns true with a null key on it and
    computes nothing. *)
Theorem valid_private_key_is_complete
    (key : bcrypto_rsa_key_t) (key0 : option bcrypto_rsa_key_t) :
  bcrypto_rsa_sane_privkey (Some key) = true ->
  bcrypto_rsa_sane_pubkey (Some key) = true
  /\ bcrypto_rsa_sane_compute (Some key) = true
  /\ bcrypto_rsa_needs_compute (Some key) = false
  /\ bcrypto_rsa_privkey_compute (Some key) key0 = (true, None).
Proof.
  intros Hs.
  pose proof (proj1 (sane_privkey_unfold key) Hs) as Hu. cbv zeta in Hu.
  destruct Hu as (Hpub & Hd & Hsum & Hdp & Hdq & Hqi).
  pose proof (proj1 (sane_pubkey_spec key) Hpub) as (Hn & He & Hodd).
  assert (Hc : bcrypto_rsa_sane_compute (Some key) = true).
  { apply (proj2 (sane_compute_unfold key)). cbv zeta.
    rewrite Hsum.
    pose proof (proj2 (ed_last_odd_iff key ltac:(lia)) Hodd) as Hev.
    revert Hn He Hd Hdp Hdq Hqi Hev.
    generalize (ed_last_is_even key).
    generalize (bcrypto_count_bits (nd key)) (bcrypto_count_bits (ed key))
      (bcrypto_count_bits (dd key)) (bcrypto_count_bits (pd key))
      (bcrypto_count_bits (qd key)) (bcrypto_count_bits (dpd key))
      (bcrypto_count_bits (dqd key)) (bcrypto_count_bits (qid key)).
    intros nb eb db pb qb dpb dqb qib even Hn He Hd Hdp Hdq Hqi Hev.
    split; [lia|]. split; [lia|]. split; [intros _; lia|].
    split; [intros _; split; [lia|exact Hev]|].
    split; [|split; [|split]]; intros _; lia. }
  assert (Hnc : bcrypto_rsa_needs_compute (Some key) = false).
  { unfold bcrypto_rsa_needs_compute.
    revert Hn He Hd Hdp Hdq Hqi.
    generalize (bcrypto_count_bits (nd key)) (bcrypto_count_bits (ed key))
      (bcrypto_count_bits (dd key)) (bcrypto_count_bits (pd key))
      (bcrypto_count_bits (qd key)) (bcrypto_count_bits (dpd key))
      (bcrypto_count_bits (dqd key)) (bcrypto_count_bits (qid key)).
    intros nb eb db pb qb dpb dqb qib Hn He Hd Hdp Hdq Hqi.
    zcases; first [reflexivity|lia]. }
  split; [exact Hpub|]. split; [exact Hc|]. split; [exact Hnc|].
  unfold bcrypto_rsa_privkey_compute. rewrite Hc, Hnc. reflexivity.
Qed.

Lemma valid_private_key_is_complete_witness :
  bcrypto_rsa_sane_pubkey (Some key512) = true
  /\ bcrypto_rsa_sane_compute (Some key512) = true
  /\ bcrypto_rsa_needs_compute (Some key512) = false
  /\ bcrypto_rsa_privkey_compute (Some key512) (Some key_tiny) = (true, None).
Proof.
  apply (valid_private_key_is_complete key512 (Some key_tiny)).
  vm_compute. reflexivity.
Defined.

(** ** Conversions, normal form and the serialization functions *)

Section ValidatorsAndNormalForm.

Variable key : bcrypto_rsa_key_t.
Hypothesis Hfits : key_fits key.

Lemma key_fits_normalize : key_fits (normalize_key key).
Proof.
  destruct Hfits as (Fn & Fe & Fd & Fp & Fq & Fdp & Fdq & Fqi).
  unfold key_fits, normalize_key. cbn [nd ed dd pd qd dpd dqd qid].
  repeat split; apply fits_normalize; assumption.
Qed.

Lemma ed_last_normalize :
  0 < bcrypto_count_bits (ed key) ->
  ed_last_is_even (normalize_key key) = ed_last_is_even key.
Proof.
  destruct Hfits as (_ & Fe & _). intros H.
  rewrite (ed_last_is_even_spec key H).
  rewrite ed_last_is_even_spec.
  - cbn [normalize_key ed]. rewrite bin2bn_normalize. reflexivity.
  - cbn [normalize_key ed]. rewrite count_bits_normalize by exact Fe. exact H.
Qed.

Lemma sane_pubkey_normalize :
  bcrypto_rsa_sane_pubkey (Some (normalize_key key))
  = bcrypto_rsa_sane_pubkey (Some key).
Proof.
  destruct Hfits as (Fn & Fe & _).
  pose proof (count_bits_nonneg (ed key)) as Ne.
  unfold bcrypto_rsa_sane_pubkey.
  cbn [normalize_key nd ed].
  rewrite !count_bits_normalize by assumption.
  destruct ((_ <? 512) || _); [reflexivity|].
  destruct (Z.ltb_spec (bcrypto_count_bits (ed key)) 2) as [|He];
    [reflexivity|].
  cbn [orb]. destruct (_ >? 33); [reflexivity|].
  rewrite ed_last_normalize by lia. reflexivity.
Qed.

Lemma sane_privkey_normalize :
  bcrypto_rsa_sane_privkey (Some (normalize_key key))
  = bcrypto_rsa_sane_privkey (Some key).
Proof.
  destruct Hfits as (Fn & Fe & Fd & Fp & Fq & Fdp & Fdq & Fqi).
  unfold bcrypto_rsa_sane_privkey. rewrite sane_pubkey_normalize.
  cbn [normalize_key nd ed dd pd qd dpd dqd qid].
  rewrite !count_bits_normalize by assumption. reflexivity.
Qed.

Lemma sane_compute_normalize :
  bcrypto_rsa_sane_compute (Some (normalize_key key))
  = bcrypto_rsa_sane_compute (Some key).
Proof.
  destruct Hfits as (Fn & Fe & Fd & Fp & Fq & Fdp & Fdq & Fqi).
  pose proof (count_bits_nonneg (ed key)) as Ne.
  unfold bcrypto_rsa_sane_compute.
  cbn [normalize_key nd ed dd pd qd dpd dqd qid].
  rewrite !count_bits_normalize by assumption.
  destruct (Z.eqb_spec (bcrypto_count_bits (ed key)) 0) as [E|E].
  - cbn [negb andb]. reflexivity.
  - rewrite ed_last_normalize by lia. reflexivity.
Qed.

Lemma needs_compute_normalize :
  bcrypto_rsa_needs_compute (Some (normalize_key key))
  = bcrypto_rsa_needs_compute (Some key).
Proof.
  destruct Hfits as (Fn & Fe & Fd & Fp & Fq & Fdp & Fdq & Fqi).
  unfold bcrypto_rsa_needs_compute.
  cbn [normalize_key nd ed dd pd qd dpd dqd qid].
  rewrite !count_bits_normalize by assumption. reflexivity.
Qed.

End ValidatorsAndNormalForm.

Lemma int_sized_normalize (buf : option (list byte)) :
  int_sized buf -> int_sized (normalize buf).
Proof. unfold int_sized. pose proof (len_normalize_le buf). lia. Qed.

Lemma key_int_sized_normalize (key : bcrypto_rsa_key_t) :
  key_int_sized key -> key_int_sized (normalize_key key).
Proof.
  unfold key_int_sized, normalize_key. cbn [nd ed dd pd qd dpd dqd qid].
  intros (Hn & He & Hd & Hp & Hq & Hdp & Hdq & Hqi).
  repeat split; apply int_sized_normalize; assumption.
Qed.

Lemma key2priv_normalize (key : bcrypto_rsa_key_t) :
  key_int_sized key ->
  bcrypto_rsa_key2priv (Some (normalize_key key))
  = bcrypto_rsa_key2priv (Some key).
Proof.
  intros Hi.
  rewrite (key2priv_some _ Hi),
    (key2priv_some _ (key_int_sized_normalize _ Hi)).
  cbn [normalize_key nd ed dd pd qd dpd dqd qid].
  rewrite !bin2bn_normalize. reflexivity.
Qed.

(** A number of [int] byte count, written by [BN_bn2bin]. *)
Lemma int_sized_bn2bin (a : Z) :
  BN.num_bits a <= 16384 -> int_sized (Some (BN.bn2bin a)).
Proof.
  intros H. unfold int_sized. cbn [len].
  rewrite BNFacts.length_bn2bin.
  pose proof (num_bytes_of_bits a H). lia.
Qed.

(** X4. Converting a key to the OpenSSL object and back
    ([bcrypto_rsa_key2priv] then [bcrypto_rsa_priv2key]) gives the key in
    normal form: the same eight integers, every buffer non-null and without
    leading zero bytes. This holds for a key whose buffers are shorter than
    2^31 bytes, the lengths being handed to [BN_bin2bn] as [int], and whose
    numbers have at most 16384 bits. In the other direction, an object
    holding eight non-negative numbers of at most 16384 bits is restored
    exactly. A null argument gives a null result in both functions. *)
Theorem key_object_roundtrip (key : bcrypto_rsa_key_t) :
  key_int_sized key ->
  key_bits_bounded key ->
  bcrypto_rsa_priv2key (bcrypto_rsa_key2priv (Some key))
  = Some (normalize_key key)
  /\ key_normal (normalize_key key)
  /\ bcrypto_rsa_key2priv (Some (normalize_key key))
     = bcrypto_rsa_key2priv (Some key)
  /\ (forall n e d p q dp dq qi,
         0 <= n -> 0 <= e -> 0 <= d -> 0 <= p -> 0 <= q ->
         0 <= dp -> 0 <= dq -> 0 <= qi ->
         BN.num_bits n <= 16384 -> BN.num_bits e <= 16384 ->
         BN.num_bits d <= 16384 -> BN.num_bits p <= 16384 ->
         BN.num_bits q <= 16384 -> BN.num_bits dp <= 16384 ->
         BN.num_bits dq <= 16384 -> BN.num_bits qi <= 16384 ->
         let r := mk_RSA (Some n) (Some e) (Some d) (Some p) (Some q)
                    (Some dp) (Some dq) (Some qi) in
         bcrypto_rsa_key2priv (bcrypto_rsa_priv2key (Some r)) = Some r)
  /\ bcrypto_rsa_key2priv None = None
  /\ bcrypto_rsa_priv2key None = None.
Proof.
  intros Hi _.
  split; [rewrite (key2priv_some _ Hi); reflexivity|]. split.
  { unfold key_normal, normalize_key. cbn [nd ed dd pd qd dpd dqd qid].
    repeat split; apply normal_bn2bin. }
  split; [apply key2priv_normalize, Hi|].
  split; [|split; reflexivity].
  intros n e d p q dp dq qi Hn He Hd Hp Hq Hdp Hdq Hqi
    Bn Be Bd Bp Bq Bdp Bdq Bqi r. subst r.
  cbn [bcrypto_rsa_priv2key rsa_n rsa_e rsa_d rsa_p rsa_q rsa_dmp1 rsa_dmq1
         rsa_iqmp].
  rewrite key2priv_some.
  - cbn [nd ed dd pd qd dpd dqd qid].
    rewrite !bin2bn_bn2bin, !Z.abs_eq by assumption. reflexivity.
  - unfold key_int_sized. cbn [nd ed dd pd qd dpd dqd qid].
    repeat split; apply int_sized_bn2bin; assumption.
Qed.

Lemma key_object_roundtrip_witness :
  bcrypto_rsa_priv2key (bcrypto_rsa_key2priv (Some key_padded))
  = Some (normalize_key key_padded)
  /\ bcrypto_rsa_key2priv (Some (normalize_key key_padded))
     = bcrypto_rsa_key2priv (Some key_padded).
Proof.
  pose proof (key_object_roundtrip key_padded
                ltac:(vm_compute; repeat split; reflexivity)
                ltac:(vm_compute; repeat split; discriminate))
    as (H1 & _ & H3 & _).
  split; [exact H1|exact H3].
Defined.

(** X5. The validators look at the integers only: for a key whose buffers
    fit, [bcrypto_rsa_sane_pubkey], [bcrypto_rsa_sane_privkey],
    [bcrypto_rsa_sane_compute] and [bcrypto_rsa_needs_compute] give the same
    answer on the key and on the key with the leading zero bytes of every
    buffer removed. *)
Theorem validators_ignore_leading_zeros (key : bcrypto_rsa_key_t) :
  key_fits key ->
  bcrypto_rsa_sane_pubkey (Some (normalize_key key))
  = bcrypto_rsa_sane_pubkey (Some key)
  /\ bcrypto_rsa_sane_privkey (Some (normalize_key key))
     = bcrypto_rsa_sane_privkey (Some key)
  /\ bcrypto_rsa_sane_compute (Some (normalize_key key))
     = bcrypto_rsa_sane_compute (Some key)
  /\ bcrypto_rsa_needs_compute (Some (normalize_key key))
     = bcrypto_rsa_needs_compute (Some key).
Proof.
  intros Hf. split; [|split; [|split]].
  - apply sane_pubkey_normalize, Hf.
  - apply sane_privkey_normalize, Hf.
  - apply sane_compute_normalize, Hf.
  - apply needs_compute_normalize, Hf.
Qed.

Lemma validators_ignore_leading_zeros_witness :
  bcrypto_rsa_sane_pubkey (Some (normalize_key key_padded))
  = bcrypto_rsa_sane_pubkey (Some key_padded)
  /\ bcrypto_rsa_sane_privkey (Some (normalize_key key_padded))
     = bcrypto_rsa_sane_privkey (Some key_padded)
  /\ bcrypto_rsa_sane_compute (Some (normalize_key key_padded))
     = bcrypto_rsa_sane_compute (Some key_padded)
  /\ bcrypto_rsa_needs_compute (Some (normalize_key key_padded))
     = bcrypto_rsa_needs_compute (Some key_padded).
Proof.
  apply (validators_ignore_leading_zeros key_padded).
  vm_compute. repeat split; reflexivity.
Defined.

(** X6. The exported bytes depend on the integers only, and export after
    import gives the same bytes: for a valid private key whose buffers are
    shorter than 2^31 bytes, [bcrypto_rsa_privkey_export] produces the same
    encoding for the key and for its normal form, and the key that
    [bcrypto_rsa_privkey_import] reads from that encoding is again valid and
    exports to the same bytes. *)
Theorem export_is_canonical (key : bcrypto_rsa_key_t) :
  key_int_sized key ->
  bcrypto_rsa_sane_privkey (Some key) = true ->
  exists buf imported,
    bcrypto_rsa_privkey_export (Some key) = Some buf
    /\ bcrypto_rsa_privkey_export (Some (normalize_key key)) = Some buf
    /\ bcrypto_rsa_privkey_import buf = Some imported
    /\ bcrypto_rsa_sane_privkey (Some imported) = true
    /\ bcrypto_rsa_privkey_export (Some imported) = Some buf.
Proof.
  intros Hint Hs. pose proof (key_int_sized_fits _ Hint) as Hf.
  destruct (privkey_export_import key Hf Hint Hs) as (buf & He & Hi).
  exists buf, (normalize_key key).
  assert (Hn : bcrypto_rsa_privkey_export (Some (normalize_key key))
               = Some buf).
  { rewrite <- He. unfold bcrypto_rsa_privkey_export.
    rewrite (sane_privkey_normalize key Hf), (key2priv_normalize key Hint).
    reflexivity. }
  split; [exact He|]. split; [exact Hn|].
  split; [specialize (Hi []); rewrite app_nil_r in Hi; exact Hi|].
  split; [rewrite (sane_privkey_normalize key Hf); exact Hs|exact Hn].
Qed.

Lemma export_is_canonical_witness :
  exists buf imported,
    bcrypto_rsa_privkey_export (Some key_padded) = Some buf
    /\ bcrypto_rsa_privkey_export (Some (normalize_key key_padded)) = Some buf
    /\ bcrypto_rsa_privkey_import buf = Some imported
    /\ bcrypto_rsa_sane_privkey (Some imported) = true
    /\ bcrypto_rsa_privkey_export (Some imported) = Some buf.
Proof.
  apply (export_is_canonical key_padded).
  - vm_compute. repeat split; reflexivity.
  - vm_compute. reflexivity.
Defined.

(** X7. Public-key round trip. For a key whose buffers are shorter than
    2^31 bytes and that [bcrypto_rsa_sane_pubkey] accepts,
    [bcrypto_rsa_pubkey_export] succeeds and [bcrypto_rsa_pubkey_import]
    reads back, even with bytes appended, a key holding n and e in normal
    form and nothing else: d, p, q, dp, dq, qInv are null whatever the
    exported key held. The imported key is again a valid public key. *)
Theorem pubkey_roundtrip (key : bcrypto_rsa_key_t) :
  key_int_sized key ->
  bcrypto_rsa_sane_pubkey (Some key) = true ->
  exists buf imported,
    bcrypto_rsa_pubkey_export (Some key) = Some buf
    /\ (forall extra,
           bcrypto_rsa_pubkey_import (buf ++ extra) = Some imported)
    /\ nd imported = normalize (nd key)
    /\ ed imported = normalize (ed key)
    /\ (dd imported = None /\ pd imported = None /\ qd imported = None
        /\ dpd imported = None /\ dqd imported = None
        /\ qid imported = None)
    /\ bcrypto_rsa_sane_pubkey (Some imported) = true.
Proof.
  intros Hint Hs. pose proof (key_int_sized_fits _ Hint) as Hf.
  destruct (pubkey_export_import key Hf Hint Hs) as (buf & He & Hi).
  eexists buf, _. split; [exact He|]. split; [exact Hi|].
  cbn [nd ed dd pd qd dpd dqd qid].
  split; [reflexivity|]. split; [reflexivity|].
  split; [repeat split; reflexivity|].
  rewrite <- Hs, <- (sane_pubkey_normalize key Hf). reflexivity.
Qed.

Lemma pubkey_roundtrip_witness :
  exists buf imported,
    bcrypto_rsa_pubkey_export (Some key512) = Some buf
    /\ (forall extra,
           bcrypto_rsa_pubkey_import (buf ++ extra) = Some imported)
    /\ nd imported = normalize (nd key512)
    /\ ed imported = normalize (ed key512)
    /\ (dd imported = None /\ pd imported = None /\ qd imported = None
        /\ dpd imported = None /\ dqd imported = None
        /\ qid imported = None)
    /\ bcrypto_rsa_sane_pubkey (Some imported) = true.
Proof.
  apply (pubkey_roundtrip key512).
  - vm_compute. repeat split; reflexivity.
  - vm_compute. reflexivity.
Defined.

(** X8. What import returns. Every key that
    [bcrypto_rsa_privkey_import] returns has its eight buffers non-null and
    free of leading zero bytes. Every key that [bcrypto_rsa_pubkey_import]
    returns has n and e in that form and null private fields, so it is
    never a valid private key and it always needs completion. *)
Theorem imported_keys_are_normal (raw : list byte)
    (key : bcrypto_rsa_key_t) :
  (bcrypto_rsa_privkey_import raw = Some key -> key_normal key)
  /\ (bcrypto_rsa_pubkey_import raw = Some key ->
      normal (nd key) /\ normal (ed key)
      /\ dd key = None /\ pd key = None /\ qd key = None
      /\ dpd key = None /\ dqd key = None /\ qid key = None
      /\ bcrypto_rsa_sane_privkey (Some key) = false
      /\ bcrypto_rsa_needs_compute (Some key) = true).
Proof.
  split.
  - unfold bcrypto_rsa_privkey_import.
    destruct (d2i_RSAPrivateKey raw) as [[r rest]|] eqn:E;
      [|discriminate].
    destruct (d2i_RSAPrivateKey_full _ _ _ E)
      as (n & e & d & p & q & dp & dq & qi & ->).
    intros H. injection H as <-.
    unfold key_normal. cbn [nd ed dd pd qd dpd dqd qid].
    repeat split; apply normal_bn2bin.
  - unfold bcrypto_rsa_pubkey_import.
    destruct (d2i_RSAPublicKey raw) as [[r rest]|] eqn:E;
      [|discriminate].
    destruct (d2i_RSAPublicKey_full _ _ _ E) as (n & e & ->).
    intros H. injection H as <-. cbn [nd ed dd pd qd dpd dqd qid].
    split; [apply normal_bn2bin|]. split; [apply normal_bn2bin|].
    do 6 (split; [reflexivity|]).
    split.
    + unfold bcrypto_rsa_sane_privkey.
      destruct (bcrypto_rsa_sane_pubkey _); [|reflexivity].
      cbn [negb dd]. rewrite count_bits_null. reflexivity.
    + unfold bcrypto_rsa_needs_compute. cbn [dd]. rewrite count_bits_null.
      rewrite Z.eqb_refl, !orb_true_r. reflexivity.
Qed.

(** ** The operations facade *)

Section FacadeFacts.

Lemma length_check (buf : option (list byte)) (hi : Z) :
  is_null buf || (len buf <? 1) || (len buf >? hi) = false
  <-> exists bs, buf = Some bs /\ 1 <= Z.of_nat (length bs) <= hi.
Proof.
  rewrite Z.gtb_ltb. destruct buf as [bs|]; cbn [is_null len orb].
  - destruct (Z.ltb_spec (Z.of_nat (length bs)) 1) as [Hlo|Hlo],
      (Z.ltb_spec hi (Z.of_nat (length bs))) as [Hhi|Hhi]; cbn [orb]; split;
      intros Hyp;
      first [ discriminate Hyp
            | reflexivity
            | exists bs; split; [reflexivity|lia]
            | exfalso; destruct Hyp as (bs' & E & Hr);
              injection E as <-; lia ].
  - split; [intros H; discriminate H|intros (bs & E & _); discriminate E].
Qed.

Lemma nonempty_check (buf : option (list byte)) :
  is_null buf || (len buf <? 1) = false
  <-> exists bs, buf = Some bs /\ 1 <= Z.of_nat (length bs).
Proof.
  destruct buf as [bs|]; cbn [is_null len orb].
  - destruct (Z.ltb_spec (Z.of_nat (length bs)) 1) as [Hlo|Hlo]; split;
      intros Hyp;
      first [ discriminate Hyp
            | reflexivity
            | exists bs; split; [reflexivity|lia]
            | exfalso; destruct Hyp as (bs' & E & Hr);
              injection E as <-; lia ].
  - split; [intros H; discriminate H|intros (bs & E & _); discriminate E].
Qed.

Lemma rsa_type_ok_iff (alg : option string) :
  bcrypto_rsa_type alg <> -1
  <-> exists name, alg = Some name /\ In name supported_algorithms.
Proof.
  split.
  - intros H. destruct alg as [name|]; [|exfalso; apply H; reflexivity].
    exists name. split; [reflexivity|].
    destruct (in_dec string_dec name supported_algorithms) as [Hin|Hout];
      [exact Hin|].
    exfalso. apply H, rsa_type_unsupported, Hout.
  - intros (name & -> & Hin). apply rsa_type_supported, Hin.
Qed.

Lemma sane_pubkey_some (pub : option bcrypto_rsa_key_t) :
  bcrypto_rsa_sane_pubkey pub = true -> exists key, pub = Some key.
Proof. destruct pub as [key|]; [eauto|discriminate]. Qed.

Lemma sane_privkey_some (priv : option bcrypto_rsa_key_t) :
  bcrypto_rsa_sane_privkey priv = true -> exists key, priv = Some key.
Proof. destruct priv as [key|]; [eauto|discriminate]. Qed.

(** The size guards of the facade theorems, on a key pointer. *)
Lemma int_sized_fits_modulus (key : bcrypto_rsa_key_t) :
  int_sized (nd key) -> fits (nd key).
Proof. apply int_sized_fits. Qed.

End FacadeFacts.

(** X9. For a key whose modulus and exponent buffers are shorter than 2^31
    bytes, [bcrypto_rsa_verify] returns true exactly when the algorithm is
    one of the seven supported names, the message is non-null with 1 to 64
    bytes, the signature is non-null with 1 to 3072 bytes, the key passes
    [bcrypto_rsa_sane_pubkey] and the primitive accepts the signature; the
    object handed to the primitive holds n and e and no private number. *)
Theorem verify_true_iff
    (RSA_verify : Z -> list byte -> list byte -> RSA -> bool)
    (alg : option string) (msg sig : option (list byte))
    (pub : option bcrypto_rsa_key_t) :
  (forall key, pub = Some key -> int_sized (nd key) /\ int_sized (ed key)) ->
  (bcrypto_rsa_verify RSA_verify alg msg sig pub = true <->
     exists name m s key,
       alg = Some name /\ In name supported_algorithms
       /\ msg = Some m /\ 1 <= Z.of_nat (length m) <= 64
       /\ sig = Some s /\ 1 <= Z.of_nat (length s) <= 3072
       /\ pub = Some key /\ bcrypto_rsa_sane_pubkey (Some key) = true
       /\ RSA_verify (bcrypto_rsa_type alg) m s (public_object key) = true).
Proof.
  intros Hint. unfold bcrypto_rsa_verify. split.
  - destruct (Z.eqb_spec (bcrypto_rsa_type alg) (-1)) as [|Ht];
      [discriminate|].
    apply rsa_type_ok_iff in Ht. destruct Ht as (name & Ea & Hin).
    destruct (is_null msg || _ || _) eqn:Em; [discriminate|].
    apply length_check in Em. destruct Em as (m & Em & Hm).
    destruct (is_null sig || _ || _) eqn:Es; [discriminate|].
    apply length_check in Es. destruct Es as (s & Es & Hs).
    destruct (bcrypto_rsa_sane_pubkey pub) eqn:Ep; [|discriminate].
    destruct (sane_pubkey_some _ Ep) as (key & Ek). subst pub msg sig.
    destruct (Hint key eq_refl) as [Sn Se].
    cbn [negb]. rewrite (key2pub_some key Sn Se). cbn [bytes].
    destruct (RSA_verify _ m s _) eqn:Ev; [|discriminate].
    intros _. exists name, m, s, key. repeat split; try assumption; lia.
  - intros (name & m & s & key & Ea & Hin & Em & Hm & Es & Hs & Ek & Ep & Ev).
    assert (Ht : bcrypto_rsa_type alg <> -1)
      by (apply rsa_type_ok_iff; eauto).
    destruct (Z.eqb_spec (bcrypto_rsa_type alg) (-1)) as [|_];
      [contradiction|].
    rewrite (proj2 (length_check msg 64)) by eauto.
    rewrite (proj2 (length_check sig 3072)) by eauto.
    subst pub msg sig. destruct (Hint key eq_refl) as [Sn Se].
    rewrite Ep. cbn [negb]. rewrite (key2pub_some key Sn Se).
    cbn [bytes]. unfold public_object in Ev. rewrite Ev. reflexivity.
Qed.

Lemma verify_true_iff_witness :
  bcrypto_rsa_verify (fun _ _ _ _ => true) (Some "sha256"%string)
    (Some (repeat x01 32)) (Some (repeat x02 64)) (Some key512) = true.
Proof.
  apply (proj2 (verify_true_iff (fun _ _ _ _ => true) _ _ _ (Some key512)
                  ltac:(intros key E; injection E as <-;
                        vm_compute; split; reflexivity))).
  exists "sha256"%string, (repeat x01 32), (repeat x02 64), key512.
  split; [reflexivity|]. split; [vm_compute; tauto|].
  split; [reflexivity|]. split; [vm_compute; split; discriminate|].
  split; [reflexivity|]. split; [vm_compute; split; discriminate|].
  split; [reflexivity|]. split; [vm_compute; reflexivity|reflexivity].
Defined.

(** X10. For a key whose buffers are shorter than 2^31 bytes,
    [bcrypto_rsa_sign] returns a signature exactly when the algorithm is
    supported, the message is non-null with 1 to 64 bytes, the key passes
    [bcrypto_rsa_sane_privkey], blinding could be switched on and the
    primitive succeeds; the signature is the one the primitive produced. In
    particular nothing is signed when blinding fails. *)
Theorem sign_some_iff
    (RSA_sign : Z -> list byte -> RSA -> option (list byte))
    (RSA_blinding_on : RSA -> bool)
    (alg : option string) (msg : option (list byte))
    (priv : option bcrypto_rsa_key_t) (s : list byte) :
  (forall key, priv = Some key -> key_int_sized key) ->
  (bcrypto_rsa_sign RSA_sign RSA_blinding_on alg msg priv = Some s <->
     exists name m key,
       alg = Some name /\ In name supported_algorithms
       /\ msg = Some m /\ 1 <= Z.of_nat (length m) <= 64
       /\ priv = Some key /\ bcrypto_rsa_sane_privkey (Some key) = true
       /\ RSA_blinding_on (private_object key) = true
       /\ RSA_sign (bcrypto_rsa_type alg) m (private_object key) = Some s).
Proof.
  intros Hint. unfold bcrypto_rsa_sign. split.
  - destruct (Z.eqb_spec (bcrypto_rsa_type alg) (-1)) as [|Ht];
      [discriminate|].
    apply rsa_type_ok_iff in Ht. destruct Ht as (name & Ea & Hin).
    destruct (is_null msg || _ || _) eqn:Em; [discriminate|].
    apply length_check in Em. destruct Em as (m & Em & Hm).
    destruct (bcrypto_rsa_sane_privkey priv) eqn:Ep; [|discriminate].
    destruct (sane_privkey_some _ Ep) as (key & Ek). subst priv msg.
    cbn [negb]. rewrite (key2priv_some key (Hint key eq_refl)). cbn [bytes].
    fold (private_object key).
    destruct (RSA_blinding_on (private_object key)) eqn:Eb; [|discriminate].
    cbn [negb]. intros Hs.
    exists name, m, key. repeat split; try assumption; lia.
  - intros (name & m & key & Ea & Hin & Em & Hm & Ek & Ep & Eb & Es).
    assert (Ht : bcrypto_rsa_type alg <> -1)
      by (apply rsa_type_ok_iff; eauto).
    destruct (Z.eqb_spec (bcrypto_rsa_type alg) (-1)) as [|_];
      [contradiction|].
    rewrite (proj2 (length_check msg 64)) by eauto.
    subst priv msg. rewrite Ep. cbn [negb].
    rewrite (key2priv_some key (Hint key eq_refl)).
    fold (private_object key). rewrite Eb. cbn [negb bytes]. exact Es.
Qed.

Lemma sign_some_iff_witness :
  bcrypto_rsa_sign (fun _ m _ => Some m) (fun _ => true)
    (Some "sha256"%string) (Some (repeat x01 32)) (Some key512)
  = Some (repeat x01 32).
Proof.
  apply (proj2 (sign_some_iff (fun _ m _ => Some m) (fun _ => true)
                  _ _ (Some key512) _
                  ltac:(intros key E; injection E as <-;
                        vm_compute; repeat split; reflexivity))).
  exists "sha256"%string, (repeat x01 32), key512.
  split; [reflexivity|]. split; [vm_compute; tauto|].
  split; [reflexivity|]. split; [vm_compute; split; discriminate|].
  split; [reflexivity|]. split; [vm_compute; reflexivity|].
  split; reflexivity.
Defined.

Section Sizes.

Variable key : bcrypto_rsa_key_t.
Hypothesis Hfit : fits (nd key).

(** The modulus size in bytes, from the bit length the validator sees. *)
Lemma RSA_size_public :
  RSA_size (public_object key) = (bcrypto_count_bits (nd key) + 7) / 8.
Proof.
  unfold RSA_size, public_object. cbn [rsa_n].
  rewrite (count_bits_num_bits _ Hfit). reflexivity.
Qed.

Lemma RSA_size_sane :
  bcrypto_rsa_sane_pubkey (Some key) = true ->
  64 <= RSA_size (public_object key) <= 2048.
Proof.
  intros Hs. apply (proj1 (sane_pubkey_spec key)) in Hs.
  destruct Hs as (Hn & _). rewrite RSA_size_public.
  revert Hn. generalize (bcrypto_count_bits (nd key)). intros nb Hn.
  split.
  - apply Z.div_le_lower_bound; lia.
  - assert ((nb + 7) / 8 < 2049) by (apply Z.div_lt_upper_bound; lia). lia.
Qed.

End Sizes.

(** X11. For a key whose modulus and exponent buffers are shorter than
    2^31 bytes, [bcrypto_rsa_encrypt] returns a ciphertext exactly when the
    type is 0 (PKCS#1 v1.5) or 1 (OAEP), the message is non-null and not
    empty, the key passes [bcrypto_rsa_sane_pubkey], the message is no
    longer than the modulus size in bytes minus 11 (type 0) or minus 41
    (type 1), and the primitive succeeds. The primitive receives the exact
    message length and the padding mode of the type. *)
Theorem encrypt_some_iff
    (RSA_public_encrypt : Z -> list byte -> RSA -> Z -> option (list byte))
    (type : Z) (msg : option (list byte)) (pub : option bcrypto_rsa_key_t)
    (ct : list byte) :
  (forall key, pub = Some key -> int_sized (nd key) /\ int_sized (ed key)) ->
  (bcrypto_rsa_encrypt RSA_public_encrypt type msg pub = Some ct <->
     exists m key,
       (type = 0 \/ type = 1)
       /\ msg = Some m /\ 1 <= Z.of_nat (length m)
       /\ pub = Some key /\ bcrypto_rsa_sane_pubkey (Some key) = true
       /\ Z.of_nat (length m)
          <= (bcrypto_count_bits (nd key) + 7) / 8
             - (if type =? 0 then 11 else 41)
       /\ RSA_public_encrypt (Z.of_nat (length m)) m (public_object key)
            (if type =? 0 then RSA_PKCS1_PADDING else RSA_PKCS1_OAEP_PADDING)
          = Some ct).
Proof.
  intros Hint. unfold bcrypto_rsa_encrypt. rewrite Z.gtb_ltb. split.
  - destruct (Z.ltb_spec type 0) as [|Ht0]; [discriminate|].
    destruct (Z.ltb_spec 1 type) as [|Ht1]; [discriminate|]. cbn [orb].
    destruct (is_null msg || _) eqn:Em; [discriminate|].
    apply nonempty_check in Em. destruct Em as (m & Em & Hm).
    destruct (bcrypto_rsa_sane_pubkey pub) eqn:Ep; [|discriminate].
    destruct (sane_pubkey_some _ Ep) as (key & Ek). subst pub msg.
    destruct (Hint key eq_refl) as [Sn Se].
    pose proof (int_sized_fits_modulus key Sn) as Hfit.
    cbn [negb]. rewrite (key2pub_some key Sn Se). fold (public_object key).
    pose proof (RSA_size_sane key Hfit Ep) as Hsize.
    rewrite (RSA_size_public key Hfit) in *.
    cbn [len bytes]. rewrite Z.gtb_ltb.
    set (k := (bcrypto_count_bits (nd key) + 7) / 8) in *.
    set (max := if type =? 0 then k - 11 else k - 41).
    assert (Hmax : max = k - (if type =? 0 then 11 else 41))
      by (unfold max; destruct (type =? 0); reflexivity).
    assert (Hmax' : 0 <= max <= 2048)
      by (rewrite Hmax; destruct (type =? 0); lia).
    destruct (Z.ltb_spec max 0) as [|_]; [lia|].
    destruct (Z.ltb_spec max (Z.of_nat (length m))) as [|Hle];
      [discriminate|].
    cbn [orb]. rewrite to_int_small by (change (2 ^ 31) with 2147483648; lia).
    intros Hc. exists m, key.
    split; [lia|]. split; [reflexivity|]. split; [exact Hm|].
    split; [reflexivity|]. split; [exact Ep|]. split; [lia|exact Hc].
  - intros (m & key & Ht & Em & Hm & Ek & Ep & Hlen & Hc).
    subst pub msg. destruct (Hint key eq_refl) as [Sn Se].
    pose proof (int_sized_fits_modulus key Sn) as Hfit.
    pose proof (RSA_size_sane key Hfit Ep) as Hsize.
    destruct (Z.ltb_spec type 0) as [|_]; [lia|].
    destruct (Z.ltb_spec 1 type) as [|_]; [lia|]. cbn [orb].
    rewrite (proj2 (nonempty_check (Some m))) by eauto.
    rewrite Ep. cbn [negb]. rewrite (key2pub_some key Sn Se).
    fold (public_object key).
    rewrite (RSA_size_public key Hfit) in *.
    cbn [len bytes]. rewrite Z.gtb_ltb.
    set (k := (bcrypto_count_bits (nd key) + 7) / 8) in *.
    set (max := if type =? 0 then k - 11 else k - 41).
    assert (Hmax : max = k - (if type =? 0 then 11 else 41))
      by (unfold max; destruct (type =? 0); reflexivity).
    assert (Hmax' : 0 <= max <= 2048)
      by (rewrite Hmax; destruct (type =? 0); lia).
    destruct (Z.ltb_spec max 0) as [|_]; [lia|].
    destruct (Z.ltb_spec max (Z.of_nat (length m))) as [|_]; [lia|].
    cbn [orb]. rewrite to_int_small by (change (2 ^ 31) with 2147483648; lia).
    exact Hc.
Qed.

Lemma encrypt_some_iff_witness :
  bcrypto_rsa_encrypt (fun flen m _ padding => Some (to_u8 padding :: m)) 0
    (Some (repeat x01 53)) (Some key512) = Some (x01 :: repeat x01 53)
  /\ bcrypto_rsa_encrypt (fun flen m _ padding => Some m) 0
       (Some (repeat x01 54)) (Some key512) = None.
Proof.
  assert (Hfit : forall key, Some key512 = Some key ->
                             int_sized (nd key) /\ int_sized (ed key))
    by (intros key E; injection E as <-; vm_compute; split; reflexivity).
  split.
  - apply (proj2 (encrypt_some_iff _ 0 _ _ _ Hfit)).
    exists (repeat x01 53), key512.
    split; [left; reflexivity|]. split; [reflexivity|].
    split; [vm_compute; discriminate|]. split; [reflexivity|].
    split; [vm_compute; reflexivity|].
    split; [vm_compute; discriminate|reflexivity].
  - destruct (bcrypto_rsa_encrypt _ 0 (Some (repeat x01 54)) (Some key512))
      as [ct|] eqn:E; [|reflexivity].
    apply (proj1 (encrypt_some_iff _ 0 _ _ _ Hfit)) in E.
    destruct E as (m & key & _ & Em & _ & Ek & _ & Hlen & _).
    injection Em as <-. injection Ek as <-.
    exfalso. vm_compute in Hlen. apply Hlen. reflexivity.
Defined.

(** X12. For a key whose buffers are shorter than 2^31 bytes,
    [bcrypto_rsa_decrypt] returns a plaintext exactly when the type is 0 or
    1, the ciphertext is non-null and not empty, the key passes
    [bcrypto_rsa_sane_privkey], blinding could be switched on and the
    primitive succeeds. The primitive receives the ciphertext length
    converted to [int], which is the length itself below 2^31 bytes; no
    upper bound on the ciphertext length is tested. *)
Theorem decrypt_some_iff
    (RSA_private_decrypt : Z -> list byte -> RSA -> Z -> option (list byte))
    (RSA_blinding_on : RSA -> bool)
    (type : Z) (msg : option (list byte)) (priv : option bcrypto_rsa_key_t)
    (pt : list byte) :
  (forall key, priv = Some key -> key_int_sized key) ->
  (bcrypto_rsa_decrypt RSA_blinding_on RSA_private_decrypt type msg priv
   = Some pt <->
     exists m key,
       (type = 0 \/ type = 1)
       /\ msg = Some m /\ 1 <= Z.of_nat (length m)
       /\ priv = Some key /\ bcrypto_rsa_sane_privkey (Some key) = true
       /\ RSA_blinding_on (private_object key) = true
       /\ RSA_private_decrypt (to_int (Z.of_nat (length m))) m
            (private_object key)
            (if type =? 0 then RSA_PKCS1_PADDING else RSA_PKCS1_OAEP_PADDING)
          = Some pt)
  /\ (forall z, 0 <= z < 2 ^ 31 -> to_int z = z).
Proof.
  intros Hint. split; [|exact to_int_small].
  unfold bcrypto_rsa_decrypt. rewrite Z.gtb_ltb. split.
  - destruct (Z.ltb_spec type 0) as [|Ht0]; [discriminate|].
    destruct (Z.ltb_spec 1 type) as [|Ht1]; [discriminate|]. cbn [orb].
    destruct (is_null msg || _) eqn:Em; [discriminate|].
    apply nonempty_check in Em. destruct Em as (m & Em & Hm).
    destruct (bcrypto_rsa_sane_privkey priv) eqn:Ep; [|discriminate].
    destruct (sane_privkey_some _ Ep) as (key & Ek). subst priv msg.
    cbn [negb]. rewrite (key2priv_some key (Hint key eq_refl)).
    fold (private_object key).
    destruct (RSA_blinding_on (private_object key)) eqn:Eb; [|discriminate].
    cbn [negb len bytes]. intros Hd. exists m, key.
    split; [lia|]. repeat split; assumption.
  - intros (m & key & Ht & Em & Hm & Ek & Ep & Eb & Hd).
    subst priv msg.
    destruct (Z.ltb_spec type 0) as [|_]; [lia|].
    destruct (Z.ltb_spec 1 type) as [|_]; [lia|]. cbn [orb].
    rewrite (proj2 (nonempty_check (Some m))) by eauto.
    rewrite Ep. cbn [negb]. rewrite (key2priv_some key (Hint key eq_refl)).
    fold (private_object key).
    rewrite Eb. cbn [negb len bytes]. exact Hd.
Qed.

Lemma decrypt_some_iff_witness :
  bcrypto_rsa_decrypt (fun _ => true) (fun _ m _ _ => Some m) 1
    (Some (repeat x01 64)) (Some key512) = Some (repeat x01 64).
Proof.
  apply (proj2 (proj1 (decrypt_some_iff (fun _ m _ _ => Some m)
                         (fun _ => true) 1 _ (Some key512) _
                         ltac:(intros key E; injection E as <-;
                               vm_compute; repeat split; reflexivity)))).
  exists (repeat x01 64), key512.
  split; [right; reflexivity|]. split; [reflexivity|].
  split; [vm_compute; discriminate|]. split; [reflexivity|].
  split; [vm_compute; reflexivity|]. split; reflexivity.
Defined.

(** X13. [bcrypto_rsa_privkey_generate] returns a key exactly when bits is
    in [512, 16384], the exponent is odd and in [3, 2^33 - 1], the generator
    succeeds and its object has all eight numbers; the generator is not
    asked for anything else, and the key returned is the generated object
    in normal form. *)
Theorem generate_some_iff
    (RSA_generate_key_ex : Z -> Z -> option RSA)
    (bits exp : Z) (key : bcrypto_rsa_key_t) :
  (bcrypto_rsa_privkey_generate RSA_generate_key_ex bits exp = Some key <->
     512 <= bits <= 16384
     /\ 3 <= exp <= 2 ^ 33 - 1
     /\ Z.odd exp = true
     /\ exists r,
         RSA_generate_key_ex bits exp = Some r
         /\ bcrypto_rsa_priv2key (Some r) = Some key)
  /\ (bcrypto_rsa_privkey_generate RSA_generate_key_ex bits exp = Some key ->
      key_normal key).
Proof.
  assert (Hodd : (Z.land exp 1 =? 0) = negb (Z.odd exp)).
  { change 1 with (Z.ones 1). rewrite Z.land_ones by lia.
    change (2 ^ 1) with 2. rewrite Zmod_odd.
    destruct (Z.odd exp); reflexivity. }
  assert (Hiff :
    bcrypto_rsa_privkey_generate RSA_generate_key_ex bits exp = Some key <->
     512 <= bits <= 16384
     /\ 3 <= exp <= 2 ^ 33 - 1
     /\ Z.odd exp = true
     /\ exists r,
         RSA_generate_key_ex bits exp = Some r
         /\ bcrypto_rsa_priv2key (Some r) = Some key).
  { unfold bcrypto_rsa_privkey_generate. rewrite !Z.gtb_ltb, Hodd.
    change (2 ^ 33 - 1) with 0x1ffffffff.
    destruct (Z.ltb_spec bits 512), (Z.ltb_spec 16384 bits),
      (Z.ltb_spec exp 3), (Z.ltb_spec 0x1ffffffff exp), (Z.odd exp);
      cbn [orb negb]; split; intros Hyp;
      first [ discriminate Hyp
            | exfalso; destruct Hyp as (Hb & He & Ho & _);
              first [lia|discriminate Ho]
            | idtac ].
    - destruct (RSA_generate_key_ex bits exp) as [r|]; [|discriminate Hyp].
      split; [lia|]. split; [lia|]. split; [reflexivity|].
      exists r. split; [reflexivity|exact Hyp].
    - destruct Hyp as (_ & _ & _ & r & -> & Hk). exact Hk. }
  split; [exact Hiff|].
  intros Hg. apply Hiff in Hg.
  destruct Hg as (_ & _ & _ & r & _ & Hk).
  unfold bcrypto_rsa_priv2key in Hk.
  destruct (rsa_n r), (rsa_e r), (rsa_d r), (rsa_p r), (rsa_q r),
    (rsa_dmp1 r), (rsa_dmq1 r), (rsa_iqmp r); try discriminate Hk.
  injection Hk as <-. unfold key_normal. cbn [nd ed dd pd qd dpd dqd qid].
  repeat split; apply normal_bn2bin.
Qed.

(** X14. For a key whose buffers are shorter than 2^31 bytes,
    [bcrypto_rsa_privkey_verify] returns true exactly when the key passes
    [bcrypto_rsa_sane_privkey] and the consistency check of the library
    returns a positive status on the object built from the key; a key that
    fails the structural test is never handed to the library. *)
Theorem privkey_verify_true_iff
    (RSA_check_key : RSA -> Z) (priv : option bcrypto_rsa_key_t) :
  (forall key, priv = Some key -> key_int_sized key) ->
  (bcrypto_rsa_privkey_verify RSA_check_key priv = true <->
     exists key,
       priv = Some key
       /\ bcrypto_rsa_sane_privkey (Some key) = true
       /\ 0 < RSA_check_key (private_object key)).
Proof.
  intros Hint. unfold bcrypto_rsa_privkey_verify. split.
  - destruct (bcrypto_rsa_sane_privkey priv) eqn:Ep; [|discriminate].
    destruct (sane_privkey_some _ Ep) as (key & ->).
    cbn [negb]. rewrite (key2priv_some key (Hint key eq_refl)).
    fold (private_object key).
    destruct (Z.leb_spec (RSA_check_key (private_object key)) 0);
      [discriminate|].
    intros _. exists key. repeat split; assumption.
  - intros (key & -> & Ep & Hc). rewrite Ep. cbn [negb].
    rewrite (key2priv_some key (Hint key eq_refl)).
    fold (private_object key).
    destruct (Z.leb_spec (RSA_check_key (private_object key)) 0);
      [lia|reflexivity].
Qed.

Lemma privkey_verify_true_iff_witness :
  bcrypto_rsa_privkey_verify (fun _ => 1) (Some key512) = true.
Proof.
  apply (proj2 (privkey_verify_true_iff (fun _ => 1) (Some key512)
                  ltac:(intros key E; injection E as <-;
                        vm_compute; repeat split; reflexivity))).
  exists key512. split; [reflexivity|].
  split; [vm_compute; reflexivity|reflexivity].
Defined.

(** X15. [bcrypto_rsa_type] maps the seven supported names to seven
    different identifiers, none of them the error value -1, and every other
    name and the null pointer to -1. *)
Theorem rsa_type_injective (a b : string) :
  (bcrypto_rsa_type (Some a) <> -1 ->
   bcrypto_rsa_type (Some a) = bcrypto_rsa_type (Some b) -> a = b)
  /\ (bcrypto_rsa_type (Some a) = -1 <-> ~ In a supported_algorithms)
  /\ bcrypto_rsa_type None = -1.
Proof.
  split; [|split; [|reflexivity]].
  - intros Ha Hab.
    assert (Hb : bcrypto_rsa_type (Some b) <> -1) by (rewrite <- Hab; exact Ha).
    apply rsa_type_ok_iff in Ha. destruct Ha as (a' & Ea & Hina).
    apply rsa_type_ok_iff in Hb. destruct Hb as (b' & Eb & Hinb).
    injection Ea as <-. injection Eb as <-.
    unfold supported_algorithms in Hina, Hinb. cbn [In] in Hina, Hinb.
    destruct Hina as [<-|[<-|[<-|[<-|[<-|[<-|[<-|[]]]]]]]];
      destruct Hinb as [<-|[<-|[<-|[<-|[<-|[<-|[<-|[]]]]]]]];
      first [reflexivity|vm_compute in Hab; discriminate Hab].
  - rewrite rsa_type_error_iff. split.
    + intros H. apply H. reflexivity.
    + intros H s E. injection E as <-. exact H.
Qed.

(** ** Completion: failure and success *)

Section CompletionOutcome.

Variable priv : bcrypto_rsa_key_t.
Variable key0 : option bcrypto_rsa_key_t.

Hypothesis Hint : key_int_sized priv.
Hypothesis Hsane : bcrypto_rsa_sane_compute (Some priv) = true.

Let Hfits : key_fits priv := key_int_sized_fits priv Hint.

(** Only p, q and e are supplied. *)
Hypothesis Hn : bcrypto_count_bits (nd priv) = 0.
Hypothesis Hd : bcrypto_count_bits (dd priv) = 0.
Hypothesis Hdp : bcrypto_count_bits (dpd priv) = 0.
Hypothesis Hdq : bcrypto_count_bits (dqd priv) = 0.
Hypothesis Hqi : bcrypto_count_bits (qid priv) = 0.

Let e := BN.bin2bn (ed priv).
Let p := BN.bin2bn (pd priv).
Let q := BN.bin2bn (qd priv).
Let lambda := (p - 1) * (q - 1).

Lemma primes_exponent_needs : bcrypto_rsa_needs_compute (Some priv) = true.
Proof.
  unfold bcrypto_rsa_needs_compute. rewrite Hn. reflexivity.
Qed.

Lemma primes_exponent_numbers :
  BN.bin2bn (nd priv) = 0 /\ BN.bin2bn (dd priv) = 0
  /\ BN.bin2bn (dpd priv) = 0 /\ BN.bin2bn (dqd priv) = 0
  /\ BN.bin2bn (qid priv) = 0 /\ e <> 0 /\ 1 <= p /\ 1 <= q.
Proof.
  destruct Hfits as (Fn & Fe & Fd & Fp & Fq & Fdp & Fdq & Fqi).
  pose proof (sane_compute_factors priv Hfits Hsane) as [Hp1 Hq1].
  pose proof (sane_compute_exponent priv Hfits Hsane) as Hed.
  cbv zeta in Hp1, Hq1, Hed.
  split; [apply (count_bits_zero_iff _ Fn), Hn|].
  assert (D0 : BN.bin2bn (dd priv) = 0)
    by (apply (count_bits_zero_iff _ Fd), Hd).
  split; [exact D0|].
  split; [apply (count_bits_zero_iff _ Fdp), Hdp|].
  split; [apply (count_bits_zero_iff _ Fdq), Hdq|].
  split; [apply (count_bits_zero_iff _ Fqi), Hqi|].
  split; [|split; assumption].
  destruct Hed as [He|Hd']; [exact He|contradiction].
Qed.

(** The arithmetic of completion on the numbers (0, e, 0, p, q, 0, 0, 0). *)
Lemma primes_exponent_run :
  compute_numbers 0 e 0 p q 0 0 0
  = if (1 <? lambda) && (Z.gcd e lambda =? 1) && (Z.gcd q p =? 1)
    then Some (mk_RSA (Some (p * q)) (Some e) (Some (Z.invmod e lambda))
                 (Some p) (Some q)
                 (Some (Z.rem (Z.invmod e lambda) (p - 1)))
                 (Some (Z.rem (Z.invmod e lambda) (q - 1)))
                 (Some (Z.invmod q p)))
    else None.
Proof.
  destruct primes_exponent_numbers as (_ & _ & _ & _ & _ & He & Hp1 & Hq1).
  assert (Hl : 0 <= lambda) by (subst lambda; nia).
  unfold compute_numbers, BN.mul, BN.sub, BN.value_one, BN.is_zero.
  fold lambda.
  destruct (Z.eqb_spec e 0) as [|_]; [contradiction|].
  cbn [Z.eqb orb].
  unfold BN.mod_inverse at 1. rewrite (Z.abs_eq lambda) by exact Hl.
  destruct (Z.leb_spec lambda 1) as [Hle|Hgt].
  - destruct (Z.ltb_spec 1 lambda); [lia|]. reflexivity.
  - destruct (Z.ltb_spec 1 lambda) as [_|]; [|lia]. cbn [andb].
    destruct (Z.eqb_spec (Z.gcd e lambda) 1) as [Hg|Hg]; [|reflexivity].
    cbn [andb].
    assert (Hp2 : 2 <= p) by (subst lambda; nia).
    assert (Hq2 : 2 <= q) by (subst lambda; nia).
    unfold BN.mod_.
    destruct (Z.eqb_spec (p - 1) 0); [lia|].
    destruct (Z.eqb_spec (q - 1) 0); [lia|].
    cbn [fst snd].
    unfold BN.mod_inverse. rewrite (Z.abs_eq p) by lia.
    destruct (Z.leb_spec p 1); [lia|].
    destruct (Z.eqb_spec (Z.gcd q p) 1); reflexivity.
Qed.

Lemma primes_exponent_outcome :
  bcrypto_rsa_privkey_compute (Some priv) key0
  = if (1 <? lambda) && (Z.gcd e lambda =? 1) && (Z.gcd q p =? 1)
    then (true,
          bcrypto_rsa_priv2key
            (Some (mk_RSA (Some (p * q)) (Some e)
                     (Some (Z.invmod e lambda)) (Some p) (Some q)
                     (Some (Z.rem (Z.invmod e lambda) (p - 1)))
                     (Some (Z.rem (Z.invmod e lambda) (q - 1)))
                     (Some (Z.invmod q p)))))
    else (false, key0).
Proof.
  rewrite (privkey_compute_run priv Hint key0 Hsane primes_exponent_needs).
  destruct primes_exponent_numbers as (-> & -> & -> & -> & -> & _).
  fold e p q. rewrite primes_exponent_run.
  destruct (_ && _ && _); reflexivity.
Qed.

End CompletionOutcome.

(** X16. Completion from the two primes and the public exponent. For a
    key whose buffers are shorter than 2^31 bytes and whose numbers have at
    most 16384 bits, that passes [bcrypto_rsa_sane_compute] and supplies p,
    q and e only, [bcrypto_rsa_privkey_compute] succeeds exactly when
    (p - 1)(q - 1) > 1, e is coprime to (p - 1)(q - 1) and q is coprime to
    p. It then returns a key that obeys the completion relation, in
    particular (e * d) mod (p - 1)(q - 1) = 1; otherwise it returns false
    and leaves the caller's key pointer alone. *)
Theorem complete_from_primes_and_exponent
    (priv : bcrypto_rsa_key_t) (key0 : option bcrypto_rsa_key_t) :
  key_int_sized priv ->
  key_bits_bounded priv ->
  bcrypto_rsa_sane_compute (Some priv) = true ->
  bcrypto_count_bits (nd priv) = 0 ->
  bcrypto_count_bits (dd priv) = 0 ->
  bcrypto_count_bits (dpd priv) = 0 ->
  bcrypto_count_bits (dqd priv) = 0 ->
  bcrypto_count_bits (qid priv) = 0 ->
  let e := BN.bin2bn (ed priv) in
  let p := BN.bin2bn (pd priv) in
  let q := BN.bin2bn (qd priv) in
  let lambda := (p - 1) * (q - 1) in
  (1 < lambda /\ Z.gcd e lambda = 1 /\ Z.gcd q p = 1 ->
   exists out,
     bcrypto_rsa_privkey_compute (Some priv) key0 = (true, Some out)
     /\ completes priv out
     /\ (e * BN.bin2bn (dd out)) mod lambda = 1)
  /\ (~ (1 < lambda /\ Z.gcd e lambda = 1 /\ Z.gcd q p = 1) ->
      bcrypto_rsa_privkey_compute (Some priv) key0 = (false, key0)).
Proof.
  intros Hi _ Hs Hn Hd Hdp Hdq Hqi e p q lambda.
  pose proof (key_int_sized_fits _ Hi) as Hf.
  pose proof (primes_exponent_outcome priv key0 Hi Hs Hn Hd Hdp Hdq Hqi)
    as Hrun.
  cbv zeta in Hrun. fold e p q lambda in Hrun.
  split.
  - intros (Hl & Hg & Hc).
    destruct (Z.ltb_spec 1 lambda) as [_|]; [|lia].
    rewrite Hg, Hc in Hrun. cbn [Z.eqb Pos.eqb andb] in Hrun.
    pose proof (primes_exponent_needs priv Hn) as Hneed.
    destruct (privkey_compute_ok priv Hi Hf Hs Hneed key0 _ Hrun)
      as (out & Eout & _ & Hcomp).
    exists out. split; [rewrite Hrun, Eout; reflexivity|].
    split; [exact Hcomp|].
    unfold completes in Hcomp. cbv zeta in Hcomp.
    destruct Hcomp as (_ & _ & _ & _ & Hdd & _).
    rewrite Hd in Hdd. cbn [Z.eqb] in Hdd.
    fold e p q lambda in Hdd. apply Hdd.
  - intros Hno.
    destruct (Z.ltb_spec 1 lambda) as [Hl|]; [|exact Hrun].
    destruct (Z.eqb_spec (Z.gcd e lambda) 1) as [Hg|]; [|exact Hrun].
    destruct (Z.eqb_spec (Z.gcd q p) 1) as [Hc|]; [|exact Hrun].
    exfalso. apply Hno. repeat split; assumption.
Qed.

Lemma complete_from_primes_and_exponent_witness :
  (exists out,
      bcrypto_rsa_privkey_compute (Some key_pqe) None = (true, Some out)
      /\ completes key_pqe out
      /\ (BN.bin2bn (ed key_pqe) * BN.bin2bn (dd out))
         mod ((BN.bin2bn (pd key_pqe) - 1) * (BN.bin2bn (qd key_pqe) - 1))
         = 1).
Proof.
  apply (proj1 (complete_from_primes_and_exponent key_pqe None
                  ltac:(vm_compute; repeat split; reflexivity)
                  ltac:(vm_compute; repeat split; discriminate)
                  ltac:(vm_compute; reflexivity)
                  ltac:(vm_compute; reflexivity)
                  ltac:(vm_compute; reflexivity)
                  ltac:(vm_compute; reflexivity)
                  ltac:(vm_compute; reflexivity)
                  ltac:(vm_compute; reflexivity))).
  vm_compute. repeat split; reflexivity.
Defined.

(** X17. A failed completion is invisible to the caller. Whenever
    [bcrypto_rsa_privkey_compute] returns false the caller's key pointer
    holds what it held before the call; this is what happens for a null
    key and for every key that [bcrypto_rsa_sane_compute] refuses. Whenever
    it returns true with a key, the input passed the validator and needed
    completion. *)
Theorem compute_failure_is_clean
    (priv key0 : option bcrypto_rsa_key_t) :
  (fst (bcrypto_rsa_privkey_compute priv key0) = false ->
   snd (bcrypto_rsa_privkey_compute priv key0) = key0)
  /\ (bcrypto_rsa_sane_compute priv = false ->
      bcrypto_rsa_privkey_compute priv key0 = (false, key0))
  /\ bcrypto_rsa_privkey_compute None key0 = (false, key0)
  /\ (forall out,
         bcrypto_rsa_privkey_compute priv key0 = (true, Some out) ->
         bcrypto_rsa_sane_compute priv = true
         /\ bcrypto_rsa_needs_compute priv = true
         /\ key_normal out).
Proof.
  split; [|split; [|split]].
  - unfold bcrypto_rsa_privkey_compute.
    destruct (bcrypto_rsa_sane_compute priv); cbn [negb]; [|reflexivity].
    destruct (bcrypto_rsa_needs_compute priv); cbn [negb];
      [|intros H; discriminate H].
    match goal with
    | |- context [match ?x with Some _ => _ | None => _ end] =>
        destruct x
    end; [intros H; discriminate H|reflexivity].
  - intros H. unfold bcrypto_rsa_privkey_compute. rewrite H. reflexivity.
  - reflexivity.
  - intros out. unfold bcrypto_rsa_privkey_compute.
    destruct (bcrypto_rsa_sane_compute priv) eqn:Es; cbn [negb];
      [|intros H; discriminate H].
    destruct (bcrypto_rsa_needs_compute priv) eqn:En; cbn [negb];
      [|intros H; discriminate H].
    destruct (bcrypto_rsa_key2priv priv) as [priv_r|] eqn:Ek;
      [|intros H; discriminate H].
    destruct (key2priv_full _ _ Ek)
      as (n & e & d & p & q & dp & dq & qi & ->).
    cbn [rsa_n rsa_e rsa_d rsa_p rsa_q rsa_dmp1 rsa_dmq1 rsa_iqmp].
    destruct (compute_numbers _ _ _ _ _ _ _ _) as [out_r|] eqn:Ec;
      [|intros H; discriminate H].
    destruct (compute_numbers_spec _ _ _ _ _ _ _ _ _ Ec)
      as (n' & e' & d' & dp' & dq' & qi' & -> & _).
    cbn [bcrypto_rsa_priv2key rsa_n rsa_e rsa_d rsa_p rsa_q rsa_dmp1
           rsa_dmq1 rsa_iqmp].
    intros H. injection H as <-.
    split; [reflexivity|]. split; [reflexivity|].
    unfold key_normal. cbn [nd ed dd pd qd dpd dqd qid].
    repeat split; apply normal_bn2bin.
Qed.

(** ** The arena of the key conversion *)

Section Arena.

Lemma place_end (pos : Z) (fields : list (list byte)) :
  snd (place pos fields) = pos + Z.of_nat (length (concat fields)).
Proof.
  revert pos. induction fields as [|f fields IH]; intros pos;
    cbn [place concat snd length].
  - lia.
  - rewrite IH, length_app. lia.
Qed.

Lemma place_consecutive (pos : Z) (fields : list (list byte)) :
  consecutive pos (fst (place pos fields)) (snd (place pos fields)).
Proof.
  revert pos. induction fields as [|f fields IH]; intros pos;
    cbn [place fst snd consecutive].
  - reflexivity.
  - split; [reflexivity|]. split; [lia|]. apply IH.
Qed.

Lemma slice_middle (before f after : list byte) :
  slice (before ++ f ++ after) (Z.of_nat (length before))
    (Z.of_nat (length f)) = f.
Proof.
  unfold slice. rewrite !Nat2Z.id.
  rewrite skipn_app, skipn_all, Nat.sub_diag. cbn [skipn app].
  rewrite firstn_app, firstn_all, Nat.sub_diag. cbn [firstn].
  apply app_nil_r.
Qed.

(** Reading each region of the allocation gives the field written there. *)
Lemma place_slices (before : list byte) (fields : list (list byte)) :
  map (fun r => slice (before ++ concat fields) (fst r) (snd r))
    (fst (place (Z.of_nat (length before)) fields)) = fields.
Proof.
  revert before. induction fields as [|f fields IH]; intros before;
    cbn [place fst snd map concat]; [reflexivity|].
  rewrite slice_middle. f_equal.
  specialize (IH (before ++ f)).
  rewrite length_app, Nat2Z.inj_add, <- app_assoc in IH. exact IH.
Qed.

End Arena.

(** X18. The arena of [bcrypto_rsa_priv2key]. When the conversion
    succeeds, the allocation has exactly the computed size; the eight
    regions start right after the key structure, follow one another in the
    order n, e, d, p, q, dp, dq, qInv without gap or overlap and end at the
    end of the allocation; and the bytes of the regions are the eight
    buffers of the key the function returns. *)
Theorem priv2key_arena_layout (header : list byte) (priv_r : option RSA)
    (arena : list byte) (size : Z) (regions : list (Z * Z)) :
  bcrypto_rsa_priv2key_arena header priv_r = Some (arena, size, regions) ->
  Z.of_nat (length arena) = size
  /\ consecutive (Z.of_nat (length header)) regions size
  /\ exists key,
      bcrypto_rsa_priv2key priv_r = Some key
      /\ map (fun r => Some (slice arena (fst r) (snd r))) regions
         = [nd key; ed key; dd key; pd key; qd key; dpd key; dqd key;
            qid key].
Proof.
  unfold bcrypto_rsa_priv2key_arena, bcrypto_rsa_priv2key.
  destruct priv_r as [r|]; [|discriminate].
  destruct (rsa_n r) as [n|]; [|discriminate].
  destruct (rsa_e r) as [e|]; [|discriminate].
  destruct (rsa_d r) as [d|]; [|discriminate].
  destruct (rsa_p r) as [p|]; [|discriminate].
  destruct (rsa_q r) as [q|]; [|discriminate].
  destruct (rsa_dmp1 r) as [dp|]; [|discriminate].
  destruct (rsa_dmq1 r) as [dq|]; [|discriminate].
  destruct (rsa_iqmp r) as [qi|]; [|discriminate].
  cbv zeta.
  remember (map BN.bn2bin [n; e; d; p; q; dp; dq; qi]) as fields
    eqn:Hfields.
  assert (Hlen : Z.of_nat (length (concat fields))
                 = BN.num_bytes n + BN.num_bytes e + BN.num_bytes d
                   + BN.num_bytes p + BN.num_bytes q + BN.num_bytes dp
                   + BN.num_bytes dq + BN.num_bytes qi).
  { rewrite Hfields. cbn [map concat].
    rewrite !length_app, !Nat2Z.inj_add, !BNFacts.length_bn2bin.
    cbn [length]. lia. }
  intros H. injection H as <- <- <-.
  split; [rewrite length_app, Nat2Z.inj_add, Hlen; lia|].
  split.
  - pose proof (place_consecutive (Z.of_nat (length header)) fields) as Hc.
    rewrite place_end, Hlen in Hc.
    replace (Z.of_nat (length header) + BN.num_bytes n + BN.num_bytes e
             + BN.num_bytes d + BN.num_bytes p + BN.num_bytes q
             + BN.num_bytes dp + BN.num_bytes dq + BN.num_bytes qi)
      with (Z.of_nat (length header)
            + (BN.num_bytes n + BN.num_bytes e + BN.num_bytes d
               + BN.num_bytes p + BN.num_bytes q + BN.num_bytes dp
               + BN.num_bytes dq + BN.num_bytes qi)) by lia.
    exact Hc.
  - eexists. split; [reflexivity|].
    cbn [nd ed dd pd qd dpd dqd qid].
    pose proof (place_slices header fields) as Hs.
    apply (f_equal (map Some)) in Hs. rewrite map_map in Hs.
    rewrite Hs, Hfields. reflexivity.
Qed.

Lemma priv2key_arena_layout_witness :
  Z.of_nat (length [xaa; xbb; x0f; x02; x01; x03; x05; x01; x01; x01]) = 10
  /\ consecutive (Z.of_nat (length [xaa; xbb]))
       [(2, 1); (3, 1); (4, 1); (5, 1); (6, 1); (7, 1); (8, 1); (9, 1)] 10
  /\ exists key,
      bcrypto_rsa_priv2key
        (Some (mk_RSA (Some 15) (Some 2) (Some 1) (Some 3) (Some 5)
                 (Some 1) (Some 1) (Some 1))) = Some key
      /\ map (fun r => Some (slice
                [xaa; xbb; x0f; x02; x01; x03; x05; x01; x01; x01]
                (fst r) (snd r)))
           [(2, 1); (3, 1); (4, 1); (5, 1); (6, 1); (7, 1); (8, 1); (9, 1)]
         = [nd key; ed key; dd key; pd key; qd key; dpd key; dqd key;
            qid key].
Proof.
  apply (priv2key_arena_layout [xaa; xbb]
           (Some (mk_RSA (Some 15) (Some 2) (Some 1) (Some 3) (Some 5)
                    (Some 1) (Some 1) (Some 1)))).
  vm_compute. reflexivity.
Defined.
(** ** The [int] lengths handed to [BN_bin2bn], and the forms the decoder
    takes *)

Section IntLengths.

Variable key : bcrypto_rsa_key_t.

(** A length that is a negative [int] makes both conversions fail. *)
Lemma key2priv_negative_length :
  2 ^ 31 <= len (ed key) < 2 ^ 32 -> bcrypto_rsa_key2priv (Some key) = None.
Proof.
  intros H. unfold bcrypto_rsa_key2priv.
  rewrite (bin2bn_int_negative (ed key) H).
  destruct (BN.bin2bn_int (nd key) _); reflexivity.
Qed.

Lemma key2pub_negative_length :
  2 ^ 31 <= len (ed key) < 2 ^ 32 -> bcrypto_rsa_key2pub (Some key) = None.
Proof.
  intros H. unfold bcrypto_rsa_key2pub.
  rewrite (bin2bn_int_negative (ed key) H).
  destruct (BN.bin2bn_int (nd key) _); reflexivity.
Qed.

End IntLengths.

(** X19. The buffer lengths of a key are [size_t] and [BN_bin2bn] takes an
    [int]. When every buffer is shorter than 2^31 bytes,
    [bcrypto_rsa_key2priv] and [bcrypto_rsa_key2pub] build the object that
    holds the numbers of the buffers. An exponent buffer of 2^31 to
    2^32 - 1 bytes has a negative [int] length: both conversions return
    null, and with them both exports fail. Of an exponent buffer whose
    length is k modulo 2^32, with k below 2^31, only the first k bytes are
    read. The successes are stated for numbers of at most 16384 bits. *)
Theorem key2priv_length_conversion :
  (forall key,
      key_int_sized key -> key_bits_bounded key ->
      bcrypto_rsa_key2priv (Some key) = Some (private_object key))
  /\ (forall key,
      int_sized (nd key) -> int_sized (ed key) ->
      bcrypto_count_bits (nd key) <= 16384 ->
      bcrypto_count_bits (ed key) <= 16384 ->
      bcrypto_rsa_key2pub (Some key) = Some (public_object key))
  /\ (forall key,
      2 ^ 31 <= len (ed key) < 2 ^ 32 ->
      bcrypto_rsa_key2priv (Some key) = None
      /\ bcrypto_rsa_key2pub (Some key) = None
      /\ bcrypto_rsa_privkey_export (Some key) = None
      /\ bcrypto_rsa_pubkey_export (Some key) = None)
  /\ (forall key es k z,
      ed key = Some es ->
      0 <= k < 2 ^ 31 -> Z.of_nat (length es) = k + z * 2 ^ 32 ->
      int_sized (nd key) ->
      bcrypto_count_bits (nd key) <= 16384 ->
      BN.num_bits (BN.of_bytes (firstn (Z.to_nat k) es)) <= 16384 ->
      bcrypto_rsa_key2pub (Some key)
      = Some (mk_RSA (Some (BN.bin2bn (nd key)))
                (Some (BN.of_bytes (firstn (Z.to_nat k) es)))
                None None None None None None)).
Proof.
  split; [intros key H _; apply (key2priv_some key H)|].
  split; [intros key Hn He _ _; apply (key2pub_some key Hn He)|].
  split.
  - intros key H.
    pose proof (key2priv_negative_length key H) as Hpriv.
    pose proof (key2pub_negative_length key H) as Hpub.
    split; [exact Hpriv|]. split; [exact Hpub|]. split.
    + unfold bcrypto_rsa_privkey_export. rewrite Hpriv.
      destruct (negb _); reflexivity.
    + unfold bcrypto_rsa_pubkey_export. rewrite Hpub.
      destruct (negb _); reflexivity.
  - intros key es k z Ee Hk Hl Hn _ _. unfold bcrypto_rsa_key2pub.
    rewrite (bin2bn_int_sized _ Hn), Ee.
    rewrite (bin2bn_int_prefix es k z Hk Hl). reflexivity.
Qed.

Section BerForms.



End BerForms.

